(** * pygridder: gridding points, lines and polygons on a regular grid

    A shallow embedding of [pygridder/girdder.py] (class [Gridder]).

    Conventions of the embedding:
    - the arrays given to the constructor hold int64 or float64 entries
      ([array_like]); the centering transform is written over an arbitrary
      carrier with its own [+], [-] and [/ 2.] and runs in binary64
      ([PrimFloat]) inside [__init__];
    - the grid that comes out, the points in the tree and the query
      coordinates are the rationals [Q] that the floats stand for, and the
      distances between them are exact.  [Gridder_init] is the constructor
      on grids given by such rationals, with an exact centering transform;
      every object that [__init__] builds from float64 arrays is one that
      [Gridder_init] builds (lemma [init_float_constructed]);
    - a 2-d numpy array is a list of rows; [ravel] is row-major;
    - Python exceptions are the [Raise] branch of [result];
    - distances are compared through their squares (the square root is
      monotone), so no real numbers are needed;
    - the methods of [Gridder] run in a small state-and-error monad over the
      object's fields, so that what a call does to [self] is explicit. *)

From Stdlib Require Import List ZArith QArith Lia Lqa Bool Arith PeanoNat PrimFloat.
From Stdlib Require SpecFloat FloatOps.
Import ListNotations.

Set Implicit Arguments.
Open Scope nat_scope.

(** ** Python results and exceptions *)

Inductive exn : Type := ValueError | IndexError | TypeError.

Inductive result (A : Type) : Type :=
| Ok (a : A)
| Raise (e : exn).

Arguments Ok {A} a.
Arguments Raise {A} e.

Definition rbind {A B : Type} (r : result A) (k : A -> result B) : result B :=
  match r with
  | Ok a => k a
  | Raise e => Raise e
  end.

Fixpoint rmapM {A B : Type} (f : A -> result B) (l : list A) : result (list B) :=
  match l with
  | [] => Ok []
  | a :: l' =>
      rbind (f a) (fun b => rbind (rmapM f l') (fun bs => Ok (b :: bs)))
  end.

(** [zip(a, b, strict=True)], consumed to the end: the pairs, or [ValueError]
    when one argument is exhausted before the other. *)
Fixpoint zip_strict {A B : Type} (a : list A) (b : list B) : result (list (A * B)) :=
  match a, b with
  | [], [] => Ok []
  | x :: a', y :: b' => rbind (zip_strict a' b') (fun t => Ok ((x, y) :: t))
  | _, _ => Raise ValueError
  end.

(** Elementwise binary operation on arrays of one shape. *)
Fixpoint map2 {A B C : Type} (f : A -> B -> C) (a : list A) (b : list B) : list C :=
  match a, b with
  | x :: a', y :: b' => f x y :: map2 f a' b'
  | _, _ => []
  end.

(** ** numpy slices used by the constructor *)

Section NdArray.
Variable F : Type.

Definition array1 := list F.
Definition array2 := list (list F).

(** [a.shape] of a 2-d array. *)
Definition shape (a : array2) : nat * nat := (length a, length (hd [] a)).

(** [np.array] accepts nested lists whose rows have one length. *)
Definition rectangular (a : array2) : bool :=
  forallb (fun r => length r =? snd (shape a)) a.

Definition np_array (a : array2) : result array2 :=
  if rectangular a then Ok a else Raise ValueError.

(** [a.ravel()] *)
Definition ravel (a : array2) : array1 := concat a.

(** [a[i, j]] for in-range non-negative indices. *)
Definition get2 (a : array2) (i j : nat) : option F :=
  match nth_error a i with
  | Some r => nth_error r j
  | None => None
  end.

(** [l[-k]]: [IndexError] unless [1 <= k <= len(l)]. *)
Definition item_neg {A : Type} (k : nat) (l : list A) : result A :=
  if (1 <=? k) && (k <=? length l) then
    match nth_error l (length l - k) with
    | Some v => Ok v
    | None => Raise IndexError
    end
  else Raise IndexError.

(** [l[-k] = v] *)
Definition set_item_neg {A : Type} (k : nat) (v : A) (l : list A) : result (list A) :=
  if (1 <=? k) && (k <=? length l) then
    Ok (firstn (length l - k) l ++ v :: skipn (S (length l - k)) l)
  else Raise IndexError.

(** [a[:, :-1]], [a[:, 1:]], [a[:-1, :]], [a[1:, :]] *)
Definition cols_but_last (a : array2) : array2 := map (@removelast F) a.
Definition cols_from_1 (a : array2) : array2 := map (@tl F) a.
Definition rows_but_last (a : array2) : array2 := removelast a.
Definition rows_from_1 (a : array2) : array2 := tl a.

(** [a[:, -k]]: [IndexError] unless [1 <= k <= a.shape[1]]. *)
Definition col_neg (k : nat) (a : array2) : result array1 :=
  if k <=? snd (shape a) then rmapM (item_neg k) a else Raise IndexError.

(** [a[-k, :]] *)
Definition row_neg (k : nat) (a : array2) : result array1 := item_neg k a.

(** [x[:, :-1] = e]: the first [cols - 1] entries of every row are replaced. *)
Definition set_cols_but_last (x e : array2) : array2 :=
  map2 (fun row er => er ++ skipn (length er) row) x e.

(** [x[:-1, :] = e]: the first [rows - 1] rows are replaced. *)
Definition set_rows_but_last (x e : array2) : array2 :=
  e ++ skipn (length e) x.

(** [x[:, -k] = v] and [x[-k, :] = v] *)
Definition set_col_neg (k : nat) (x : array2) (v : array1) : result array2 :=
  rbind (zip_strict x v) (rmapM (fun rv => set_item_neg k (snd rv) (fst rv))).
Definition set_row_neg (k : nat) (x : array2) (v : array1) : result array2 :=
  set_item_neg k v x.

(** The arithmetic of the element type: [+], [-] and [/ 2.] *)
Variable fadd fsub : F -> F -> F.
Variable fhalf : F -> F.

Definition add1 : array1 -> array1 -> array1 := map2 fadd.
Definition sub1 : array1 -> array1 -> array1 := map2 fsub.
Definition half1 : array1 -> array1 := map fhalf.
Definition add2 : array2 -> array2 -> array2 := map2 add1.
Definition sub2 : array2 -> array2 -> array2 := map2 sub1.
Definition half2 : array2 -> array2 := map half1.

(** Lines 39-42 of the constructor:
<<
    x = tx.copy()
    x[:, :-1] = tx[:, :-1] + (tx[:, 1:] - tx[:, :-1]) / 2.
    x[:, -1] += (tx[:, -1] - tx[:, -2]) / 2.
>> *)
Definition center_x (tx : array2) : result array2 :=
  let x := tx in
  let x := set_cols_but_last x
             (add2 (cols_but_last tx)
                   (half2 (sub2 (cols_from_1 tx) (cols_but_last tx)))) in
  rbind (col_neg 1 x) (fun xl =>
  rbind (col_neg 1 tx) (fun l1 =>
  rbind (col_neg 2 tx) (fun l2 =>
  set_col_neg 1 x (add1 xl (half1 (sub1 l1 l2)))))).

(** Lines 40, 43-44 of the constructor:
<<
    y = ty.copy()
    y[:-1, :] = ty[:-1, :] + (ty[1:, :] - ty[:-1, :]) / 2.
    y[-1, :] += (ty[-1, :] - ty[-2, :]) / 2.
>> *)
Definition center_y (ty : array2) : result array2 :=
  let y := ty in
  let y := set_rows_but_last y
             (add2 (rows_but_last ty)
                   (half2 (sub2 (rows_from_1 ty) (rows_but_last ty)))) in
  rbind (row_neg 1 y) (fun yl =>
  rbind (row_neg 1 ty) (fun l1 =>
  rbind (row_neg 2 ty) (fun l2 =>
  set_row_neg 1 y (add1 yl (half1 (sub1 l1 l2)))))).

End NdArray.

(** ** numpy index helpers used by [_kdtree_query] *)

(** [np.where(p(l))[0]]: the positions at which [p] holds. *)
Definition np_where {A : Type} (p : A -> bool) (l : list A) : list nat :=
  map fst (filter (fun ix => p (snd ix)) (combine (seq 0 (length l)) l)).

(** [np.delete(l, pos)]: [l] without the entries at the positions [pos]. *)
Definition np_delete {A : Type} (l : list A) (pos : list nat) : list A :=
  map snd (filter (fun ix => negb (existsb (Nat.eqb (fst ix)) pos))
                  (combine (seq 0 (length l)) l)).

(** [np.unravel_index(inds, shape)] for a 2-d shape: the tuple of row indices
    and column indices; [ValueError] on an index outside the shape. *)
Definition unravel1 (shp : nat * nat) (i : nat) : result (nat * nat) :=
  if i <? fst shp * snd shp then Ok (i / snd shp, i mod snd shp)
  else Raise ValueError.

Definition unravel_index (inds : list nat) (shp : nat * nat)
  : result (list nat * list nat) :=
  rbind (rmapM (unravel1 shp) inds) (fun rc => Ok (map fst rc, map snd rc)).

(** [np.zeros(shape)] *)
Definition np_zeros {T : Type} (zero : T) (shp : nat * nat) : array2 T :=
  repeat (repeat zero (snd shp)) (fst shp).

(** ** scipy.spatial.KDTree

    The tree is modelled by the points it indexes; a query is the exact
    nearest neighbour, found by scanning them (the first of several equally
    near points wins).  A neighbour counts only when its distance is below
    [distance_upper_bound]; a missing neighbour is reported as index [n],
    the number of indexed points. *)

Definition point : Type := (Q * Q)%type.

Definition Qlt_bool (x y : Q) : bool := negb (Qle_bool y x).

(** Squared Euclidean distance. *)
Definition sqdist (p q : point) : Q :=
  ((fst p - fst q) * (fst p - fst q) + (snd p - snd q) * (snd p - snd q))%Q.

(** The snap threshold [dx]: a number or [np.inf]. *)
Inductive bound : Type := Finite (b : Q) | Infinity.

(** [d < dx] for a distance [d >= 0] given by its square [d2]. *)
Definition within (dx : bound) (d2 : Q) : bool :=
  match dx with
  | Infinity => true
  | Finite b => Qlt_bool 0%Q b && Qlt_bool d2 (b * b)%Q
  end.

Record KDTree : Type := { kd_data : list point }.

(** [ss.KDTree(data)]: the data must be a non-empty (n, 2) array. *)
Definition KDTree_new (data : list point) : result KDTree :=
  match data with
  | [] => Raise ValueError
  | _ => Ok {| kd_data := data |}
  end.

Fixpoint nearest_from (q : point) (best : nat) (bd : Q) (i : nat) (l : list point)
  : nat * Q :=
  match l with
  | [] => (best, bd)
  | p :: l' =>
      if Qlt_bool (sqdist p q) bd
      then nearest_from q i (sqdist p q) (S i) l'
      else nearest_from q best bd (S i) l'
  end.

Definition nearest (data : list point) (q : point) : option (nat * Q) :=
  match data with
  | [] => None
  | p :: l => Some (nearest_from q 0 (sqdist p q) 1 l)
  end.

(** One row of [tree.query(points, k=1, distance_upper_bound=dx)]: the
    squared distance ([None] for [inf]) and the index. *)
Definition query1 (t : KDTree) (dx : bound) (q : point) : option Q * nat :=
  match nearest (kd_data t) q with
  | Some (i, d2) => if within dx d2 then (Some d2, i) else (None, length (kd_data t))
  | None => (None, length (kd_data t))
  end.

(** [tree.query(points, k=1, distance_upper_bound=dx)]; an empty [points]
    is a 1-d array of shape (0,), which the tree refuses. *)
Definition KDTree_query (t : KDTree) (points : list point) (dx : bound)
  : result (list (option Q) * list nat) :=
  match points with
  | [] => Raise ValueError
  | _ => Ok (map (fun q => fst (query1 t dx q)) points,
             map (fun q => snd (query1 t dx q)) points)
  end.

(** ** Rasterizer ([skimage.draw])

    [skimage.draw.line], [skimage.draw.polygon] and
    [skimage.draw.polygon_perimeter] are called by [Gridder] but are not part
    of the repository's sources. *)

Definition cell : Type := (Z * Z)%type.

(** Modelled from the spec: the inner loop of [traceLine]'s line drawing
    ([skimage.draw.line], absent from the sources),
    [while d >= 0: r += sr; d -= 2 * dc], run for at most [fuel] rounds;
    [d + 1] rounds are enough since each takes at least 2 off [d]. *)
Fixpoint minor_steps (fuel : nat) (sr dc r d : Z) : Z * Z :=
  match fuel with
  | O => (r, d)
  | S f =>
      if (0 <=? d)%Z then minor_steps f sr dc (r + sr)%Z (d - 2 * dc)%Z
      else (r, d)
  end.

(** Modelled from the spec: the main loop of [traceLine] ([skimage.draw.line],
    absent from the sources), the [n] cells drawn before the last one; [c]
    runs along the major axis. *)
Fixpoint line_loop (n : nat) (steep : bool) (sr sc dr dc r c d : Z) : list cell :=
  match n with
  | O => []
  | S n' =>
      (if steep then (c, r) else (r, c)) ::
      (let rd := minor_steps (Z.to_nat (d + 1)) sr dc r d in
       line_loop n' steep sr sc dr dc (fst rd) (c + sc)%Z (snd rd + 2 * dr)%Z)
  end.

(** Modelled from the spec: [traceLine] ([skimage.draw.line], absent from the
    sources) is "a discrete line-drawing algorithm (equivalent to
    Bresenham's) over integer grid coordinates, producing every cell the
    segment from (r0,c0) to (r1,c1) passes through, inclusive of both
    endpoints, in order from start to end".  This is Bresenham's algorithm
    with an integer error term, stepping along the longer axis. *)
Definition traceLine (r0 c0 r1 c1 : Z) : list cell :=
  let dr := Z.abs (r1 - r0) in
  let dc := Z.abs (c1 - c0) in
  let sc := if (0 <? c1 - c0)%Z then 1%Z else (-1)%Z in
  let sr := if (0 <? r1 - r0)%Z then 1%Z else (-1)%Z in
  (if (dc <? dr)%Z
   then line_loop (Z.to_nat dr) true sc sr dc dr c0 r0 (2 * dc - dr)%Z
   else line_loop (Z.to_nat dc) false sr sc dr dc r0 c0 (2 * dr - dc)%Z)
  ++ [(r1, c1)].

(** Modelled from the spec: the edges of the "implicitly closed" polygon of
    [fillPolygon] and [tracePerimeter] ([skimage.draw], absent from the
    sources): each vertex with its successor, the last with the first. *)
Definition edges (vs : list cell) : list (cell * cell) :=
  match vs with
  | [] => []
  | v0 :: _ => combine vs (tl vs ++ [v0])
  end.

(** Modelled from the spec: part of [fillPolygon]'s point-in-polygon rule
    ([skimage.draw.polygon], absent from the sources), twice the signed area
    of the triangle [a], [b], [p]. *)
Definition cross (a b p : cell) : Z :=
  ((fst b - fst a) * (snd p - snd a) - (fst p - fst a) * (snd b - snd a))%Z.

(** Modelled from the spec: part of [fillPolygon]'s rule ("on ... the polygon
    boundary"; [skimage.draw.polygon] is absent from the sources): [p] lies
    on the closed segment from [a] to [b]. *)
Definition on_segment (p : cell) (e : cell * cell) : bool :=
  let a := fst e in
  let b := snd e in
  (cross a b p =? 0)%Z
  && (Z.min (fst a) (fst b) <=? fst p)%Z && (fst p <=? Z.max (fst a) (fst b))%Z
  && (Z.min (snd a) (snd b) <=? snd p)%Z && (snd p <=? Z.max (snd a) (snd b))%Z.

(** Modelled from the spec: part of [fillPolygon]'s rule ("inside the
    polygon"; [skimage.draw.polygon] is absent from the sources): the ray
    from [p] towards larger rows crosses the edge [e]. *)
Definition ray_crosses (p : cell) (e : cell * cell) : bool :=
  let a := fst e in
  let b := snd e in
  if (snd a <=? snd p)%Z && (snd p <? snd b)%Z then (0 <? cross a b p)%Z
  else if (snd b <=? snd p)%Z && (snd p <? snd a)%Z then (cross a b p <? 0)%Z
  else false.

(** Modelled from the spec: [fillPolygon]'s test ([skimage.draw.polygon],
    absent from the sources), the centre of cell [p] lies "on or inside the
    polygon boundary" (even-odd rule). *)
Definition on_or_inside (vs : list cell) (p : cell) : bool :=
  existsb (on_segment p) (edges vs)
  || Nat.odd (length (filter (ray_crosses p) (edges vs))).

(** Modelled from the spec: the scan of [fillPolygon] ([skimage.draw.polygon],
    absent from the sources) runs over these ranges, the integers from [lo]
    to [hi], both included, *)
Definition zrange (lo hi : Z) : list Z :=
  map (fun k => (lo + Z.of_nat k)%Z) (seq 0 (Z.to_nat (hi - lo + 1))).

(** Modelled from the spec: and these bounds, the least and the greatest
    vertex coordinate. *)
Definition zmin (l : list Z) : Z := fold_right Z.min (hd 0%Z l) l.

(** Modelled from the spec: see [zmin]. *)
Definition zmax (l : list Z) : Z := fold_right Z.max (hd 0%Z l) l.

(** Modelled from the spec: [fillPolygon] ([skimage.draw.polygon], absent
    from the sources) "returns all cells whose centers lie on or inside the
    polygon boundary, using a scanline/point-in-polygon fill rule";
    "degenerate polygons (fewer than 3 usable vertices after snapping) yield
    an empty result rather than raising an error".  The cells of the
    bounding box are scanned row by row. *)
Definition fillPolygon (rs cs : list Z) : result (list cell) :=
  let vs := combine rs cs in
  if length vs <? 3 then Ok []
  else Ok (filter (on_or_inside vs)
             (flat_map (fun r => map (fun c => (r, c)) (zrange (zmin cs) (zmax cs)))
                       (zrange (zmin rs) (zmax rs)))).

(** Modelled from the spec: [tracePerimeter]
    ([skimage.draw.polygon_perimeter], absent from the sources) "returns only
    the boundary cells (the polygon's outline), using the same line-tracing
    logic as traceLine applied to each consecutive vertex pair, implicitly
    closing the loop"; as for [fillPolygon], a polygon "whose snapped vertex
    count is insufficient to form a valid shape" (fewer than three vertices)
    "contributes no cells" (sections 4.3 and 7). *)
Definition tracePerimeter (rs cs : list Z) : result (list cell) :=
  let vs := combine rs cs in
  if length vs <? 3 then Ok []
  else Ok (flat_map (fun e => traceLine (fst (fst e)) (snd (fst e))
                                        (fst (snd e)) (snd (snd e)))
                    (edges vs)).

(** ** The [Gridder] object *)

Record Gridder : Type := {
  tx : array2 Q;
  ty : array2 Q;
  dx : bound;
  tpoints : list point;
  tree : KDTree
}.

(** *** Element types

    [np.array] makes an int64 array of integers and a float64 array of
    floats; the arithmetic of a float64 array is that of binary64. *)

Inductive array_like : Type :=
| IntArray (a : array2 Z)
| FloatArray (a : array2 float).

(** [v / 2.] on float64. *)
Definition float_half (v : float) : float := PrimFloat.div v 2.

(** The number that a finite float stands for; [inf] and [nan] stand for
    none. *)
Definition float_value (v : float) : option Q :=
  match FloatOps.Prim2SF v with
  | SpecFloat.S754_zero _ => Some 0%Q
  | SpecFloat.S754_finite s m e =>
      let q := match e with
               | Z0 => inject_Z (Z.pos m)
               | Zpos p => inject_Z (Z.pos m * 2 ^ Z.pos p)
               | Zneg p => (Z.pos m # 2 ^ p)%Q
               end in
      Some (Qred (if s then (- q)%Q else q))
  | SpecFloat.S754_infinity _ | SpecFloat.S754_nan => None
  end.

(** An integer converted to float64: rounded to nearest, ties to even. *)
Definition of_int (z : Z) : float :=
  FloatOps.SF2Prim
    (SpecFloat.binary_normalize FloatOps.prec FloatOps.emax z 0%Z false).

(** [np.array(a, copy=True, subok=True)] *)
Definition np_array_like (a : array_like) : result array_like :=
  match a with
  | IntArray z => rbind (np_array z) (fun z' => Ok (IntArray z'))
  | FloatArray v => rbind (np_array v) (fun v' => Ok (FloatArray v'))
  end.

(** [a.shape] *)
Definition shape_like (a : array_like) : nat * nat :=
  match a with
  | IntArray z => shape z
  | FloatArray v => shape v
  end.

(** The entries converted to float64, as [np.asarray] of mixed pairs and
    the tree do. *)
Definition as_float64 (a : array_like) : array2 float :=
  match a with
  | IntArray z => map (map of_int) z
  | FloatArray v => v
  end.

(** A float as a number, refused with [ValueError] when not finite. *)
Definition finite (v : float) : result Q :=
  match float_value v with
  | Some q => Ok q
  | None => Raise ValueError
  end.

Definition finite_values (a : array2 float) : result (array2 Q) :=
  rmapM (rmapM finite) a.

(** The entries of an array as numbers. *)
Definition exact_values (a : array_like) : result (array2 Q) :=
  match a with
  | IntArray z => Ok (map (map inject_Z) z)
  | FloatArray v => finite_values v
  end.

(** Lines 39-42 on an integer [tx].  Line 41 stores the new values,
    truncated, in the integer copy [x], which keeps the shape of [tx]; line
    42 reads [x[:, -1]], [tx[:, -1]] and [tx[:, -2]], and then the in-place
    [+=] of a float array into the integer [x] is refused with
    [UFuncTypeError], a [TypeError]. *)
Definition center_x_int (tx : array2 Z) : result array_like :=
  rbind (col_neg 1 tx) (fun xl =>
  rbind (col_neg 1 tx) (fun l1 =>
  rbind (col_neg 2 tx) (fun l2 => Raise TypeError))).

(** Lines 40, 43-44 on an integer [ty], likewise. *)
Definition center_y_int (ty : array2 Z) : result array_like :=
  rbind (row_neg 1 ty) (fun yl =>
  rbind (row_neg 1 ty) (fun l1 =>
  rbind (row_neg 2 ty) (fun l2 => Raise TypeError))).

Definition center_x_typed (tx : array_like) : result array_like :=
  match tx with
  | IntArray z => center_x_int z
  | FloatArray v =>
      rbind (center_x PrimFloat.add PrimFloat.sub float_half v)
            (fun x => Ok (FloatArray x))
  end.

Definition center_y_typed (ty : array_like) : result array_like :=
  match ty with
  | IntArray z => center_y_int z
  | FloatArray v =>
      rbind (center_y PrimFloat.add PrimFloat.sub float_half v)
            (fun y => Ok (FloatArray y))
  end.

(** Lines 36-46 of [__init__]: the grids that are stored. *)
Definition centered_grids (tx0 ty0 : array_like) (centered : bool)
  : result (array_like * array_like) :=
  rbind (np_array_like tx0) (fun tx1 =>
  rbind (np_array_like ty0) (fun ty1 =>
  if centered then Ok (tx1, ty1)
  else rbind (center_x_typed tx1) (fun x =>
       rbind (center_y_typed ty1) (fun y => Ok (x, y))))).

(** [ss.KDTree(data)] on float64 points: the data must be a non-empty
    (n, 2) array of finite numbers. *)
Definition KDTree_float64 (data : list (float * float)) : result KDTree :=
  rbind (rmapM (fun p => rbind (finite (fst p)) (fun a =>
                         rbind (finite (snd p)) (fun b => Ok (a, b)))) data)
        KDTree_new.

(** [self.tpoints] as numbers: an int64 array when both grids are, else the
    float64 array that the tree copies. *)
Definition tpoints_of (x y : array_like) (t : KDTree) : list point :=
  match x, y with
  | IntArray zx, IntArray zy =>
      combine (map inject_Z (ravel zx)) (map inject_Z (ravel zy))
  | _, _ => kd_data t
  end.

(** [Gridder.__init__(tx, ty, dx, centered)].  Line 52 zips the two grids
    and line 53 builds the tree; the fields are kept as the numbers they
    hold, which exist once the tree has accepted the points. *)
Definition __init__ (tx0 ty0 : array_like) (dx0 : bound) (centered : bool)
  : result Gridder :=
  rbind (centered_grids tx0 ty0 centered) (fun txy =>
  rbind (zip_strict (ravel (as_float64 (fst txy))) (ravel (as_float64 (snd txy))))
        (fun data =>
  rbind (KDTree_float64 data) (fun t =>
  rbind (exact_values (fst txy)) (fun xq =>
  rbind (exact_values (snd txy)) (fun yq =>
  Ok {| tx := xq; ty := yq; dx := dx0;
        tpoints := tpoints_of (fst txy) (snd txy) t; tree := t |}))))).

(** *** The constructor on exact numbers

    The steps of [__init__] on grids given by the rationals they hold, with
    the [+], [-] and [/ 2.] of the centering transform exact.  It describes
    the objects that the lookups work on: every [Gridder] that [__init__]
    builds from float64 arrays is the one that [Gridder_init] builds from
    the stored grids with [centered = True] (lemma
    [init_float_constructed]), and so is one built from integers that
    float64 holds exactly (lemma [init_constructed]); what holds for every
    object of [Gridder_init] holds for these.  What the constructor does
    with int64 and float64 arrays, rounding included, is stated on
    [__init__]. *)

Definition Qhalf (q : Q) : Q := (q / 2)%Q.

Definition Gridder_init (tx0 ty0 : array2 Q) (dx0 : bound) (centered : bool)
  : result Gridder :=
  rbind (np_array tx0) (fun tx1 =>
  rbind (np_array ty0) (fun ty1 =>
  rbind (if centered then Ok (tx1, ty1)
         else rbind (center_x Qplus Qminus Qhalf tx1) (fun x =>
              rbind (center_y Qplus Qminus Qhalf ty1) (fun y => Ok (x, y))))
        (fun txy =>
  rbind (zip_strict (ravel (fst txy)) (ravel (snd txy))) (fun tp =>
  rbind (KDTree_new tp) (fun t =>
  Ok {| tx := fst txy; ty := snd txy; dx := dx0; tpoints := tp; tree := t |}))))).

(** Methods read and could write the fields of [self]: a computation takes
    the object and returns a result or an exception together with the object
    as the call leaves it. *)
Definition M (A : Type) : Type := Gridder -> result A * Gridder.

Definition ret {A : Type} (a : A) : M A := fun self => (Ok a, self).

Definition raise {A : Type} (e : exn) : M A := fun self => (Raise e, self).

Definition bind {A B : Type} (m : M A) (k : A -> M B) : M B :=
  fun self =>
    match m self with
    | (Ok a, self') => k a self'
    | (Raise e, self') => (Raise e, self')
    end.

(** A pure library call. *)
Definition lift {A : Type} (r : result A) : M A := fun self => (r, self).

(** Reading [self.f]. *)
Definition attr {A : Type} (f : Gridder -> A) : M A := fun self => (Ok (f self), self).

(** [try: m except TypeError: h] *)
Definition try_except_TypeError {A : Type} (m h : M A) : M A :=
  fun self =>
    match m self with
    | (Raise TypeError, self') => h self'
    | r => r
    end.

Notation "x <- m ;; k" := (bind m (fun x => k))
  (at level 61, m at next level, right associativity).

(** A coordinate argument: a scalar or a sequence. *)
Inductive coords : Type := Scalar (v : Q) | Seq (l : list Q).

(** [np.asarray(list(zip(x, y, strict=True)))]: [zip] needs two iterables. *)
Definition zip_coords (x y : coords) : result (list point) :=
  match x, y with
  | Seq a, Seq b => zip_strict a b
  | _, _ => Raise TypeError
  end.

(** [np.asarray(list(zip([x], [y], strict=True)))]: a single pair, which is
    an array of points only when both entries are numbers. *)
Definition zip_singleton (x y : coords) : result (list point) :=
  match x, y with
  | Scalar a, Scalar b => Ok [(a, b)]
  | _, _ => Raise ValueError
  end.

(** [Gridder._kdtree_query(x, y)] *)
Definition _kdtree_query (x y : coords) : M (list nat * list nat) :=
  points <- try_except_TypeError (lift (zip_coords x y)) (lift (zip_singleton x y)) ;;
  t <- attr tree ;;
  upper <- attr dx ;;
  di <- lift (KDTree_query t points upper) ;;
  tp <- attr tpoints ;;
  let inds := snd di in
  let bad_inds := np_where (fun i => length tp <=? i) inds in
  let inds := np_delete inds bad_inds in
  a <- attr tx ;;
  lift (unravel_index inds (shape a)).

(** [Gridder.make_empty_grid(dtype)]; the element type is given by its zero. *)
Definition make_empty_grid {T : Type} (zero : T) : M (array2 T) :=
  a <- attr tx ;;
  ret (np_zeros zero (shape a)).

(** [Gridder.grid_points(xs, ys)] *)
Definition grid_points (xs ys : coords) : M (list (nat * nat)) :=
  xy <- _kdtree_query xs ys ;;
  lift (zip_strict (fst xy) (snd xy)).

(** [zip(a, b, c, d, strict=True)] *)
Fixpoint zip4_strict {A : Type} (a b c d : list A) : result (list (A * A * A * A)) :=
  match a, b, c, d with
  | [], [], [], [] => Ok []
  | x :: a', y :: b', z :: c', w :: d' =>
      rbind (zip4_strict a' b' c' d') (fun t => Ok ((x, y, z, w) :: t))
  | _, _, _, _ => Raise ValueError
  end.

Definition line4 (q : nat * nat * nat * nat) : list cell :=
  let '(sx, sy, ex, ey) := q in
  traceLine (Z.of_nat sx) (Z.of_nat sy) (Z.of_nat ex) (Z.of_nat ey).

(** [Gridder.grid_lines(sxs, sys, exs, eys)] *)
Definition grid_lines (sxs sys exs eys : coords) : M (list (list cell)) :=
  s <- _kdtree_query sxs sys ;;
  e <- _kdtree_query exs eys ;;
  q <- lift (zip4_strict (fst s) (snd s) (fst e) (snd e)) ;;
  ret (map line4 q).

(** The first loop of [grid_polygons]: one query per polygon. *)
Fixpoint query_polygons (xs ys : list coords) (xinds yinds : list (list nat))
  : M (list (list nat) * list (list nat)) :=
  match xs, ys with
  | [], [] => ret (xinds, yinds)
  | x :: xs', y :: ys' =>
      xy <- _kdtree_query x y ;;
      query_polygons xs' ys' (xinds ++ [fst xy]) (yinds ++ [snd xy])
  | _, _ => raise ValueError
  end.

(** The second loop: [try: polys.append(draw(_x, _y)) except ValueError: continue] *)
Fixpoint draw_polygons (draw : list Z -> list Z -> result (list cell))
    (l : list (list nat * list nat)) (polys : list (list cell))
  : result (list (list cell)) :=
  match l with
  | [] => Ok polys
  | xy :: l' =>
      match draw (map Z.of_nat (fst xy)) (map Z.of_nat (snd xy)) with
      | Ok p => draw_polygons draw l' (polys ++ [p])
      | Raise ValueError => draw_polygons draw l' polys
      | Raise e => Raise e
      end
  end.

(** [Gridder.grid_polygons(xs, ys, fill)], with the two drawing routines it
    calls, [skdraw.polygon] and [skdraw.polygon_perimeter], as parameters. *)
Definition grid_polygons_with
    (draw_fill draw_perimeter : list Z -> list Z -> result (list cell))
    (xs ys : list coords) (fill : bool) : M (list (list cell)) :=
  inds <- query_polygons xs ys [] [] ;;
  l <- lift (zip_strict (fst inds) (snd inds)) ;;
  if fill then lift (draw_polygons draw_fill l [])
  else lift (draw_polygons draw_perimeter l []).

(** [Gridder.grid_polygons(xs, ys, fill)] *)
Definition grid_polygons (xs ys : list coords) (fill : bool) : M (list (list cell)) :=
  grid_polygons_with fillPolygon tracePerimeter xs ys fill.

(** ** Hit counting, as the tests do it ([tests/test_grid_mapping.py])

    [test_points] allocates a grid with [make_empty_grid], maps the points
    with [grid_points] and runs [for point in points: grid[point] += 1]. *)

(** A 64-bit signed integer after an operation (the default [dtype='int']). *)
Definition wrap64 (z : Z) : Z :=
  ((z + 2 ^ 63) mod 2 ^ 64 - 2 ^ 63)%Z.

(** [l[i] = v] for an index known to be in range. *)
Fixpoint set_nth {A : Type} (i : nat) (v : A) (l : list A) : list A :=
  match l, i with
  | [], _ => []
  | _ :: t, O => v :: t
  | x :: t, S i' => x :: set_nth i' v t
  end.

(** [grid[point] += d] for a (row, col) pair of non-negative indices:
    [IndexError] outside the array. *)
Definition iadd_item (grid : array2 Z) (rc : nat * nat) (d : Z) : result (array2 Z) :=
  match nth_error grid (fst rc) with
  | None => Raise IndexError
  | Some row =>
      match nth_error row (snd rc) with
      | None => Raise IndexError
      | Some v => Ok (set_nth (fst rc) (set_nth (snd rc) (wrap64 (v + d)) row) grid)
      end
  end.

(** [for point in points: grid[point] += 1] *)
Fixpoint accumulate_points (grid : array2 Z) (points : list (nat * nat))
  : result (array2 Z) :=
  match points with
  | [] => Ok grid
  | p :: t => rbind (iadd_item grid p 1%Z) (fun grid' => accumulate_points grid' t)
  end.

(** The body of [test_points] between the projection of the input and the
    comparison with the reference file. *)
Definition test_points_grid (start_x start_y : coords) : M (array2 Z) :=
  grid <- make_empty_grid 0%Z ;;
  points <- grid_points start_x start_y ;;
  lift (accumulate_points grid points).

(** ** Vocabulary of the statements *)

(** No row of the array is longer than another. *)
Definition rectangular_like (a : array_like) : bool :=
  match a with
  | IntArray z => rectangular z
  | FloatArray v => rectangular v
  end.

(** [a.size], the number of entries. *)
Definition size_like (a : array_like) : nat :=
  match a with
  | IntArray z => length (ravel z)
  | FloatArray v => length (ravel v)
  end.

(** Some indexed point lies closer than [dx] to [q]. *)
Definition near (dx : bound) (data : list point) (q : point) : bool :=
  existsb (fun p => within dx (sqdist p q)) data.

(** Two points with the same coordinates. *)
Definition same_point (p q : point) : Prop :=
  (fst p == fst q)%Q /\ (snd p == snd q)%Q.

(** The points that [_kdtree_query] hands to the tree: the zipped sequences,
    or the single pair when [zip] refuses its arguments. *)
Definition as_points (x y : coords) : result (list point) :=
  match zip_coords x y with
  | Raise TypeError => zip_singleton x y
  | r => r
  end.

(** [g] is an object of the constructor: one that [Gridder_init] builds,
    as are those that [__init__] builds from float64 arrays. *)
Definition constructed (g : Gridder) : Prop :=
  exists tx0 ty0 dx0 centered, Gridder_init tx0 ty0 dx0 centered = Ok g.

(** [k] is the flat index of an indexed point that is nearest to [q] and
    closer to it than [dx]. *)
Definition snaps_to (g : Gridder) (q : point) (k : nat) : Prop :=
  exists pk, nth_error (tpoints g) k = Some pk /\
             (forall p, In p (tpoints g) -> (sqdist pk q <= sqdist p q)%Q) /\
             within (dx g) (sqdist pk q) = true.

(** The cell of a flat index in row-major order. *)
Definition cell_of (g : Gridder) (k : nat) : nat * nat :=
  (k / snd (shape (tx g)), k mod snd (shape (tx g))).

(** The cells that a batch of query points snaps to: the points with an
    indexed point closer than [dx], in order, each as the cell of the index
    the tree reports. *)
Definition snap (g : Gridder) (points : list point) : list (nat * nat) :=
  map (cell_of g)
      (map (fun q => snd (query1 (tree g) (dx g) q))
           (filter (near (dx g) (tpoints g)) points)).

(** [skdraw.line] between two snapped cells. *)
Definition line_between (s e : nat * nat) : list cell :=
  traceLine (Z.of_nat (fst s)) (Z.of_nat (snd s)) (Z.of_nat (fst e)) (Z.of_nat (snd e)).

(** The vertices of a polygon after snapping, as cells. *)
Definition snapped_vertices (g : Gridder) (xl yl : list Q) : list cell :=
  map (fun rc => (Z.of_nat (fst rc), Z.of_nat (snd rc))) (snap g (combine xl yl)).

(** What one polygon adds to the result of [grid_polygons]: the cell list
    that [draw] returns for its snapped vertices, or nothing when [draw]
    raises. *)
Definition drawn (draw : list Z -> list Z -> result (list cell)) (g : Gridder)
    (xy : list Q * list Q) : list (list cell) :=
  match draw (map Z.of_nat (map fst (snap g (combine (fst xy) (snd xy)))))
             (map Z.of_nat (map snd (snap g (combine (fst xy) (snd xy))))) with
  | Ok p => [p]
  | Raise _ => []
  end.

(** A polygon given by two coordinate sequences of one length, not empty. *)
Definition well_formed_polygon (xl yl : list Q) : Prop :=
  length xl = length yl /\ xl <> [].

(** ** Example data

    The 4 x 4 corner grid of spacing 10 ([tx[i,j] = 10 j], [ty[i,j] = 10 i])
    with [dx = 5]. *)

Definition scenario_tx : array2 Q := repeat [0; 10; 20; 30]%Q 4.
Definition scenario_ty : array2 Q := map (fun v => repeat v 4) [0; 10; 20; 30]%Q.

Definition empty_gridder : Gridder :=
  {| tx := []; ty := []; dx := Infinity; tpoints := []; tree := {| kd_data := [] |} |}.

Definition from_ok (r : result Gridder) : Gridder :=
  match r with
  | Ok g => g
  | Raise _ => empty_gridder
  end.

(** [Gridder(tx, ty, dx=5)] and [Gridder(tx, ty, dx=5, centered=True)] *)
Definition scenario_gridder : Gridder :=
  Eval vm_compute in from_ok (Gridder_init scenario_tx scenario_ty (Finite 5) false).
Definition scenario_centered : Gridder :=
  Eval vm_compute in from_ok (Gridder_init scenario_tx scenario_ty (Finite 5) true).

(** A 2 x 2 grid whose four cells all sit at the origin. *)
Definition flat_tx : array2 Q := [[0; 0]; [0; 0]]%Q.
Definition flat_gridder : Gridder :=
  Eval vm_compute in from_ok (Gridder_init flat_tx flat_tx Infinity true).

(** Corners 2^53, 2^53 + 2, 2^53 + 4 in every row: a uniform spacing of 2,
    all of it exact in binary64. *)
Definition wide_corners : array2 float :=
  repeat [9007199254740992; 9007199254740994; 9007199254740996]%float 2.

(** A [ty] for these corners: rows at 0 and 2. *)
Definition wide_rows : array2 float := [[0; 0; 0]; [2; 2; 2]]%float.

(** A [ty] of as many entries in another shape, (3, 2). *)
Definition tall_rows : array2 float := [[0; 0]; [1; 1]; [2; 2]]%float.

(** The floats written [0.1] and [0.2]; the second is twice the first. *)
Definition tenth : float := 0x1.999999999999ap-4%float.
Definition fifth : float := 0x1.999999999999ap-3%float.

(** [tx = [[0.1, 0.2], [0.1, 0.2]]] and [ty = [[0.1, 0.1], [0.2, 0.2]]] *)
Definition tenth_tx : array2 float := [[tenth; fifth]; [tenth; fifth]].
Definition tenth_ty : array2 float := [[tenth; tenth]; [fifth; fifth]].

(** [Gridder(tx, ty)] on the 4 x 4 grid: the default threshold. *)
Definition default_gridder : Gridder :=
  Eval vm_compute in from_ok (Gridder_init scenario_tx scenario_ty Infinity false).

(** A drawing routine that refuses polygons of fewer than three vertices. *)
Definition strict_perimeter (rs cs : list Z) : result (list cell) :=
  if length rs <? 3 then Raise ValueError else tracePerimeter rs cs.

(** * Properties *)

(** ** Results, [zip] and list helpers *)

Lemma rbind_ok {A B : Type} (r : result A) (k : A -> result B) (b : B) :
  rbind r k = Ok b -> exists a, r = Ok a /\ k a = Ok b.
Proof.
  destruct r as [a|e]; simpl; intros H; [exists a; auto | discriminate].
Qed.

Lemma rmapM_ok {A B : Type} (f : A -> result B) (l : list A) (r : list B) :
  rmapM f l = Ok r -> Forall2 (fun a b => f a = Ok b) l r.
Proof.
  revert r; induction l as [|a l IH]; simpl; intros r H.
  - injection H as <-. constructor.
  - apply rbind_ok in H as (b & Hb & H).
    apply rbind_ok in H as (bs & Hbs & H).
    injection H as <-. constructor; auto.
Qed.

Lemma rmapM_total {A B : Type} (f : A -> result B) (g : A -> B) (l : list A) :
  Forall (fun a => f a = Ok (g a)) l -> rmapM f l = Ok (map g l).
Proof.
  induction 1 as [|a l Ha _ IH]; simpl; [reflexivity|].
  rewrite Ha; simpl. rewrite IH; reflexivity.
Qed.

Lemma Forall2_nth_error {A B : Type} (P : A -> B -> Prop) (l : list A) (r : list B) :
  Forall2 P l r ->
  forall i a, nth_error l i = Some a -> exists b, nth_error r i = Some b /\ P a b.
Proof.
  induction 1 as [|x y l r Hxy _ IH]; intros [|i] a Hi; simpl in *; try discriminate.
  - injection Hi as <-. eauto.
  - eauto.
Qed.

Lemma Forall2_length_eq {A B : Type} (P : A -> B -> Prop) (l : list A) (r : list B) :
  Forall2 P l r -> length l = length r.
Proof. induction 1; simpl; congruence. Qed.

Lemma zip_strict_ok {A B : Type} (a : list A) (b : list B) (l : list (A * B)) :
  zip_strict a b = Ok l -> length a = length b /\ l = combine a b.
Proof.
  revert b l; induction a as [|x a IH]; intros [|y b] l H; simpl in *;
    try discriminate.
  - injection H as <-. auto.
  - apply rbind_ok in H as (t & Ht & H). injection H as <-.
    apply IH in Ht as [-> ->]. auto.
Qed.

Lemma zip_strict_same_length {A B : Type} (a : list A) (b : list B) :
  length a = length b -> zip_strict a b = Ok (combine a b).
Proof.
  revert b; induction a as [|x a IH]; intros [|y b] H; simpl in *;
    try discriminate; [reflexivity|].
  rewrite IH by congruence. reflexivity.
Qed.

Lemma zip_strict_mismatch {A B : Type} (a : list A) (b : list B) :
  length a <> length b -> zip_strict a b = Raise ValueError.
Proof.
  revert b; induction a as [|x a IH]; intros [|y b] H; simpl in *;
    try reflexivity; try congruence.
  rewrite IH by congruence. reflexivity.
Qed.

Lemma nth_error_map2 {A B C : Type} (f : A -> B -> C) (a : list A) (b : list B) (i : nat) :
  nth_error (map2 f a b) i =
  match nth_error a i, nth_error b i with
  | Some x, Some y => Some (f x y)
  | _, _ => None
  end.
Proof.
  revert b i; induction a as [|x a IH]; intros [|y b] [|i]; simpl; auto.
  destruct (nth_error a i); reflexivity.
Qed.

Lemma nth_error_combine_some {A B : Type} (a : list A) (b : list B) (i : nat) x y :
  nth_error a i = Some x -> nth_error b i = Some y ->
  nth_error (combine a b) i = Some (x, y).
Proof.
  revert b i; induction a as [|u a IH]; intros [|v b] [|i]; simpl;
    try discriminate; auto.
  congruence.
Qed.

Lemma length_map2 {A B C : Type} (f : A -> B -> C) (a : list A) (b : list B) :
  length (map2 f a b) = Nat.min (length a) (length b).
Proof.
  revert b; induction a as [|x a IH]; intros [|y b]; simpl; auto.
Qed.

Lemma nth_error_removelast {A : Type} (l : list A) (i : nat) :
  S i < length l -> nth_error (removelast l) i = nth_error l i.
Proof.
  revert i; induction l as [|x l IH]; intros i H; simpl in *; [lia|].
  destruct l as [|y l]; [simpl in H; lia|].
  destruct i as [|i]; [reflexivity|].
  simpl. apply IH. simpl in *. lia.
Qed.

Lemma length_removelast {A : Type} (l : list A) :
  length (removelast l) = length l - 1.
Proof.
  induction l as [|x l IH]; [reflexivity|].
  destruct l as [|y l]; [reflexivity|].
  change (S (length (removelast (y :: l))) = length (x :: y :: l) - 1).
  rewrite IH. simpl. lia.
Qed.

Lemma nth_error_tl {A : Type} (l : list A) (i : nat) :
  nth_error (tl l) i = nth_error l (S i).
Proof. destruct l; simpl; [destruct i|]; reflexivity. Qed.

Lemma length_tl {A : Type} (l : list A) : length (tl l) = length l - 1.
Proof. destruct l; simpl; lia. Qed.

Lemma item_neg_ok {A : Type} (k : nat) (l : list A) (v : A) :
  item_neg k l = Ok v ->
  1 <= k /\ k <= length l /\ nth_error l (length l - k) = Some v.
Proof.
  unfold item_neg.
  destruct (1 <=? k) eqn:H1; destruct (k <=? length l) eqn:H2; simpl;
    try discriminate.
  apply Nat.leb_le in H1, H2.
  destruct (nth_error l (length l - k)) eqn:E; [|discriminate].
  intros H; injection H as <-. auto.
Qed.

Lemma set_item_neg_ok {A : Type} (k : nat) (v : A) (l r : list A) :
  set_item_neg k v l = Ok r ->
  1 <= k /\ k <= length l /\ length r = length l /\
  nth_error r (length l - k) = Some v /\
  forall i, i <> length l - k -> nth_error r i = nth_error l i.
Proof.
  unfold set_item_neg.
  destruct (1 <=? k) eqn:H1; destruct (k <=? length l) eqn:H2; cbn [andb];
    try discriminate.
  apply Nat.leb_le in H1, H2. intros H.
  assert (E : r = firstn (length l - k) l ++ v :: skipn (S (length l - k)) l)
    by congruence.
  clear H. subst r.
  set (n := length l - k).
  assert (Hn : n < length l) by (unfold n; lia).
  assert (Hf : length (firstn n l) = n) by (rewrite length_firstn; lia).
  repeat split; auto.
  - rewrite length_app, Hf. cbn [length]. rewrite length_skipn. lia.
  - rewrite nth_error_app2 by lia. rewrite Hf, Nat.sub_diag. reflexivity.
  - intros i Hi. destruct (Nat.lt_ge_cases i n) as [Hlt|Hge].
    + rewrite nth_error_app1 by lia. rewrite nth_error_firstn.
      apply Nat.ltb_lt in Hlt. rewrite Hlt. reflexivity.
    + rewrite nth_error_app2 by lia. rewrite Hf.
      destruct (i - n) as [|m] eqn:Em; [lia|]. cbn [nth_error].
      rewrite nth_error_skipn. f_equal. lia.
Qed.

Lemma col_neg_ok {F : Type} (k : nat) (a : array2 F) (v : list F) :
  col_neg k a = Ok v -> k <= snd (shape a) /\ rmapM (item_neg k) a = Ok v.
Proof.
  unfold col_neg. destruct (Nat.leb_spec k (snd (shape a))); [auto|discriminate].
Qed.

(** ** The centering transform

    Both [center_x] (inside each row) and [center_y] (on the list of rows)
    do the same thing to a list: every entry but the last moves half-way to
    its successor, and the last entry moves on by half the last gap. *)

Section CenterList.
Variable G : Type.
Variable gadd gsub : G -> G -> G.
Variable ghalf : G -> G.

Lemma center_list_nth (l : list G) (xl l1 l2 : G) (res : list G) :
  let e := map2 gadd (removelast l) (map ghalf (map2 gsub (tl l) (removelast l))) in
  item_neg 1 (e ++ skipn (length e) l) = Ok xl ->
  item_neg 1 l = Ok l1 ->
  item_neg 2 l = Ok l2 ->
  set_item_neg 1 (gadd xl (ghalf (gsub l1 l2))) (e ++ skipn (length e) l) = Ok res ->
  2 <= length l /\ length res = length l /\
  (forall j a b, nth_error l j = Some a -> nth_error l (S j) = Some b ->
                 nth_error res j = Some (gadd a (ghalf (gsub b a)))) /\
  (forall a b, nth_error l (length l - 1) = Some a ->
               nth_error l (length l - 2) = Some b ->
               nth_error res (length l - 1) = Some (gadd a (ghalf (gsub a b)))).
Proof.
  intros e Hxl Hl1 Hl2 Hset.
  apply item_neg_ok in Hl1 as (_ & _ & Hl1).
  apply item_neg_ok in Hl2 as (_ & Hlen & Hl2).
  assert (He : length e = length l - 1).
  { unfold e. rewrite length_map2, length_map, length_map2,
      length_removelast, length_tl. lia. }
  assert (HX : length (e ++ skipn (length e) l) = length l).
  { rewrite length_app, length_skipn, He. lia. }
  apply item_neg_ok in Hxl as (_ & _ & Hxl).
  rewrite HX in Hxl. rewrite nth_error_app2 in Hxl by lia.
  rewrite He, Nat.sub_diag, nth_error_skipn, Nat.add_0_r in Hxl.
  apply set_item_neg_ok in Hset as (_ & _ & Hlr & Hlast & Hother).
  rewrite HX in Hlr, Hlast, Hother.
  repeat split; auto.
  - intros j a b Ha Hb.
    assert (Hj : S j < length l) by (apply nth_error_Some; congruence).
    rewrite Hother by lia. rewrite nth_error_app1 by lia.
    unfold e. rewrite nth_error_map2, nth_error_map, nth_error_map2.
    rewrite nth_error_removelast, nth_error_tl, Ha, Hb by lia.
    reflexivity.
  - intros a b Ha Hb. rewrite Hlast. congruence.
Qed.
End CenterList.

Section CenterGrid.
Variable F : Type.
Variable fadd fsub : F -> F -> F.
Variable fhalf : F -> F.

(** What [center_x] does to every row. *)
Lemma center_x_rows (tx0 x : array2 F) :
  center_x fadd fsub fhalf tx0 = Ok x ->
  length x = length tx0 /\
  forall i row, nth_error tx0 i = Some row ->
    exists row', nth_error x i = Some row' /\
      2 <= length row /\ length row' = length row /\
      (forall j a b, nth_error row j = Some a -> nth_error row (S j) = Some b ->
                     nth_error row' j = Some (fadd a (fhalf (fsub b a)))) /\
      (forall a b, nth_error row (length row - 1) = Some a ->
                   nth_error row (length row - 2) = Some b ->
                   nth_error row' (length row - 1) = Some (fadd a (fhalf (fsub a b)))).
Proof.
  unfold center_x. intros H.
  apply rbind_ok in H as (xl & Hxl & H).
  apply rbind_ok in H as (l1 & Hl1 & H).
  apply rbind_ok in H as (l2 & Hl2 & H).
  unfold set_col_neg in H. apply rbind_ok in H as (z & Hz & H).
  apply zip_strict_ok in Hz as [Hlen ->].
  apply col_neg_ok in Hxl as [_ Hxl].
  apply col_neg_ok in Hl1 as [_ Hl1].
  apply col_neg_ok in Hl2 as [_ Hl2].
  apply rmapM_ok in Hxl, Hl1, Hl2, H.
  set (X := set_cols_but_last tx0 _) in *.
  assert (HXn : forall i row, nth_error tx0 i = Some row ->
            nth_error X i =
            Some (let e := map2 fadd (removelast row)
                             (map fhalf (map2 fsub (tl row) (removelast row))) in
                  e ++ skipn (length e) row)).
  { intros i row Hi. unfold X, set_cols_but_last, add2, half2, sub2,
      cols_but_last, cols_from_1, add1, sub1, half1.
    repeat first [rewrite nth_error_map2 | rewrite nth_error_map | rewrite Hi].
    reflexivity. }
  assert (HXlen : length X = length tx0).
  { unfold X, set_cols_but_last, add2, half2, sub2, cols_but_last, cols_from_1.
    rewrite !length_map2, !length_map, !length_map2, !length_map. lia. }
  split.
  { apply Forall2_length_eq in H, Hxl.
    rewrite length_combine in H. lia. }
  intros i row Hi.
  pose proof (HXn i row Hi) as HX. cbv zeta in HX.
  destruct (Forall2_nth_error Hxl i HX) as (a1 & Ha1 & Hq1).
  destruct (Forall2_nth_error Hl1 i Hi) as (a2 & Ha2 & Hq2).
  destruct (Forall2_nth_error Hl2 i Hi) as (a3 & Ha3 & Hq3).
  match type of HX with _ = Some ?r => set (Xi := r) in * end.
  assert (Hc : nth_error (combine X (add1 fadd xl (half1 fhalf (sub1 fsub l1 l2)))) i
               = Some (Xi, fadd a1 (fhalf (fsub a2 a3)))).
  { apply nth_error_combine_some; [exact HX|].
    unfold add1, half1, sub1.
    rewrite nth_error_map2, Ha1, nth_error_map, nth_error_map2, Ha2, Ha3.
    reflexivity. }
  destruct (Forall2_nth_error H i Hc) as (row' & Hrow' & Hq). simpl in Hq.
  exists row'. split; [exact Hrow'|].
  exact (center_list_nth fadd fsub fhalf row Hq1 Hq2 Hq3 Hq).
Qed.

(** What [center_y] does to the list of rows. *)
Lemma center_y_rows (ty0 y : array2 F) :
  center_y fadd fsub fhalf ty0 = Ok y ->
  2 <= length ty0 /\ length y = length ty0 /\
  (forall i a b, nth_error ty0 i = Some a -> nth_error ty0 (S i) = Some b ->
     nth_error y i = Some (add1 fadd a (half1 fhalf (sub1 fsub b a)))) /\
  (forall a b, nth_error ty0 (length ty0 - 1) = Some a ->
     nth_error ty0 (length ty0 - 2) = Some b ->
     nth_error y (length ty0 - 1) = Some (add1 fadd a (half1 fhalf (sub1 fsub a b)))).
Proof.
  unfold center_y, row_neg, set_row_neg, set_rows_but_last, add2, half2, sub2,
    rows_but_last, rows_from_1.
  intros H.
  apply rbind_ok in H as (yl & Hyl & H).
  apply rbind_ok in H as (l1 & Hl1 & H).
  apply rbind_ok in H as (l2 & Hl2 & H).
  exact (center_list_nth (add1 fadd) (sub1 fsub) (half1 fhalf) ty0 Hyl Hl1 Hl2 H).
Qed.
End CenterGrid.

(** ** The constructor *)

Lemma rectangular_Forall {F : Type} (a : array2 F) :
  rectangular a = true -> Forall (fun r => length r = snd (shape a)) a.
Proof.
  unfold rectangular. intros R. rewrite forallb_forall in R.
  apply Forall_forall. intros r Hr. apply Nat.eqb_eq, R, Hr.
Qed.

Lemma rectangular_row {F : Type} (a : array2 F) (i : nat) (row : list F) :
  rectangular a = true -> nth_error a i = Some row -> length row = snd (shape a).
Proof.
  unfold rectangular. intros H Hi.
  rewrite forallb_forall in H.
  apply Nat.eqb_eq, H. eapply nth_error_In; eauto.
Qed.

Lemma np_array_ok {F : Type} (a b : array2 F) :
  np_array a = Ok b -> b = a /\ rectangular a = true.
Proof.
  unfold np_array. destruct (rectangular a); [|discriminate].
  intros H; injection H as <-. auto.
Qed.

Lemma KDTree_new_ok (data : list point) (t : KDTree) :
  KDTree_new data = Ok t -> kd_data t = data /\ data <> [].
Proof.
  destruct data; simpl; [discriminate|].
  intros H; injection H as <-. split; [reflexivity|discriminate].
Qed.

(** What a successfully constructed [Gridder] holds. *)
Lemma Gridder_init_ok (tx0 ty0 : array2 Q) (dx0 : bound) (centered : bool) (g : Gridder) :
  Gridder_init tx0 ty0 dx0 centered = Ok g ->
  rectangular tx0 = true /\ rectangular ty0 = true /\
  (if centered then tx g = tx0 /\ ty g = ty0
   else center_x Qplus Qminus Qhalf tx0 = Ok (tx g) /\
        center_y Qplus Qminus Qhalf ty0 = Ok (ty g)) /\
  length (ravel (tx g)) = length (ravel (ty g)) /\
  tpoints g = combine (ravel (tx g)) (ravel (ty g)) /\
  tpoints g <> [] /\
  kd_data (tree g) = tpoints g /\
  dx g = dx0.
Proof.
  unfold Gridder_init. intros H.
  apply rbind_ok in H as (tx1 & H1 & H). apply np_array_ok in H1 as [-> Rx].
  apply rbind_ok in H as (ty1 & H1 & H). apply np_array_ok in H1 as [-> Ry].
  apply rbind_ok in H as ([x y] & Hxy & H).
  apply rbind_ok in H as (tp & Htp & H).
  apply rbind_ok in H as (t & Ht & H).
  injection H as <-. simpl in *.
  apply zip_strict_ok in Htp as [Hlen ->].
  apply KDTree_new_ok in Ht as [Hd Hne].
  repeat split; auto.
  destruct centered.
  - injection Hxy as <- <-. auto.
  - apply rbind_ok in Hxy as (x' & Hx & Hxy).
    apply rbind_ok in Hxy as (y' & Hy & Hxy).
    injection Hxy as <- <-. auto.
Qed.

Lemma get2_some {F : Type} (a : array2 F) (i j : nat) (v : F) :
  get2 a i j = Some v <-> exists row, nth_error a i = Some row /\ nth_error row j = Some v.
Proof.
  unfold get2. destruct (nth_error a i) as [row|]; split.
  - intros H; exists row; auto.
  - intros (row' & E & H). injection E as <-. exact H.
  - discriminate.
  - intros (row' & E & _). discriminate.
Qed.

(** ** Index arithmetic of [_kdtree_query] *)

Lemma in_combine_seq {A : Type} (l : list A) (s i : nat) (x : A) :
  In (i, x) (combine (seq s (length l)) l) -> s <= i /\ nth_error l (i - s) = Some x.
Proof.
  revert s; induction l as [|y l IH]; simpl; intros s H; [contradiction|].
  destruct H as [H|H].
  - injection H as <- <-. rewrite Nat.sub_diag. auto.
  - apply IH in H as [Hs H]. split; [lia|].
    replace (i - s) with (S (i - S s)) by lia. exact H.
Qed.

Lemma nth_error_in_combine_seq {A : Type} (l : list A) (s k : nat) (x : A) :
  nth_error l k = Some x -> In (s + k, x) (combine (seq s (length l)) l).
Proof.
  revert s k; induction l as [|y l IH]; intros s [|k] Hx; simpl in *;
    try discriminate.
  - injection Hx as <-. left. f_equal. lia.
  - right. replace (s + S k) with (S s + k) by lia. apply IH. exact Hx.
Qed.

Lemma filter_snd_combine_seq {A : Type} (f : A -> bool) (l : list A) (s : nat) :
  map snd (filter (fun ix => f (snd ix)) (combine (seq s (length l)) l)) = filter f l.
Proof.
  revert s; induction l as [|y l IH]; simpl; intros s; [reflexivity|].
  destruct (f y); simpl; rewrite IH; reflexivity.
Qed.

(** Deleting the positions where [p] holds keeps the entries where it fails,
    in order. *)
Lemma np_delete_where {A : Type} (p : A -> bool) (l : list A) :
  np_delete l (np_where p l) = filter (fun x => negb (p x)) l.
Proof.
  unfold np_delete, np_where.
  rewrite <- (filter_snd_combine_seq (fun x => negb (p x)) l 0).
  f_equal. apply filter_ext_in. intros [i x] Hin. simpl. f_equal.
  apply in_combine_seq in Hin as [_ Hx].
  destruct (p x) eqn:Hp.
  - apply existsb_exists. exists i. split; [|apply Nat.eqb_refl].
    apply in_map_iff. exists (i, x). split; [reflexivity|].
    apply filter_In. split; [|exact Hp].
    rewrite Nat.sub_0_r in Hx.
    exact (nth_error_in_combine_seq l 0 i Hx).
  - apply not_true_is_false. intros He.
    apply existsb_exists in He as (j & Hj & Hij).
    apply Nat.eqb_eq in Hij. subst j.
    apply in_map_iff in Hj as ([i' y] & Hi' & Hj). simpl in Hi'. subst i'.
    apply filter_In in Hj as [Hj Hpy]. simpl in Hpy.
    apply in_combine_seq in Hj as [_ Hy]. congruence.
Qed.

(** ** The nearest-neighbour search *)

Lemma Qlt_bool_iff (x y : Q) : Qlt_bool x y = true <-> (x < y)%Q.
Proof.
  unfold Qlt_bool. rewrite negb_true_iff.
  destruct (Qle_bool y x) eqn:E.
  - apply Qle_bool_iff in E. split; [discriminate|]. intros H. lra.
  - split; [|reflexivity]. intros _.
    destruct (Qlt_le_dec x y) as [H|H]; [exact H|].
    apply Qle_bool_iff in H. congruence.
Qed.

Lemma within_mono (dx0 : bound) (d d' : Q) :
  (d' <= d)%Q -> within dx0 d = true -> within dx0 d' = true.
Proof.
  destruct dx0 as [b|]; simpl; [|auto].
  intros Hle H. apply andb_true_iff in H as [Hb H].
  rewrite Hb. simpl. apply Qlt_bool_iff. apply Qlt_bool_iff in H. lra.
Qed.

Lemma sqdist_nonneg (p q : point) : (0 <= sqdist p q)%Q.
Proof.
  unfold sqdist.
  generalize (fst p - fst q)%Q (snd p - snd q)%Q. intros a b. nra.
Qed.

Lemma sqdist_zero (p q : point) : (sqdist p q == 0)%Q <-> same_point p q.
Proof.
  unfold sqdist, same_point.
  set (a := (fst p - fst q)%Q). set (b := (snd p - snd q)%Q). split.
  - intros H.
    assert (Ha : (0 <= a * a)%Q) by (clearbody a; nra).
    assert (Hb : (0 <= b * b)%Q) by (clearbody b; nra).
    assert (Ha0 : (a * a == 0)%Q) by lra.
    assert (Hb0 : (b * b == 0)%Q) by lra.
    apply Qmult_integral in Ha0, Hb0. unfold a, b in *.
    split; [destruct Ha0|destruct Hb0]; lra.
  - intros [H1 H2].
    assert (Ha : (a == 0)%Q) by (unfold a; lra).
    assert (Hb : (b == 0)%Q) by (unfold b; lra).
    rewrite Ha, Hb. ring.
Qed.

Lemma nearest_from_spec (q : point) (l pre : list point) (best : nat) (pb : point) :
  nth_error pre best = Some pb ->
  (forall p, In p pre -> (sqdist pb q <= sqdist p q)%Q) ->
  exists k pk,
    nearest_from q best (sqdist pb q) (length pre) l = (k, sqdist pk q) /\
    nth_error (pre ++ l) k = Some pk /\
    forall p, In p (pre ++ l) -> (sqdist pk q <= sqdist p q)%Q.
Proof.
  revert pre best pb; induction l as [|p l IH]; intros pre best pb Hb Hmin; simpl.
  - exists best, pb. rewrite app_nil_r. auto.
  - assert (Hlen : length (pre ++ [p]) = S (length pre))
      by (rewrite length_app; simpl; lia).
    destruct (Qlt_bool (sqdist p q) (sqdist pb q)) eqn:E.
    + apply Qlt_bool_iff in E.
      destruct (IH (pre ++ [p]) (length pre) p) as (k & pk & Hk & Hn & Hm).
      * rewrite nth_error_app2, Nat.sub_diag by lia. reflexivity.
      * intros p' Hp'. apply in_app_iff in Hp' as [Hp'|[<-|[]]].
        -- specialize (Hmin p' Hp'). lra.
        -- lra.
      * rewrite Hlen in Hk. rewrite <- app_assoc in Hn, Hm.
        exists k, pk. auto.
    + assert (Hge : (sqdist pb q <= sqdist p q)%Q).
      { destruct (Qlt_le_dec (sqdist p q) (sqdist pb q)) as [H|H]; [|exact H].
        apply Qlt_bool_iff in H. congruence. }
      destruct (IH (pre ++ [p]) best pb) as (k & pk & Hk & Hn & Hm).
      * rewrite nth_error_app1; [exact Hb|]. apply nth_error_Some. congruence.
      * intros p' Hp'. apply in_app_iff in Hp' as [Hp'|[<-|[]]]; auto.
      * rewrite Hlen in Hk. rewrite <- app_assoc in Hn, Hm.
        exists k, pk. auto.
Qed.

Lemma nearest_spec (data : list point) (q : point) :
  data <> [] ->
  exists k pk,
    nearest data q = Some (k, sqdist pk q) /\
    nth_error data k = Some pk /\
    forall p, In p data -> (sqdist pk q <= sqdist p q)%Q.
Proof.
  destruct data as [|p0 l]; [congruence|]. intros _. simpl.
  destruct (@nearest_from_spec q l [p0] 0 p0) as (k & pk & Hk & Hn & Hm).
  - reflexivity.
  - intros p [<-|[]]. lra.
  - exists k, pk. simpl in Hk. rewrite Hk. auto.
Qed.

(** A query point with an indexed point closer than [dx]: the row of the
    result names a nearest indexed point, which is closer than [dx]. *)
Lemma query1_hit (t : KDTree) (dx0 : bound) (q : point) :
  near dx0 (kd_data t) q = true ->
  exists k pk,
    query1 t dx0 q = (Some (sqdist pk q), k) /\
    nth_error (kd_data t) k = Some pk /\
    (forall p, In p (kd_data t) -> (sqdist pk q <= sqdist p q)%Q) /\
    within dx0 (sqdist pk q) = true.
Proof.
  intros Hnear. unfold query1.
  destruct (kd_data t) as [|p0 l] eqn:Ed; [discriminate|].
  destruct (@nearest_spec (p0 :: l) q) as (k & pk & Hk & Hn & Hm); [discriminate|].
  rewrite Hk.
  apply existsb_exists in Hnear as (p & Hp & Hw).
  rewrite (within_mono dx0 (Hm p Hp) Hw).
  exists k, pk. repeat split; auto.
  exact (within_mono dx0 (Hm p Hp) Hw).
Qed.

(** No indexed point closer than [dx]: the row reports a missing neighbour,
    index [n]. *)
Lemma query1_miss (t : KDTree) (dx0 : bound) (q : point) :
  near dx0 (kd_data t) q = false ->
  query1 t dx0 q = (None, length (kd_data t)).
Proof.
  intros Hnear. unfold query1.
  destruct (kd_data t) as [|p0 l] eqn:Ed; [reflexivity|].
  destruct (@nearest_spec (p0 :: l) q) as (k & pk & Hk & Hn & Hm); [discriminate|].
  rewrite Hk.
  destruct (within dx0 (sqdist pk q)) eqn:Hw; [|reflexivity].
  assert (near dx0 (p0 :: l) q = true); [|congruence].
  apply existsb_exists. exists pk. split; [|exact Hw].
  eapply nth_error_In; eauto.
Qed.

(** ** Running [_kdtree_query] *)

Unset Implicit Arguments.

Lemma length_ravel_rows {F : Type} (a : array2 F) (c : nat) :
  Forall (fun r => length r = c) a -> length (ravel a) = length a * c.
Proof.
  unfold ravel. induction 1 as [|r a Hr _ IH]; simpl; [reflexivity|].
  rewrite length_app, IH, Hr. reflexivity.
Qed.

Lemma length_ravel_rect {F : Type} (a : array2 F) :
  rectangular a = true -> length (ravel a) = fst (shape a) * snd (shape a).
Proof.
  intros R. apply length_ravel_rows. apply Forall_forall. intros r Hr.
  unfold rectangular in R. rewrite forallb_forall in R.
  apply Nat.eqb_eq, R, Hr.
Qed.

Lemma center_x_rect {F : Type} (fadd fsub : F -> F -> F) (fhalf : F -> F)
    (tx0 x : array2 F) :
  center_x fadd fsub fhalf tx0 = Ok x -> rectangular tx0 = true ->
  rectangular x = true /\ shape x = shape tx0.
Proof.
  intros H R. apply center_x_rows in H as [Hlen H].
  assert (Hs : shape x = shape tx0).
  { unfold shape. rewrite Hlen. f_equal.
    destruct tx0 as [|r0 tx0]; destruct x as [|r0' x]; try discriminate;
      [reflexivity|].
    destruct (H 0 r0 eq_refl) as (row' & E & _ & Hl & _).
    injection E as <-. exact Hl. }
  split; [|exact Hs].
  unfold rectangular. apply forallb_forall. intros row' Hin.
  apply In_nth_error in Hin as [i Hi].
  assert (Hlt : i < length tx0).
  { rewrite <- Hlen. apply nth_error_Some. congruence. }
  destruct (nth_error tx0 i) as [row|] eqn:Er;
    [|apply nth_error_None in Er; lia].
  destruct (H i row Er) as (row'' & E & _ & Hl & _).
  assert (row'' = row') by congruence. subst row''.
  apply Nat.eqb_eq. rewrite Hs, Hl. exact (rectangular_row tx0 i R Er).
Qed.

(** The invariant of a constructed [Gridder]: the tree indexes [tpoints],
    one point per cell of [tx], and there is at least one. *)
Lemma constructed_wf (g : Gridder) :
  constructed g ->
  kd_data (tree g) = tpoints g /\
  tpoints g <> [] /\
  length (tpoints g) = fst (shape (tx g)) * snd (shape (tx g)).
Proof.
  intros (tx0 & ty0 & dx0 & c & H).
  apply Gridder_init_ok in H as (Rx & _ & Hc & Hlen & Htp & Hne & Hkd & _).
  repeat split; auto.
  rewrite Htp. unfold point. rewrite length_combine, <- Hlen, Nat.min_id.
  apply length_ravel_rect.
  destruct c.
  - destruct Hc as [-> _]. exact Rx.
  - destruct Hc as [Hx _]. eapply center_x_rect; eauto.
Qed.

(** [_kdtree_query] as one expression; the object comes back as it went in. *)
Lemma kdtree_query_run (x y : coords) (g : Gridder) :
  _kdtree_query x y g =
  (rbind (as_points x y) (fun points =>
   rbind (KDTree_query (tree g) points (dx g)) (fun di =>
   unravel_index
     (filter (fun i => negb (length (tpoints g) <=? i)) (snd di))
     (shape (tx g)))), g).
Proof.
  unfold _kdtree_query, bind, try_except_TypeError, lift, attr, as_points.
  destruct (zip_coords x y) as [pts|[| |]]; simpl;
    try reflexivity.
  - destruct (KDTree_query (tree g) pts (dx g)) as [di|e]; simpl; [|reflexivity].
    rewrite np_delete_where. reflexivity.
  - destruct (zip_singleton x y) as [pts|e]; simpl; [|reflexivity].
    destruct (KDTree_query (tree g) pts (dx g)) as [di|e]; simpl; [|reflexivity].
    rewrite np_delete_where. reflexivity.
Qed.

Lemma filter_map_swap {A B : Type} (f : A -> B) (p : B -> bool) (l : list A) :
  filter p (map f l) = map f (filter (fun a => p (f a)) l).
Proof.
  induction l as [|a l IH]; simpl; [reflexivity|].
  destruct (p (f a)); simpl; rewrite IH; reflexivity.
Qed.

(** The indices that survive the filter are those of the query points with
    an indexed point closer than [dx], each snapped to a nearest one. *)
Lemma surviving_indices (g : Gridder) (points : list point) :
  kd_data (tree g) = tpoints g ->
  let f := fun q => snd (query1 (tree g) (dx g) q) in
  filter (fun i => negb (length (tpoints g) <=? i)) (map f points)
  = map f (filter (near (dx g) (tpoints g)) points) /\
  Forall (fun q => snaps_to g q (f q)) (filter (near (dx g) (tpoints g)) points).
Proof.
  intros Hkd f. split.
  - rewrite filter_map_swap. f_equal. apply filter_ext. intros q.
    unfold f. destruct (near (dx g) (tpoints g) q) eqn:Hn; rewrite <- Hkd in Hn.
    + destruct (query1_hit (tree g) (dx g) q Hn) as (k & pk & -> & Hk & _).
      simpl. rewrite Hkd in Hk.
      assert (k < length (tpoints g)) by (apply nth_error_Some; congruence).
      apply negb_true_iff, Nat.leb_gt. assumption.
    + rewrite (query1_miss (tree g) (dx g) q Hn). simpl.
      rewrite Hkd. apply negb_false_iff, Nat.leb_refl.
  - apply Forall_forall. intros q Hq. apply filter_In in Hq as [_ Hn].
    rewrite <- Hkd in Hn.
    destruct (query1_hit (tree g) (dx g) q Hn) as (k & pk & E & Hk & Hm & Hw).
    unfold f. rewrite E. simpl. exists pk. rewrite <- Hkd. auto.
Qed.

Lemma unravel_index_ok (g : Gridder) (ks : list nat) :
  Forall (fun k => k < fst (shape (tx g)) * snd (shape (tx g))) ks ->
  unravel_index ks (shape (tx g))
  = Ok (map fst (map (cell_of g) ks), map snd (map (cell_of g) ks)).
Proof.
  intros H. unfold unravel_index.
  rewrite (@rmapM_total _ _ (unravel1 (shape (tx g))) (cell_of g)); [reflexivity|].
  eapply Forall_impl; [|exact H]. intros k Hk. unfold unravel1.
  apply Nat.ltb_lt in Hk. rewrite Hk. reflexivity.
Qed.

Lemma combine_fst_snd {A B : Type} (l : list (A * B)) :
  combine (map fst l) (map snd l) = l.
Proof.
  induction l as [|[a b] l IH]; simpl; [reflexivity|]. rewrite IH. reflexivity.
Qed.

(** Row-major order: entry [k] of the flattened array is the entry of cell
    [(k / cols, k mod cols)]. *)
Lemma nth_error_ravel_cell {F : Type} (a : array2 F) (c k : nat) (v : F) :
  Forall (fun r => length r = c) a ->
  nth_error (ravel a) k = Some v ->
  get2 a (k / c) (k mod c) = Some v.
Proof.
  intros Ha H.
  assert (Hc : c <> 0).
  { intros ->. pose proof (length_ravel_rows a 0 Ha) as Hl.
    rewrite Nat.mul_0_r in Hl.
    assert (k < length (ravel a)) by (apply nth_error_Some; congruence). lia. }
  revert k H. unfold ravel, get2.
  induction Ha as [|r a Hr _ IH]; intros k H; simpl in H.
  - destruct k; discriminate.
  - destruct (Nat.lt_ge_cases k c) as [Hlt|Hge].
    + rewrite nth_error_app1 in H by lia.
      rewrite Nat.div_small, Nat.mod_small by exact Hlt. exact H.
    + rewrite nth_error_app2 in H by lia. rewrite Hr in H.
      specialize (IH (k - c) H).
      replace k with ((k - c) + 1 * c) by lia.
      rewrite Nat.div_add, Nat.Div0.mod_add by exact Hc.
      rewrite Nat.add_1_r. exact IH.
Qed.

Lemma nth_error_combine_inv {A B : Type} (a : list A) (b : list B) (i : nat) (p : A * B) :
  nth_error (combine a b) i = Some p ->
  nth_error a i = Some (fst p) /\ nth_error b i = Some (snd p).
Proof.
  revert b i; induction a as [|x a IH]; intros [|y b] [|i] H; simpl in *;
    try discriminate.
  - injection H as <-. auto.
  - apply IH. exact H.
Qed.

Lemma center_y_rect {F : Type} (fadd fsub : F -> F -> F) (fhalf : F -> F)
    (ty0 y : array2 F) :
  center_y fadd fsub fhalf ty0 = Ok y -> rectangular ty0 = true ->
  length y = length ty0 /\
  Forall (fun r => length r = snd (shape ty0)) y.
Proof.
  intros H R. apply center_y_rows in H as (H2 & Hlen & Hj & Hl).
  split; [exact Hlen|].
  apply Forall_forall. intros row' Hin.
  apply In_nth_error in Hin as [i Hi].
  assert (Hlt : i < length ty0).
  { rewrite <- Hlen. apply nth_error_Some. congruence. }
  assert (Hrow : forall k, k < length ty0 ->
            exists r, nth_error ty0 k = Some r /\ length r = snd (shape ty0)).
  { intros k Hk. destruct (nth_error ty0 k) as [r|] eqn:E.
    - exists r. split; [reflexivity|]. exact (rectangular_row ty0 k R E).
    - apply nth_error_None in E. lia. }
  destruct (Hrow i Hlt) as (a & Ha & Hla).
  destruct (Nat.lt_ge_cases (S i) (length ty0)) as [Hs|Hs].
  - destruct (Hrow (S i) Hs) as (b & Hb & Hlb).
    rewrite (Hj i a b Ha Hb) in Hi. injection Hi as <-.
    unfold add1, half1, sub1. rewrite length_map2, length_map, length_map2. lia.
  - assert (Ei : i = length ty0 - 1) by lia. subst i.
    destruct (Hrow (length ty0 - 2)) as (b & Hb & Hlb); [lia|].
    rewrite (Hl a b Ha Hb) in Hi. injection Hi as <-.
    unfold add1, half1, sub1. rewrite length_map2, length_map, length_map2. lia.
Qed.

Lemma constructed_rect (g : Gridder) :
  constructed g -> rectangular (tx g) = true /\ rectangular (ty g) = true.
Proof.
  intros (tx0 & ty0 & dx0 & c & H).
  apply Gridder_init_ok in H as (Rx & Ry & Hc & _).
  destruct c.
  - destruct Hc as [-> ->]. auto.
  - destruct Hc as [Hx Hy]. split.
    + eapply center_x_rect; eauto.
    + destruct (center_y_rect _ _ _ _ _ Hy Ry) as [_ Hrows].
      rewrite Forall_forall in Hrows.
      unfold rectangular. apply forallb_forall. intros r Hr.
      apply Nat.eqb_eq. rewrite (Hrows r Hr).
      destruct (ty g) as [|r0 l]; [contradiction|].
      simpl. symmetry. apply Hrows. left. reflexivity.
Qed.

(** The indexed point of flat index [k] is the point of cell [cell_of g k]. *)
Lemma tpoints_cell (g : Gridder) (k : nat) (pk : point) :
  constructed g -> nth_error (tpoints g) k = Some pk ->
  get2 (tx g) (fst (cell_of g k)) (snd (cell_of g k)) = Some (fst pk) /\
  (shape (ty g) = shape (tx g) ->
   get2 (ty g) (fst (cell_of g k)) (snd (cell_of g k)) = Some (snd pk)).
Proof.
  intros Hc Hk. destruct (constructed_rect g Hc) as [Rx Ry].
  destruct Hc as (tx0 & ty0 & dx0 & c & H).
  apply Gridder_init_ok in H as (_ & _ & _ & _ & Htp & _).
  rewrite Htp in Hk. apply nth_error_combine_inv in Hk as [Hx Hy].
  unfold cell_of. cbn [fst snd]. split.
  - exact (nth_error_ravel_cell (tx g) _ k (fst pk) (rectangular_Forall (tx g) Rx) Hx).
  - intros Hs. rewrite <- Hs.
    exact (nth_error_ravel_cell (ty g) _ k (snd pk) (rectangular_Forall (ty g) Ry) Hy).
Qed.

(** [_kdtree_query] on a batch that yields the points [points]. *)
Lemma kdtree_query_value (g : Gridder) (x y : coords) (points : list point) :
  constructed g -> as_points x y = Ok points -> points <> [] ->
  exists ks,
    Forall2 (snaps_to g) (filter (near (dx g) (tpoints g)) points) ks /\
    _kdtree_query x y g =
    (Ok (map fst (map (cell_of g) ks), map snd (map (cell_of g) ks)), g).
Proof.
  intros Hc Hp Hne.
  destruct (constructed_wf g Hc) as (Hkd & _ & Hlen).
  exists (map (fun q => snd (query1 (tree g) (dx g) q))
              (filter (near (dx g) (tpoints g)) points)).
  destruct (surviving_indices g points Hkd) as [Hf Hs]. split.
  - clear Hf. induction Hs; simpl; constructor; auto.
  - rewrite kdtree_query_run, Hp. simpl.
    destruct points as [|q0 points]; [congruence|].
    unfold KDTree_query. cbn [rbind snd]. rewrite Hf.
    rewrite unravel_index_ok; [reflexivity|].
    apply Forall_forall. intros k Hk. apply in_map_iff in Hk as (q & <- & Hq).
    rewrite Forall_forall in Hs. destruct (Hs q Hq) as (pk & Hk & _).
    rewrite <- Hlen. apply nth_error_Some. congruence.
Qed.

Lemma grid_points_value (g : Gridder) (x y : coords) (points : list point) :
  constructed g -> as_points x y = Ok points -> points <> [] ->
  exists ks,
    Forall2 (snaps_to g) (filter (near (dx g) (tpoints g)) points) ks /\
    _kdtree_query x y g =
    (Ok (map fst (map (cell_of g) ks), map snd (map (cell_of g) ks)), g) /\
    grid_points x y g = (Ok (map (cell_of g) ks), g).
Proof.
  intros Hc Hp Hne.
  destruct (kdtree_query_value g x y points Hc Hp Hne) as (ks & Hs & Hq).
  exists ks. repeat split; auto.
  unfold grid_points, bind. rewrite Hq. unfold lift. cbn [fst snd].
  rewrite zip_strict_same_length by (rewrite !length_map; reflexivity).
  rewrite combine_fst_snd. reflexivity.
Qed.

Lemma as_points_seq (xs ys : list Q) :
  length xs = length ys -> as_points (Seq xs) (Seq ys) = Ok (combine xs ys).
Proof.
  intros H. unfold as_points, zip_coords.
  rewrite zip_strict_same_length by exact H. reflexivity.
Qed.

Lemma constructed_default : constructed default_gridder.
Proof. exists scenario_tx, scenario_ty, Infinity, false. reflexivity. Qed.

Lemma constructed_scenario : constructed scenario_gridder.
Proof. exists scenario_tx, scenario_ty, (Finite 5), false. reflexivity. Qed.

(** The scenarios of the specification on the 4 x 4 corner grid: the derived
    centres are at 5, 15, 25, 35; (6, 6) maps to cell (0, 0); (100, 100) is
    dropped; a point on a derived centre yields that one cell. *)
Example scenario_centres :
  map (map Qred) (tx scenario_gridder) = repeat [5; 15; 25; 35]%Q 4.
Proof. reflexivity. Qed.

Example scenario_point_near :
  fst (grid_points (Scalar 6) (Scalar 6) scenario_gridder) = Ok [(0, 0)].
Proof. reflexivity. Qed.

Example scenario_point_far :
  fst (grid_points (Scalar 100) (Scalar 100) scenario_gridder) = Ok [].
Proof. reflexivity. Qed.

Example scenario_point_on_centre :
  fst (grid_points (Scalar 25) (Scalar 15) scenario_gridder) = Ok [(1, 2)].
Proof. reflexivity. Qed.

(** ** The constructor on int64 and float64 arrays *)

Lemma item_neg_total {A : Type} (k : nat) (l : list A) :
  1 <= k -> k <= length l -> exists v, item_neg k l = Ok v.
Proof.
  intros H1 H2. unfold item_neg.
  apply Nat.leb_le in H1 as E1. apply Nat.leb_le in H2 as E2.
  rewrite E1, E2. cbn [andb].
  destruct (nth_error l (length l - k)) as [v|] eqn:E; [eauto|].
  apply nth_error_None in E. lia.
Qed.

Lemma set_item_neg_total {A : Type} (k : nat) (v : A) (l : list A) :
  1 <= k -> k <= length l -> exists r, set_item_neg k v l = Ok r.
Proof.
  intros H1 H2. unfold set_item_neg.
  apply Nat.leb_le in H1 as E1. apply Nat.leb_le in H2 as E2.
  rewrite E1, E2. cbn [andb]. eauto.
Qed.

Lemma item_neg_error {A : Type} (k : nat) (l : list A) (e : exn) :
  item_neg k l = Raise e -> e = IndexError.
Proof.
  unfold item_neg. destruct ((1 <=? k) && (k <=? length l));
    [destruct (nth_error l (length l - k))|]; congruence.
Qed.

Lemma set_item_neg_error {A : Type} (k : nat) (v : A) (l : list A) (e : exn) :
  set_item_neg k v l = Raise e -> e = IndexError.
Proof.
  unfold set_item_neg. destruct ((1 <=? k) && (k <=? length l)); congruence.
Qed.

Lemma rmapM_exists {A B : Type} (f : A -> result B) (l : list A) :
  Forall (fun a => exists b, f a = Ok b) l -> exists r, rmapM f l = Ok r.
Proof.
  induction 1 as [|a l [b Hb] _ [r IH]]; simpl; [eauto|].
  rewrite Hb, IH. simpl. eauto.
Qed.

Lemma rmapM_error {A B : Type} (f : A -> result B) (l : list A) (e e0 : exn) :
  (forall a e', f a = Raise e' -> e' = e0) -> rmapM f l = Raise e -> e = e0.
Proof.
  intros Hf. induction l as [|a l IH]; simpl; [discriminate|].
  destruct (f a) as [b|e'] eqn:E; simpl.
  - destruct (rmapM f l) as [r|e'']; simpl; [discriminate|].
    intros H. injection H as <-. apply IH. reflexivity.
  - intros H. injection H as <-. exact (Hf a e' E).
Qed.

Lemma set_cols_as_map {F : Type} (fadd fsub : F -> F -> F) (fhalf : F -> F)
    (tx0 : array2 F) :
  set_cols_but_last tx0
    (add2 fadd (cols_but_last tx0)
       (half2 fhalf (sub2 fsub (cols_from_1 tx0) (cols_but_last tx0))))
  = map (fun row =>
           map2 fadd (removelast row)
             (map fhalf (map2 fsub (tl row) (removelast row)))
           ++ skipn (length (map2 fadd (removelast row)
                               (map fhalf (map2 fsub (tl row) (removelast row)))))
                    row) tx0.
Proof.
  unfold set_cols_but_last, add2, half2, sub2, cols_but_last, cols_from_1,
    add1, sub1, half1.
  induction tx0 as [|row tx0 IH]; simpl; [reflexivity|].
  rewrite IH. reflexivity.
Qed.

Lemma length_shifted_row {F : Type} (fadd fsub : F -> F -> F) (fhalf : F -> F)
    (row : list F) :
  length (map2 fadd (removelast row)
            (map fhalf (map2 fsub (tl row) (removelast row)))
          ++ skipn (length (map2 fadd (removelast row)
                              (map fhalf (map2 fsub (tl row) (removelast row)))))
                   row)
  = length row.
Proof.
  rewrite length_app, length_skipn, length_map2, length_map, length_map2,
    length_removelast, length_tl, !Nat.min_id. lia.
Qed.

(** [center_x] goes through when every row has two entries or more. *)
Lemma center_x_total {F : Type} (fadd fsub : F -> F -> F) (fhalf : F -> F)
    (tx0 : array2 F) :
  tx0 <> [] -> Forall (fun r => 2 <= length r) tx0 ->
  exists x, center_x fadd fsub fhalf tx0 = Ok x.
Proof.
  intros Hne H2. unfold center_x. rewrite set_cols_as_map.
  set (X := map _ tx0).
  assert (HX : Forall (fun r => 2 <= length r) X).
  { unfold X. apply Forall_forall. intros r Hr.
    apply in_map_iff in Hr as (row & <- & Hrow).
    rewrite length_shifted_row. rewrite Forall_forall in H2. auto. }
  assert (Hneg : forall k (a : array2 F), 1 <= k <= 2 -> a <> [] ->
            Forall (fun r => 2 <= length r) a ->
            exists v, col_neg k a = Ok v /\ length v = length a).
  { intros k a Hk Hna Ha. destruct (rmapM_exists (item_neg k) a) as [v Hv].
    - eapply Forall_impl; [|exact Ha]. intros r Hr. cbv beta in Hr.
      apply item_neg_total; lia.
    - exists v. unfold col_neg.
      assert (Hg : (k <=? snd (shape a)) = true).
      { apply Nat.leb_le. destruct a as [|r0 a]; [congruence|].
        inversion Ha; subst. simpl. lia. }
      rewrite Hg. split; [exact Hv|].
      symmetry. exact (Forall2_length_eq (rmapM_ok _ _ Hv)). }
  assert (HXne : X <> []).
  { unfold X. destruct tx0; [congruence|discriminate]. }
  destruct (Hneg 1 X) as (xl & -> & Lx); [lia|exact HXne|exact HX|].
  destruct (Hneg 1 tx0) as (l1 & -> & L1); [lia|exact Hne|exact H2|].
  destruct (Hneg 2 tx0) as (l2 & -> & L2); [lia|exact Hne|exact H2|].
  cbn [rbind]. unfold set_col_neg.
  assert (LX : length X = length tx0) by (unfold X; apply length_map).
  rewrite zip_strict_same_length.
  2:{ unfold add1, half1, sub1.
      rewrite length_map2, length_map, length_map2. lia. }
  cbn [rbind]. apply rmapM_exists. apply Forall_forall. intros [r v] Hin.
  cbn [fst snd]. apply set_item_neg_total; [lia|].
  apply in_combine_l in Hin. rewrite Forall_forall in HX.
  specialize (HX r Hin). lia.
Qed.

(** [center_y] goes through when there are two rows or more. *)
Lemma center_y_total {F : Type} (fadd fsub : F -> F -> F) (fhalf : F -> F)
    (ty0 : array2 F) :
  2 <= length ty0 -> exists y, center_y fadd fsub fhalf ty0 = Ok y.
Proof.
  intros H2. unfold center_y, row_neg, set_row_neg, set_rows_but_last.
  set (Y := _ ++ skipn _ ty0).
  assert (LY : length Y = length ty0).
  { unfold Y, add2, half2, sub2, rows_but_last, rows_from_1.
    exact (length_shifted_row (add1 fadd) (sub1 fsub) (half1 fhalf) ty0). }
  destruct (item_neg_total 1 Y) as [yl ->]; [lia|lia|].
  destruct (item_neg_total 1 ty0) as [l1 ->]; [lia|lia|].
  destruct (item_neg_total 2 ty0) as [l2 ->]; [lia|lia|].
  cbn [rbind]. apply set_item_neg_total; lia.
Qed.

Lemma center_y_shape {F : Type} (fadd fsub : F -> F -> F) (fhalf : F -> F)
    (ty0 y : array2 F) :
  center_y fadd fsub fhalf ty0 = Ok y -> rectangular ty0 = true ->
  shape y = shape ty0.
Proof.
  intros H R. destruct (center_y_rect _ _ _ _ _ H R) as [Hlen Hrows].
  destruct (center_y_rows _ _ _ _ H) as (H2 & _).
  unfold shape at 1. rewrite Hlen. unfold shape. f_equal.
  destruct y as [|r0 y]; [simpl in Hlen; lia|].
  inversion Hrows; subst. simpl. assumption.
Qed.

(** The shape of [self.tx] is the shape of the [tx] given. *)
Lemma init_keeps_shape (tx0 ty0 : array2 Q) (dx0 : bound) (centered : bool)
    (g : Gridder) :
  Gridder_init tx0 ty0 dx0 centered = Ok g ->
  shape (tx g) = shape tx0 /\ shape (ty g) = shape ty0.
Proof.
  intros H. apply Gridder_init_ok in H as (Rx & Ry & Hc & _).
  destruct centered.
  - destruct Hc as [-> ->]. auto.
  - destruct Hc as [Hx Hy]. split.
    + eapply center_x_rect; eauto.
    + eapply center_y_shape; eauto.
Qed.

Lemma center_x_error {F : Type} (fadd fsub : F -> F -> F) (fhalf : F -> F)
    (tx0 : array2 F) (e : exn) :
  center_x fadd fsub fhalf tx0 = Raise e -> e = IndexError.
Proof.
  unfold center_x. rewrite set_cols_as_map. set (X := map _ tx0).
  assert (LX : length X = length tx0) by (unfold X; apply length_map).
  assert (Hneg : forall k (a : array2 F) e', col_neg k a = Raise e' -> e' = IndexError).
  { intros k a e' H. unfold col_neg in H.
    destruct (k <=? snd (shape a)); [|congruence].
    apply (rmapM_error (item_neg k) a); [|exact H].
    intros r e''. apply item_neg_error. }
  destruct (col_neg 1 X) as [xl|e1] eqn:E1; cbn [rbind];
    [|intros H; injection H as <-; eauto].
  destruct (col_neg 1 tx0) as [l1|e2] eqn:E2; cbn [rbind];
    [|intros H; injection H as <-; eauto].
  destruct (col_neg 2 tx0) as [l2|e3] eqn:E3; cbn [rbind];
    [|intros H; injection H as <-; eauto].
  apply col_neg_ok in E1 as [_ E1]. apply col_neg_ok in E2 as [_ E2].
  apply col_neg_ok in E3 as [_ E3].
  apply rmapM_ok, Forall2_length_eq in E1, E2, E3.
  unfold set_col_neg. rewrite zip_strict_same_length.
  2:{ unfold add1, half1, sub1.
      rewrite length_map2, length_map, length_map2. lia. }
  cbn [rbind]. apply rmapM_error. intros [r v] e'. apply set_item_neg_error.
Qed.

Lemma center_y_error {F : Type} (fadd fsub : F -> F -> F) (fhalf : F -> F)
    (ty0 : array2 F) (e : exn) :
  center_y fadd fsub fhalf ty0 = Raise e -> e = IndexError.
Proof.
  unfold center_y, row_neg, set_row_neg.
  destruct (item_neg 1 _) as [yl|e1] eqn:E1; cbn [rbind];
    [|intros H; injection H as <-; exact (item_neg_error _ _ _ E1)].
  destruct (item_neg 1 ty0) as [l1|e2] eqn:E2; cbn [rbind];
    [|intros H; injection H as <-; exact (item_neg_error _ _ _ E2)].
  destruct (item_neg 2 ty0) as [l2|e3] eqn:E3; cbn [rbind];
    [|intros H; injection H as <-; exact (item_neg_error _ _ _ E3)].
  apply set_item_neg_error.
Qed.

(** *** Traversals *)

Lemma rmapM_app {A B : Type} (f : A -> result B) (l1 l2 : list A) :
  rmapM f (l1 ++ l2) =
  rbind (rmapM f l1) (fun r1 => rbind (rmapM f l2) (fun r2 => Ok (r1 ++ r2))).
Proof.
  induction l1 as [|a l1 IH]; simpl.
  - destruct (rmapM f l2); reflexivity.
  - destruct (f a) as [b|e]; simpl; [|reflexivity].
    rewrite IH. destruct (rmapM f l1) as [r1|e]; simpl; [|reflexivity].
    destruct (rmapM f l2); reflexivity.
Qed.

Lemma rmapM_ravel {A B : Type} (f : A -> result B) (a : array2 A) :
  rmapM f (ravel a) = rbind (rmapM (rmapM f) a) (fun q => Ok (ravel q)).
Proof.
  unfold ravel. induction a as [|r a IH]; simpl; [reflexivity|].
  rewrite rmapM_app, IH.
  destruct (rmapM f r) as [qr|e]; simpl; [|reflexivity].
  destruct (rmapM (rmapM f) a) as [q|e]; reflexivity.
Qed.

Lemma rmapM_length {A B : Type} (f : A -> result B) (l : list A) (r : list B) :
  rmapM f l = Ok r -> length r = length l.
Proof. intros H. symmetry. exact (@Forall2_length_eq _ _ _ _ _ (@rmapM_ok _ _ f l r H)). Qed.

Lemma rmapM_pairs_ok {A B C D : Type} (f : A -> result C) (h : B -> result D)
    (la : list A) (lb : list B) (q : list (C * D)) :
  length la = length lb ->
  rmapM (fun p => rbind (f (fst p)) (fun a => rbind (h (snd p)) (fun b => Ok (a, b))))
        (combine la lb) = Ok q ->
  exists qa qb, rmapM f la = Ok qa /\ rmapM h lb = Ok qb /\ q = combine qa qb.
Proof.
  revert lb q; induction la as [|a la IH]; intros [|b lb] q Hlen H; simpl in *;
    try discriminate.
  - injection H as <-. exists [], []. auto.
  - destruct (f a) as [c|e]; simpl in H; [|discriminate].
    destruct (h b) as [d|e]; simpl in H; [|discriminate].
    apply rbind_ok in H as (q' & Hq & H). injection H as <-.
    destruct (IH lb q') as (qa & qb & -> & -> & ->); [congruence|exact Hq|].
    exists (c :: qa), (d :: qb). auto.
Qed.

Lemma rmapM_pairs_total {A B C D : Type} (f : A -> result C) (h : B -> result D)
    (la : list A) (lb : list B) (qa : list C) (qb : list D) :
  rmapM f la = Ok qa -> rmapM h lb = Ok qb -> length la = length lb ->
  rmapM (fun p => rbind (f (fst p)) (fun a => rbind (h (snd p)) (fun b => Ok (a, b))))
        (combine la lb) = Ok (combine qa qb).
Proof.
  revert lb qa qb; induction la as [|a la IH]; intros [|b lb] qa qb Ha Hb Hlen;
    simpl in *; try discriminate.
  - injection Ha as <-. reflexivity.
  - apply rbind_ok in Ha as (c & Hc & Ha). apply rbind_ok in Ha as (qa' & Hqa & Ha).
    apply rbind_ok in Hb as (d & Hd & Hb). apply rbind_ok in Hb as (qb' & Hqb & Hb).
    injection Ha as <-. injection Hb as <-.
    rewrite Hc, Hd. simpl. rewrite (IH lb qa' qb' Hqa Hqb) by congruence.
    reflexivity.
Qed.

Lemma ravel_map {A B : Type} (f : A -> B) (a : array2 A) :
  ravel (map (map f) a) = map f (ravel a).
Proof. unfold ravel. symmetry. apply concat_map. Qed.

(** *** Arrays with rows of the same lengths *)

Lemma same_lengths_shape {A B : Type} (a : array2 A) (q : array2 B) :
  Forall2 (fun r r' => length r = length r') a q ->
  shape q = shape a /\ rectangular q = rectangular a.
Proof.
  intros H.
  assert (Hs : shape q = shape a).
  { unfold shape. rewrite (@Forall2_length_eq _ _ _ _ _ H).
    destruct H; simpl; congruence. }
  split; [exact Hs|]. unfold rectangular. rewrite Hs.
  generalize (snd (shape a)). intros c. clear Hs.
  induction H as [|r r' a q Hr _ IH]; simpl; [reflexivity|].
  rewrite Hr, IH. reflexivity.
Qed.

Lemma map_map_lengths {A B : Type} (f : A -> B) (a : array2 A) :
  Forall2 (fun r r' => length r = length r') a (map (map f) a).
Proof.
  induction a as [|r a IH]; simpl; constructor; [|exact IH].
  symmetry. apply length_map.
Qed.

Lemma rmapM2_lengths {A B : Type} (f : A -> result B) (a : array2 A) (q : array2 B) :
  rmapM (rmapM f) a = Ok q -> Forall2 (fun r r' => length r = length r') a q.
Proof.
  intros H. apply rmapM_ok in H.
  induction H as [|r r' a q Hr _ IH]; constructor; [|exact IH].
  symmetry. exact (rmapM_length f r r' Hr).
Qed.

Lemma rmapM2_get2 {A B : Type} (f : A -> result B) (a : array2 A) (q : array2 B)
    (i j : nat) (v : A) :
  rmapM (rmapM f) a = Ok q -> get2 a i j = Some v ->
  exists w, f v = Ok w /\ get2 q i j = Some w.
Proof.
  intros H Hv. apply get2_some in Hv as (row & Hi & Hj).
  destruct (@Forall2_nth_error _ _ _ _ _ (@rmapM_ok _ _ _ _ _ H) i row Hi) as (row' & Hi' & Hrow).
  destruct (@Forall2_nth_error _ _ _ _ _ (@rmapM_ok _ _ _ _ _ Hrow) j v Hj) as (w & Hj' & Hw).
  exists w. split; [exact Hw|]. apply get2_some. exists row'. auto.
Qed.

(** *** Values *)

Lemma finite_error (v : float) (e : exn) : finite v = Raise e -> e = ValueError.
Proof. unfold finite. destruct (float_value v); congruence. Qed.

Lemma finite_values_error (a : array2 float) (e : exn) :
  finite_values a = Raise e -> e = ValueError.
Proof.
  apply rmapM_error. intros r e'. apply rmapM_error. exact finite_error.
Qed.

Lemma finite_values_shape (a : array2 float) (q : array2 Q) :
  finite_values a = Ok q -> shape q = shape a /\ rectangular q = rectangular a.
Proof. intros H. exact (same_lengths_shape a q (rmapM2_lengths finite a q H)). Qed.

Lemma finite_values_get2 (a : array2 float) (q : array2 Q) (i j : nat) (v : float) :
  finite_values a = Ok q -> get2 a i j = Some v ->
  exists w, float_value v = Some w /\ get2 q i j = Some w.
Proof.
  intros H Hv. destruct (rmapM2_get2 finite a q i j v H Hv) as (w & Hw & Hq).
  exists w. split; [|exact Hq].
  unfold finite in Hw. destruct (float_value v); congruence.
Qed.

Lemma size_as_float64 (a : array_like) :
  length (ravel (as_float64 a)) = size_like a.
Proof.
  destruct a as [z|v]; simpl; [|reflexivity].
  rewrite ravel_map. apply length_map.
Qed.

Lemma as_float64_shape (a : array_like) :
  shape (as_float64 a) = shape_like a /\
  rectangular (as_float64 a) = rectangular_like a.
Proof.
  destruct a as [z|v]; simpl; [|auto].
  exact (same_lengths_shape z _ (map_map_lengths of_int z)).
Qed.

Lemma exact_values_shape (a : array_like) (q : array2 Q) :
  exact_values a = Ok q ->
  shape q = shape_like a /\ rectangular q = rectangular_like a.
Proof.
  destruct a as [z|v]; simpl; intros H.
  - injection H as <-. exact (same_lengths_shape z _ (map_map_lengths inject_Z z)).
  - exact (finite_values_shape v q H).
Qed.

Lemma finite_values_size (a : array2 float) (k : array2 Q) :
  finite_values a = Ok k -> length (ravel k) = length (ravel a).
Proof.
  intros H. pose proof (rmapM_ravel finite a) as E.
  unfold finite_values in H. rewrite H in E. simpl in E.
  exact (rmapM_length _ _ _ E).
Qed.

Lemma exact_values_size (a : array_like) (q : array2 Q) :
  exact_values a = Ok q -> length (ravel q) = size_like a.
Proof.
  destruct a as [z|v]; simpl; intros H.
  - injection H as <-. rewrite ravel_map. apply length_map.
  - exact (finite_values_size v q H).
Qed.

Lemma exact_values_error (a : array_like) (e : exn) :
  exact_values a = Raise e -> e = ValueError.
Proof. destruct a; simpl; [discriminate|apply finite_values_error]. Qed.

(** The tree accepts the points exactly when every coordinate is finite and
    there is a point. *)
Lemma KDTree_float64_ok (la lb : list float) (t : KDTree) :
  length la = length lb -> KDTree_float64 (combine la lb) = Ok t ->
  exists qa qb, rmapM finite la = Ok qa /\ rmapM finite lb = Ok qb /\
                kd_data t = combine qa qb /\ la <> [].
Proof.
  intros Hlen H. unfold KDTree_float64 in H.
  apply rbind_ok in H as (q & Hq & Ht).
  destruct (rmapM_pairs_ok finite finite la lb q Hlen Hq) as (qa & qb & Ha & Hb & ->).
  apply KDTree_new_ok in Ht as [Hkd Hne].
  exists qa, qb. repeat split; auto.
  intros ->. simpl in Ha. injection Ha as <-. apply Hne. reflexivity.
Qed.

Lemma KDTree_float64_total (la lb : list float) (qa qb : list Q) :
  rmapM finite la = Ok qa -> rmapM finite lb = Ok qb ->
  length la = length lb -> la <> [] ->
  KDTree_float64 (combine la lb) = Ok {| kd_data := combine qa qb |}.
Proof.
  intros Ha Hb Hlen Hne. unfold KDTree_float64.
  rewrite (rmapM_pairs_total finite finite la lb qa qb Ha Hb Hlen). cbn [rbind].
  pose proof (rmapM_length _ _ _ Ha) as La. pose proof (rmapM_length _ _ _ Hb) as Lb.
  destruct qa as [|a qa]; [destruct la; [congruence|discriminate]|].
  destruct qb as [|b qb]; [destruct lb; [destruct la; [congruence|discriminate]|discriminate]|].
  reflexivity.
Qed.

Lemma KDTree_float64_error (data : list (float * float)) (e : exn) :
  KDTree_float64 data = Raise e -> e = ValueError.
Proof.
  unfold KDTree_float64.
  destruct (rmapM _ data) as [q|e'] eqn:E; cbn [rbind].
  - destruct q; simpl; congruence.
  - intros H. injection H as <-. revert E. apply rmapM_error.
    intros p e''. destruct (finite (fst p)) as [a|ea] eqn:Ea; cbn [rbind].
    + destruct (finite (snd p)) as [b|eb] eqn:Eb; cbn [rbind]; [discriminate|].
      intros H. injection H as <-. exact (finite_error _ _ Eb).
    + intros H. injection H as <-. exact (finite_error _ _ Ea).
Qed.

(** *** Lines 36-46 *)

Lemma np_array_like_ok (a b : array_like) :
  np_array_like a = Ok b -> b = a /\ rectangular_like a = true.
Proof.
  destruct a as [z|v]; simpl; unfold np_array;
    [destruct (rectangular z)|destruct (rectangular v)]; simpl;
    intros H; try discriminate; injection H as <-; auto.
Qed.

Lemma np_array_like_total (a : array_like) :
  rectangular_like a = true -> np_array_like a = Ok a.
Proof.
  destruct a as [z|v]; simpl; unfold np_array; intros ->; reflexivity.
Qed.

Lemma np_array_like_error (a : array_like) (e : exn) :
  np_array_like a = Raise e -> e = ValueError.
Proof.
  destruct a as [z|v]; simpl; unfold np_array;
    [destruct (rectangular z)|destruct (rectangular v)]; simpl; congruence.
Qed.

Lemma center_y_rectangular {F : Type} (fadd fsub : F -> F -> F) (fhalf : F -> F)
    (ty0 y : array2 F) :
  center_y fadd fsub fhalf ty0 = Ok y -> rectangular ty0 = true ->
  rectangular y = true /\ shape y = shape ty0.
Proof.
  intros H R. pose proof (center_y_shape fadd fsub fhalf ty0 y H R) as Hs.
  split; [|exact Hs].
  destruct (center_y_rect fadd fsub fhalf ty0 y H R) as [_ Hrows].
  unfold rectangular. rewrite Hs. apply forallb_forall. intros r Hr.
  rewrite Forall_forall in Hrows. apply Nat.eqb_eq. exact (Hrows r Hr).
Qed.

(** What the grids are when lines 36-46 go through. *)
Lemma centered_grids_ok (tx0 ty0 x y : array_like) (centered : bool) :
  centered_grids tx0 ty0 centered = Ok (x, y) ->
  rectangular_like tx0 = true /\ rectangular_like ty0 = true /\
  if centered then x = tx0 /\ y = ty0
  else exists a b x' y',
         tx0 = FloatArray a /\ ty0 = FloatArray b /\
         x = FloatArray x' /\ y = FloatArray y' /\
         center_x PrimFloat.add PrimFloat.sub float_half a = Ok x' /\
         center_y PrimFloat.add PrimFloat.sub float_half b = Ok y'.
Proof.
  unfold centered_grids. intros H.
  apply rbind_ok in H as (tx1 & H1 & H). apply np_array_like_ok in H1 as [-> Rx].
  apply rbind_ok in H as (ty1 & H1 & H). apply np_array_like_ok in H1 as [-> Ry].
  split; [exact Rx|]. split; [exact Ry|].
  destruct centered.
  - injection H as <- <-. auto.
  - apply rbind_ok in H as (x1 & Hx & H). apply rbind_ok in H as (y1 & Hy & H).
    injection H as <- <-.
    destruct tx0 as [zx|a]; simpl in Hx.
    { unfold center_x_int in Hx.
      destruct (col_neg 1 zx); simpl in Hx; [|discriminate].
      destruct (col_neg 2 zx); simpl in Hx; discriminate. }
    destruct ty0 as [zy|b]; simpl in Hy.
    { unfold center_y_int in Hy.
      destruct (row_neg 1 zy); simpl in Hy; [|discriminate].
      destruct (row_neg 2 zy); simpl in Hy; discriminate. }
    apply rbind_ok in Hx as (x' & Hx & E). injection E as <-.
    apply rbind_ok in Hy as (y' & Hy & E). injection E as <-.
    exists a, b, x', y'. auto 6.
Qed.

(** The stored grids have the shapes of the grids given. *)
Lemma centered_grids_shape (tx0 ty0 x y : array_like) (centered : bool) :
  centered_grids tx0 ty0 centered = Ok (x, y) ->
  rectangular_like x = true /\ rectangular_like y = true /\
  shape_like x = shape_like tx0 /\ shape_like y = shape_like ty0.
Proof.
  intros H. apply centered_grids_ok in H as (Rx & Ry & H).
  destruct centered.
  - destruct H as [-> ->]. auto.
  - destruct H as (a & b & x' & y' & -> & -> & -> & -> & Hx & Hy). simpl in *.
    destruct (center_x_rect _ _ _ a x' Hx Rx) as [Rx' Sx].
    destruct (center_y_rectangular _ _ _ b y' Hy Ry) as [Ry' Sy].
    auto.
Qed.

Lemma rectangular_rows_ge {F : Type} (a : array2 F) (n : nat) :
  rectangular a = true -> n <= snd (shape a) -> Forall (fun r => n <= length r) a.
Proof.
  intros R Hn. apply Forall_forall. intros row Hrow.
  apply In_nth_error in Hrow as [i Hi].
  rewrite (@rectangular_row _ a i row R Hi). exact Hn.
Qed.

Lemma shape_nonempty {F : Type} (a : array2 F) (n : nat) :
  1 <= n -> n <= snd (shape a) -> a <> [].
Proof. intros H1 Hn ->. simpl in Hn. lia. Qed.

(** Lines 36-46 go through with [centered=True], and with [centered=False]
    for float arrays of two columns ([tx]) and two rows ([ty]) or more. *)
Lemma centered_grids_total (tx0 ty0 : array_like) (centered : bool) :
  rectangular_like tx0 = true -> rectangular_like ty0 = true ->
  centered = true \/
  (exists a b, tx0 = FloatArray a /\ ty0 = FloatArray b /\
               2 <= snd (shape a) /\ 2 <= fst (shape b)) ->
  exists x y, centered_grids tx0 ty0 centered = Ok (x, y).
Proof.
  intros Rx Ry H. unfold centered_grids.
  rewrite (np_array_like_total tx0 Rx), (np_array_like_total ty0 Ry). cbn [rbind].
  destruct centered; [eauto|].
  destruct H as [H|(a & b & -> & -> & Ha & Hb)]; [discriminate|]. simpl in *.
  destruct (center_x_total PrimFloat.add PrimFloat.sub float_half a) as [x Hx].
  { exact (shape_nonempty a 2 ltac:(lia) Ha). }
  { exact (rectangular_rows_ge a 2 Rx Ha). }
  destruct (center_y_total PrimFloat.add PrimFloat.sub float_half b Hb) as [y Hy].
  rewrite Hx, Hy. simpl. eauto.
Qed.

Lemma centered_grids_error (tx0 ty0 : array_like) (e : exn) :
  centered_grids tx0 ty0 true = Raise e -> e = ValueError.
Proof.
  unfold centered_grids.
  destruct (np_array_like tx0) as [tx1|e1] eqn:E1; cbn [rbind];
    [|intros H; injection H as <-; exact (np_array_like_error _ _ E1)].
  destruct (np_array_like ty0) as [ty1|e2] eqn:E2; cbn [rbind];
    [discriminate|intros H; injection H as <-; exact (np_array_like_error _ _ E2)].
Qed.

(** *** Lines 49-53 *)

(** What a successfully constructed [Gridder] holds. *)
Lemma init_ok (tx0 ty0 : array_like) (dx0 : bound) (centered : bool) (g : Gridder) :
  __init__ tx0 ty0 dx0 centered = Ok g ->
  exists x y kx ky,
    centered_grids tx0 ty0 centered = Ok (x, y) /\
    exact_values x = Ok (tx g) /\ exact_values y = Ok (ty g) /\
    finite_values (as_float64 x) = Ok kx /\ finite_values (as_float64 y) = Ok ky /\
    size_like x = size_like y /\ size_like x <> 0 /\
    kd_data (tree g) = combine (ravel kx) (ravel ky) /\
    tpoints g = tpoints_of x y (tree g) /\
    dx g = dx0.
Proof.
  unfold __init__. intros H.
  apply rbind_ok in H as ([x y] & Hxy & H). cbn [fst snd] in H.
  apply rbind_ok in H as (data & Hd & H).
  apply zip_strict_ok in Hd as [Hlen ->].
  apply rbind_ok in H as (t & Ht & H).
  apply rbind_ok in H as (xq & Hxq & H).
  apply rbind_ok in H as (yq & Hyq & H).
  injection H as <-. cbn [tx ty dx tpoints tree].
  destruct (KDTree_float64_ok _ _ t Hlen Ht) as (qa & qb & Ha & Hb & Hkd & Hne).
  rewrite rmapM_ravel in Ha, Hb.
  apply rbind_ok in Ha as (kx & Hkx & Ea). injection Ea as <-.
  apply rbind_ok in Hb as (ky & Hky & Eb). injection Eb as <-.
  exists x, y, kx, ky. rewrite <- !size_as_float64.
  repeat split; auto.
  intros Hz. apply Hne. apply length_zero_iff_nil. exact Hz.
Qed.

(** The constructor succeeds when lines 36-46 go through and leave two
    grids of finite entries, equally many and at least one. *)
Lemma init_accepts (tx0 ty0 x y : array_like) (dx0 : bound) (centered : bool)
    (kx ky : array2 Q) :
  centered_grids tx0 ty0 centered = Ok (x, y) ->
  finite_values (as_float64 x) = Ok kx -> finite_values (as_float64 y) = Ok ky ->
  size_like x = size_like y -> size_like x <> 0 ->
  exists g, __init__ tx0 ty0 dx0 centered = Ok g /\
            kd_data (tree g) = combine (ravel kx) (ravel ky).
Proof.
  intros Hxy Hkx Hky Hs Hne. unfold __init__. rewrite Hxy. cbn [rbind fst snd].
  rewrite zip_strict_same_length by (rewrite !size_as_float64; exact Hs).
  cbn [rbind].
  rewrite (KDTree_float64_total (ravel (as_float64 x)) (ravel (as_float64 y))
             (ravel kx) (ravel ky)).
  2:{ rewrite rmapM_ravel. unfold finite_values in Hkx. rewrite Hkx. reflexivity. }
  2:{ rewrite rmapM_ravel. unfold finite_values in Hky. rewrite Hky. reflexivity. }
  2:{ rewrite !size_as_float64. exact Hs. }
  2:{ intros E. apply Hne. rewrite <- size_as_float64, E. reflexivity. }
  cbn [rbind].
  assert (Hex : forall a k, finite_values (as_float64 a) = Ok k ->
                  exists q, exact_values a = Ok q).
  { intros [z|v] k Hk; simpl in *; eauto. }
  destruct (Hex x kx Hkx) as [xq ->]. destruct (Hex y ky Hky) as [yq ->].
  cbn [rbind]. eexists. split; reflexivity.
Qed.

(** Once lines 36-46 went through, only [ValueError] is left. *)
Lemma init_error_late (tx0 ty0 x y : array_like) (dx0 : bound) (centered : bool)
    (e : exn) :
  centered_grids tx0 ty0 centered = Ok (x, y) ->
  __init__ tx0 ty0 dx0 centered = Raise e -> e = ValueError.
Proof.
  intros Hxy. unfold __init__. rewrite Hxy. cbn [rbind fst snd].
  destruct (zip_strict _ _) as [data|e1] eqn:E1; cbn [rbind].
  2:{ intros H. injection H as <-.
      destruct (Nat.eq_dec (length (ravel (as_float64 x)))
                           (length (ravel (as_float64 y)))) as [Hl|Hl].
      - rewrite (@zip_strict_same_length _ _ _ _ Hl) in E1. discriminate.
      - rewrite (@zip_strict_mismatch _ _ _ _ Hl) in E1. congruence. }
  destruct (KDTree_float64 data) as [t|e2] eqn:E2; cbn [rbind];
    [|intros H; injection H as <-; exact (KDTree_float64_error _ _ E2)].
  destruct (exact_values x) as [xq|e3] eqn:E3; cbn [rbind];
    [|intros H; injection H as <-; exact (exact_values_error _ _ E3)].
  destruct (exact_values y) as [yq|e4] eqn:E4; cbn [rbind];
    [discriminate|intros H; injection H as <-; exact (exact_values_error _ _ E4)].
Qed.

(** An object built from float arrays, or from integers that float64 holds
    exactly, is one that [Gridder_init] builds from the numbers stored. *)
Lemma init_constructed (tx0 ty0 : array_like) (dx0 : bound) (centered : bool)
    (g : Gridder) :
  __init__ tx0 ty0 dx0 centered = Ok g ->
  kd_data (tree g) = combine (ravel (tx g)) (ravel (ty g)) ->
  Gridder_init (tx g) (ty g) dx0 true = Ok g.
Proof.
  intros H Hkd.
  destruct (init_ok _ _ _ _ _ H) as
    (x & y & kx & ky & Hxy & Hx & Hy & Hkx & Hky & Hs & Hne & Hkd' & Htp & Hdx).
  destruct (centered_grids_shape _ _ _ _ _ Hxy) as (Rx & Ry & _ & _).
  destruct (exact_values_shape x (tx g) Hx) as [Sx Rx'].
  destruct (exact_values_shape y (ty g) Hy) as [Sy Ry'].
  pose proof (exact_values_size x (tx g) Hx) as Lx.
  pose proof (exact_values_size y (ty g) Hy) as Ly.
  assert (Htp' : tpoints g = combine (ravel (tx g)) (ravel (ty g))).
  { rewrite Htp. unfold tpoints_of.
    destruct x as [zx|vx]; destruct y as [zy|vy]; try exact Hkd.
    simpl in Hx, Hy. injection Hx as <-. injection Hy as <-.
    rewrite !ravel_map. reflexivity. }
  unfold Gridder_init, np_array. rewrite Rx', Ry', Rx, Ry. cbn [rbind fst snd].
  rewrite zip_strict_same_length by congruence. cbn [rbind].
  destruct (combine (ravel (tx g)) (ravel (ty g))) as [|p0 tp] eqn:E.
  { exfalso. apply Hne. rewrite <- Lx.
    assert (Hl : length (combine (ravel (tx g)) (ravel (ty g))) = 0)
      by (rewrite E; reflexivity).
    rewrite length_combine in Hl. lia. }
  cbn [KDTree_new rbind].
  destruct g as [gtx gty gdx gtp [gkd]]. cbn [tx ty dx tpoints tree kd_data] in *.
  rewrite Hkd, Htp', Hdx. reflexivity.
Qed.

(** Float arrays always give such an object. *)
Lemma init_float_constructed (a b : array2 float) (dx0 : bound) (centered : bool)
    (g : Gridder) :
  __init__ (FloatArray a) (FloatArray b) dx0 centered = Ok g -> constructed g.
Proof.
  intros H. exists (tx g), (ty g), dx0, true.
  apply (init_constructed _ _ _ _ _ H).
  destruct (init_ok _ _ _ _ _ H) as
    (x & y & kx & ky & Hxy & Hx & Hy & Hkx & Hky & _ & _ & Hkd & _).
  assert (Hf : exists x' y', x = FloatArray x' /\ y = FloatArray y').
  { apply centered_grids_ok in Hxy as (_ & _ & Hc). destruct centered.
    - destruct Hc as [-> ->]. eauto.
    - destruct Hc as (_ & _ & x' & y' & _ & _ & -> & -> & _). eauto. }
  destruct Hf as (x' & y' & -> & ->). simpl in *. congruence.
Qed.

(** ** C2: the centering transform *)

Section Centered.
Variable F : Type.
Variable fadd fsub : F -> F -> F.
Variable fhalf : F -> F.

Lemma centered_entry_x (tx0 x : array2 F) :
  center_x fadd fsub fhalf tx0 = Ok x ->
  rectangular tx0 = true ->
  2 <= snd (shape tx0) /\
  (forall i j a b, get2 tx0 i j = Some a -> get2 tx0 i (S j) = Some b ->
     get2 x i j = Some (fadd a (fhalf (fsub b a)))) /\
  (forall i a, get2 tx0 i (snd (shape tx0) - 1) = Some a ->
     exists b, get2 tx0 i (snd (shape tx0) - 2) = Some b /\
               get2 x i (snd (shape tx0) - 1) = Some (fadd a (fhalf (fsub a b)))).
Proof.
  intros H R.
  assert (H2 : 2 <= snd (shape tx0)).
  { unfold center_x in H. apply rbind_ok in H as (xl & _ & H).
    apply rbind_ok in H as (l1 & _ & H). apply rbind_ok in H as (l2 & Hl2 & _).
    apply col_neg_ok in Hl2 as [Hl2 _]. exact Hl2. }
  apply (@center_x_rows F fadd fsub fhalf tx0 x) in H as [_ H].
  split; [exact H2|]. split.
  - intros i j a b Ha Hb.
    apply get2_some in Ha as (row & Hi & Ha).
    apply get2_some in Hb as (row2 & Hi2 & Hb).
    assert (row2 = row) by congruence. subst row2.
    destruct (H i row Hi) as (row' & Hr & _ & _ & Hj & _).
    apply get2_some. exists row'. split; [exact Hr|].
    exact (Hj j a b Ha Hb).
  - intros i a Ha.
    apply get2_some in Ha as (row & Hi & Ha).
    destruct (H i row Hi) as (row' & Hr & Hrow2 & _ & _ & Hl).
    rewrite <- (@rectangular_row F tx0 i row R Hi) in *.
    destruct (nth_error row (length row - 2)) as [b|] eqn:Hb.
    + exists b. split.
      * apply get2_some. exists row. auto.
      * apply get2_some. exists row'. split; [exact Hr|].
        exact (Hl a b Ha eq_refl).
    + apply nth_error_None in Hb. lia.
Qed.

Lemma centered_entry_y (ty0 y : array2 F) :
  center_y fadd fsub fhalf ty0 = Ok y ->
  2 <= fst (shape ty0) /\
  (forall i j a b, get2 ty0 i j = Some a -> get2 ty0 (S i) j = Some b ->
     get2 y i j = Some (fadd a (fhalf (fsub b a)))) /\
  (forall j a b, get2 ty0 (fst (shape ty0) - 1) j = Some a ->
     get2 ty0 (fst (shape ty0) - 2) j = Some b ->
     get2 y (fst (shape ty0) - 1) j = Some (fadd a (fhalf (fsub a b)))).
Proof.
  intros H.
  apply (@center_y_rows F fadd fsub fhalf ty0 y) in H as (H2 & _ & Hj & Hl).
  split; [exact H2|]. split.
  - intros i j a b Ha Hb.
    apply get2_some in Ha as (ra & Hi & Ha).
    apply get2_some in Hb as (rb & Hi2 & Hb).
    apply get2_some. eexists. split; [exact (Hj i ra rb Hi Hi2)|].
    unfold add1, half1, sub1.
    rewrite nth_error_map2, Ha, nth_error_map, nth_error_map2, Hb, Ha.
    reflexivity.
  - intros j a b Ha Hb. simpl fst in *.
    apply get2_some in Ha as (ra & Hi & Ha).
    apply get2_some in Hb as (rb & Hi2 & Hb).
    apply get2_some. eexists. split; [exact (Hl ra rb Hi Hi2)|].
    unfold add1, half1, sub1.
    rewrite nth_error_map2, Ha, nth_error_map, nth_error_map2, Ha, Hb.
    reflexivity.
Qed.

(** In a rectangular array an entry with no right-hand neighbour is in the
    last column, and one with no neighbour below is in the last row. *)
Lemma last_column (a : array2 F) (i j : nat) (v : F) :
  rectangular a = true -> get2 a i j = Some v -> get2 a i (S j) = None ->
  j = snd (shape a) - 1.
Proof.
  intros R Ha Hb. apply get2_some in Ha as (row & Hi & Ha).
  unfold get2 in Hb. rewrite Hi in Hb. apply nth_error_None in Hb.
  assert (j < length row) by (apply nth_error_Some; congruence).
  rewrite <- (@rectangular_row F a i row R Hi). lia.
Qed.

Lemma column_entry (a : array2 F) (i j k : nat) (v : F) :
  rectangular a = true -> get2 a i j = Some v -> k < fst (shape a) ->
  exists c, get2 a k j = Some c.
Proof.
  intros R Ha Hk. apply get2_some in Ha as (row & Hi & Ha).
  destruct (nth_error a k) as [rk|] eqn:Ek;
    [|apply nth_error_None in Ek; simpl in Hk; lia].
  destruct (nth_error rk j) as [c|] eqn:Ec.
  - exists c. apply get2_some. eauto.
  - apply nth_error_None in Ec.
    assert (j < length row) by (apply nth_error_Some; congruence).
    rewrite (@rectangular_row F a k rk R Ek) in Ec.
    rewrite (@rectangular_row F a i row R Hi) in *. lia.
Qed.

Lemma last_row (a : array2 F) (i j : nat) (v : F) :
  rectangular a = true -> get2 a i j = Some v -> get2 a (S i) j = None ->
  i = fst (shape a) - 1.
Proof.
  intros R Ha Hb. simpl.
  destruct (Nat.lt_ge_cases (S i) (length a)) as [Hlt|Hge].
  - destruct (column_entry a i j (S i) v R Ha Hlt) as (c & Hc). congruence.
  - apply get2_some in Ha as (row & Hi & _).
    assert (i < length a) by (apply nth_error_Some; congruence). lia.
Qed.

(** On a grid whose neighbouring entries all differ by [d], as the array
    computes the difference, every centre is the computed [corner + d / 2]. *)
Lemma centered_uniform_x (tx0 x : array2 F) (d : F) :
  center_x fadd fsub fhalf tx0 = Ok x -> rectangular tx0 = true ->
  (forall i j a b, get2 tx0 i j = Some a -> get2 tx0 i (S j) = Some b ->
     fsub b a = d) ->
  forall i j a, get2 tx0 i j = Some a -> get2 x i j = Some (fadd a (fhalf d)).
Proof.
  intros H R Hd i j a Ha.
  destruct (centered_entry_x tx0 x H R) as (H2 & Hxj & Hxl).
  destruct (get2 tx0 i (S j)) as [b|] eqn:Hb.
  - rewrite (Hxj i j a b Ha Hb), (Hd i j a b Ha Hb). reflexivity.
  - pose proof (last_column tx0 i j a R Ha Hb) as ->.
    destruct (Hxl i a Ha) as (b & Hb' & ->).
    assert (Hs : S (snd (shape tx0) - 2) = snd (shape tx0) - 1) by lia.
    rewrite <- Hs in Ha. rewrite (Hd i _ b a Hb' Ha). reflexivity.
Qed.

Lemma centered_uniform_y (ty0 y : array2 F) (d : F) :
  center_y fadd fsub fhalf ty0 = Ok y -> rectangular ty0 = true ->
  (forall i j a b, get2 ty0 i j = Some a -> get2 ty0 (S i) j = Some b ->
     fsub b a = d) ->
  forall i j a, get2 ty0 i j = Some a -> get2 y i j = Some (fadd a (fhalf d)).
Proof.
  intros H R Hd i j a Ha.
  destruct (centered_entry_y ty0 y H) as (H2 & Hyj & Hyl).
  destruct (get2 ty0 (S i) j) as [b|] eqn:Hb.
  - rewrite (Hyj i j a b Ha Hb), (Hd i j a b Ha Hb). reflexivity.
  - pose proof (last_row ty0 i j a R Ha Hb) as ->.
    destruct (column_entry ty0 _ j (fst (shape ty0) - 2) a R Ha) as (b & Hb');
      [lia|].
    rewrite (Hyl j a b Ha Hb').
    assert (Hs : S (fst (shape ty0) - 2) = fst (shape ty0) - 1) by lia.
    rewrite <- Hs in Ha. rewrite (Hd _ j b a Hb' Ha). reflexivity.
Qed.
End Centered.

(** What [__init__] stores for float arrays. *)
Lemma init_float_ok (a b : array2 float) (dx0 : bound) (centered : bool)
    (g : Gridder) :
  __init__ (FloatArray a) (FloatArray b) dx0 centered = Ok g ->
  exists x y,
    centered_grids (FloatArray a) (FloatArray b) centered
    = Ok (FloatArray x, FloatArray y) /\
    finite_values x = Ok (tx g) /\ finite_values y = Ok (ty g) /\
    tpoints g = combine (ravel (tx g)) (ravel (ty g)) /\
    kd_data (tree g) = tpoints g /\ dx g = dx0.
Proof.
  intros H.
  destruct (init_ok _ _ _ _ _ H) as
    (x & y & kx & ky & Hxy & Hx & Hy & Hkx & Hky & _ & _ & Hkd & Htp & Hdx).
  assert (Hf : exists x' y', x = FloatArray x' /\ y = FloatArray y').
  { pose proof (centered_grids_ok _ _ _ _ _ Hxy) as (_ & _ & Hc). destruct centered.
    - destruct Hc as [-> ->]. eauto.
    - destruct Hc as (_ & _ & x' & y' & _ & _ & -> & -> & _). eauto. }
  destruct Hf as (x' & y' & -> & ->). simpl in *.
  exists x', y'. rewrite Htp, Hkd.
  assert (kx = tx g) by congruence. assert (ky = ty g) by congruence. subst.
  repeat split; auto.
Qed.

(** C2 (as amended). The centering transform computes, in the arithmetic of
    the arrays, [tx[i,j] + (tx[i,j+1] - tx[i,j]) / 2] for every entry before
    the last of a row and [tx[i,last] + (tx[i,last] - tx[i,last-1]) / 2] for
    the last, and likewise for [ty] along the rows; on a grid whose
    neighbouring entries all differ by [d], as the array computes the
    difference, every centre is the computed sum [corner + d / 2], the last
    column and the last row included.  Constructed from float arrays with
    [centered = False], the grid that is indexed and used by the lookups
    holds the values of these float64 results.  In exact arithmetic every
    centre of a uniform grid is the corner moved by exactly [d / 2]. *)
Theorem centering_transform :
  (forall (F : Type) (fadd fsub : F -> F -> F) (fhalf : F -> F)
          (tx0 ty0 x y : array2 F),
     rectangular tx0 = true -> rectangular ty0 = true ->
     center_x fadd fsub fhalf tx0 = Ok x ->
     center_y fadd fsub fhalf ty0 = Ok y ->
     (forall i j a b, get2 tx0 i j = Some a -> get2 tx0 i (S j) = Some b ->
        get2 x i j = Some (fadd a (fhalf (fsub b a)))) /\
     (forall i a b, get2 tx0 i (snd (shape tx0) - 1) = Some a ->
        get2 tx0 i (snd (shape tx0) - 2) = Some b ->
        get2 x i (snd (shape tx0) - 1) = Some (fadd a (fhalf (fsub a b)))) /\
     (forall i j a b, get2 ty0 i j = Some a -> get2 ty0 (S i) j = Some b ->
        get2 y i j = Some (fadd a (fhalf (fsub b a)))) /\
     (forall j a b, get2 ty0 (fst (shape ty0) - 1) j = Some a ->
        get2 ty0 (fst (shape ty0) - 2) j = Some b ->
        get2 y (fst (shape ty0) - 1) j = Some (fadd a (fhalf (fsub a b)))) /\
     (forall d : F,
        (forall i j a b, get2 tx0 i j = Some a -> get2 tx0 i (S j) = Some b ->
           fsub b a = d) ->
        forall i j a, get2 tx0 i j = Some a ->
          get2 x i j = Some (fadd a (fhalf d))) /\
     (forall e : F,
        (forall i j a b, get2 ty0 i j = Some a -> get2 ty0 (S i) j = Some b ->
           fsub b a = e) ->
        forall i j a, get2 ty0 i j = Some a ->
          get2 y i j = Some (fadd a (fhalf e)))) /\
  (forall (tx0 ty0 : array2 float) (dx0 : bound) (g : Gridder),
     __init__ (FloatArray tx0) (FloatArray ty0) dx0 false = Ok g ->
     exists x y,
       center_x PrimFloat.add PrimFloat.sub float_half tx0 = Ok x /\
       center_y PrimFloat.add PrimFloat.sub float_half ty0 = Ok y /\
       (forall i j v, get2 x i j = Some v ->
          exists q, float_value v = Some q /\ get2 (tx g) i j = Some q) /\
       (forall i j v, get2 y i j = Some v ->
          exists q, float_value v = Some q /\ get2 (ty g) i j = Some q) /\
       shape (tx g) = shape tx0 /\ shape (ty g) = shape ty0 /\
       tpoints g = combine (ravel (tx g)) (ravel (ty g)) /\
       kd_data (tree g) = tpoints g) /\
  (forall (tx0 ty0 : array2 Q) (dx0 : bound) (g : Gridder),
     Gridder_init tx0 ty0 dx0 false = Ok g ->
     (tpoints g = combine (ravel (tx g)) (ravel (ty g)) /\
      kd_data (tree g) = tpoints g) /\
     center_x Qplus Qminus Qhalf tx0 = Ok (tx g) /\
     center_y Qplus Qminus Qhalf ty0 = Ok (ty g) /\
     (forall d : Q,
        (forall i j a b, get2 tx0 i j = Some a -> get2 tx0 i (S j) = Some b ->
           (b - a == d)%Q) ->
        forall i j a, get2 tx0 i j = Some a ->
          exists v, get2 (tx g) i j = Some v /\ (v == a + d / 2)%Q) /\
     (forall e : Q,
        (forall i j a b, get2 ty0 i j = Some a -> get2 ty0 (S i) j = Some b ->
           (b - a == e)%Q) ->
        forall i j a, get2 ty0 i j = Some a ->
          exists v, get2 (ty g) i j = Some v /\ (v == a + e / 2)%Q)).
Proof.
  split; [|split].
  - intros F fadd fsub fhalf tx0 ty0 x y Rx Ry Hx Hy.
    destruct (centered_entry_x F fadd fsub fhalf tx0 x Hx Rx) as (_ & Hxj & Hxl).
    destruct (centered_entry_y F fadd fsub fhalf ty0 y Hy) as (_ & Hyj & Hyl).
    split; [exact Hxj|]. split.
    { intros i a b Ha Hb. destruct (Hxl i a Ha) as (b' & Hb' & Hv).
      assert (b' = b) by congruence. subst b'. exact Hv. }
    split; [exact Hyj|]. split; [exact Hyl|]. split.
    + intros d Hd. exact (centered_uniform_x F fadd fsub fhalf tx0 x d Hx Rx Hd).
    + intros e He. exact (centered_uniform_y F fadd fsub fhalf ty0 y e Hy Ry He).
  - intros tx0 ty0 dx0 g H.
    destruct (init_float_ok tx0 ty0 dx0 false g H) as
      (x & y & Hxy & Hx & Hy & Htp & Hkd & _).
    pose proof (centered_grids_ok _ _ _ _ _ Hxy) as (Rx & Ry & Hc).
    destruct Hc as (a & b & x' & y' & Ea & Eb & Ex & Ey & Hcx & Hcy).
    injection Ea as <-. injection Eb as <-. injection Ex as <-. injection Ey as <-.
    simpl in Rx, Ry.
    exists x, y. split; [exact Hcx|]. split; [exact Hcy|].
    split; [intros i j v; exact (finite_values_get2 x (tx g) i j v Hx)|].
    split; [intros i j v; exact (finite_values_get2 y (ty g) i j v Hy)|].
    destruct (finite_values_shape x (tx g) Hx) as [Sx _].
    destruct (finite_values_shape y (ty g) Hy) as [Sy _].
    destruct (center_x_rect _ _ _ tx0 x Hcx Rx) as [_ Sx'].
    destruct (center_y_rectangular _ _ _ ty0 y Hcy Ry) as [_ Sy'].
    repeat split; congruence.
  - intros tx0 ty0 dx0 g H.
    apply Gridder_init_ok in H as (Rx & Ry & [Hx Hy] & _ & Htp & _ & Hkd & _).
    split; [auto|]. split; [exact Hx|]. split; [exact Hy|].
    destruct (centered_entry_x Q Qplus Qminus Qhalf tx0 (tx g) Hx Rx)
      as (Hx2 & Hxj & Hxl).
    destruct (centered_entry_y Q Qplus Qminus Qhalf ty0 (ty g) Hy)
      as (Hy2 & Hyj & Hyl).
    split.
    + intros d Hd i j a Ha.
      destruct (get2 tx0 i (S j)) as [b|] eqn:Hb.
      * eexists. split; [exact (Hxj i j a b Ha Hb)|].
        unfold Qhalf. rewrite (Hd i j a b Ha Hb). reflexivity.
      * pose proof (last_column Q tx0 i j a Rx Ha Hb) as ->.
        destruct (Hxl i a Ha) as (b & Hb' & Hv).
        eexists. split; [exact Hv|].
        assert (Hs : S (snd (shape tx0) - 2) = snd (shape tx0) - 1) by lia.
        rewrite <- Hs in Ha.
        unfold Qhalf. rewrite (Hd i _ b a Hb' Ha). reflexivity.
    + intros e He i j a Ha.
      destruct (get2 ty0 (S i) j) as [b|] eqn:Hb.
      * eexists. split; [exact (Hyj i j a b Ha Hb)|].
        unfold Qhalf. rewrite (He i j a b Ha Hb). reflexivity.
      * pose proof (last_row Q ty0 i j a Ry Ha Hb) as ->.
        destruct (column_entry Q ty0 _ j (fst (shape ty0) - 2) a Ry Ha)
          as (b & Hb'); [lia|].
        eexists. split; [exact (Hyl j a b Ha Hb')|].
        assert (Hs : S (fst (shape ty0) - 2) = fst (shape ty0) - 1) by lia.
        rewrite <- Hs in Ha.
        unfold Qhalf. rewrite (He _ j b a Hb' Ha). reflexivity.
Qed.

(** Witness of C2: on the 4 x 4 grid in exact arithmetic the last column
    moves from 30 to 35; on the float grid with corners 2^53, 2^53 + 2 and
    2^53 + 4 the last centre is the float64 sum of the corner and half the
    last gap, and the constructor stores the values of these sums. *)
Lemma centering_transform_witness :
  (exists v, get2 (tx scenario_gridder) 0 3 = Some v /\ (v == 30 + 10 / 2)%Q) /\
  (exists x,
     center_x PrimFloat.add PrimFloat.sub float_half wide_corners = Ok x /\
     get2 x 0 2 =
     Some (PrimFloat.add 9007199254740996
             (float_half (PrimFloat.sub 9007199254740996 9007199254740994)))) /\
  (exists g x,
     __init__ (FloatArray wide_corners) (FloatArray wide_rows) Infinity false = Ok g /\
     center_x PrimFloat.add PrimFloat.sub float_half wide_corners = Ok x /\
     forall i j v, get2 x i j = Some v ->
       exists q, float_value v = Some q /\ get2 (tx g) i j = Some q).
Proof.
  destruct centering_transform as (Hany & Hfloat & Hexact). split; [|split].
  - destruct (Hexact scenario_tx scenario_ty (Finite 5) scenario_gridder eq_refl)
      as (_ & _ & _ & Hd & _).
    apply (Hd 10%Q); [|reflexivity].
    intros [|[|[|[|i]]]] [|[|[|[|j]]]] a b Ha Hb;
      unfold get2 in Ha, Hb; simpl in Ha, Hb;
      try discriminate; try (destruct i; discriminate);
      try (destruct j; discriminate);
      injection Ha as <-; injection Hb as <-; reflexivity.
  - eexists. split; [vm_compute; reflexivity|].
    refine (proj1 (proj2 (Hany float PrimFloat.add PrimFloat.sub float_half
              wide_corners wide_corners _ _ eq_refl eq_refl eq_refl eq_refl))
              0 _ _ eq_refl eq_refl).
  - assert (Hg : exists g, __init__ (FloatArray wide_corners) (FloatArray wide_rows)
                             Infinity false = Ok g)
      by (eexists; vm_compute; reflexivity).
    destruct Hg as [g Hg].
    destruct (Hfloat wide_corners wide_rows Infinity g Hg)
      as (x & y & Hx & _ & Hvx & _).
    exists g, x. auto.
Defined.

(** C2 as stated fails in float64, where the sum [corner + d / 2] is
    rounded.  The corners 2^53, 2^53 + 2, 2^53 + 4 of every row are held
    exactly and are spaced by [d = 2]; the centres that the constructor
    stores are 2^53, 2^53 + 4 and 2^53 + 4, at offsets 0, 2 and 0 from
    their corners and not [d / 2 = 1].  On the corners [0.1] and [0.2],
    spaced by [d = 0.1], the stored centre of the first cell is not the
    corner moved by [d / 2] either. *)
Lemma centre_offset_not_half_spacing :
  (map (map float_value) wide_corners
   = repeat [Some 9007199254740992%Q; Some 9007199254740994%Q;
             Some 9007199254740996%Q] 2 /\
   exists g,
     __init__ (FloatArray wide_corners) (FloatArray wide_rows) Infinity false = Ok g /\
     tx g = repeat [9007199254740992%Q; 9007199254740996%Q; 9007199254740996%Q] 2) /\
  (PrimFloat.sub fifth tenth = tenth /\
   exists g c d v,
     __init__ (FloatArray tenth_tx) (FloatArray tenth_ty) Infinity false = Ok g /\
     float_value tenth = Some c /\ float_value (PrimFloat.sub fifth tenth) = Some d /\
     get2 (tx g) 0 0 = Some v /\ ~ (v - c == d / 2)%Q).
Proof.
  split.
  - split; [vm_compute; reflexivity|].
    eexists. split; vm_compute; reflexivity.
  - split; [vm_compute; reflexivity|].
    eexists. eexists. eexists. eexists.
    split; [vm_compute; reflexivity|].
    split; [vm_compute; reflexivity|].
    split; [vm_compute; reflexivity|].
    split; [vm_compute; reflexivity|].
    intros H. vm_compute in H. discriminate.
Qed.

(** ** C1: the nearest-cell lookup *)

(** C1 (as amended). For every non-empty batch of query points given as
    two sequences of one length, and for every scalar pair, [_kdtree_query]
    and [grid_points] return, without an exception, exactly the cells of the
    subsequence of the points that have an indexed grid point closer than
    [dx]: each such point mapped to the (row, col) of an indexed point
    nearest to it, in the order of the input; the points with no indexed
    point closer than [dx] are left out.  The (row, col) of an indexed point
    is the cell whose [tx] (and, [ty] having the shape of [tx], whose [ty])
    entry it is. *)
Theorem nearest_lookup_filters (g : Gridder) :
  constructed g ->
  (forall xs ys : list Q,
     length xs = length ys -> xs <> [] ->
     exists ks,
       Forall2 (snaps_to g) (filter (near (dx g) (tpoints g)) (combine xs ys)) ks /\
       _kdtree_query (Seq xs) (Seq ys) g =
       (Ok (map fst (map (cell_of g) ks), map snd (map (cell_of g) ks)), g) /\
       grid_points (Seq xs) (Seq ys) g = (Ok (map (cell_of g) ks), g)) /\
  (forall x y : Q,
     exists ks,
       Forall2 (snaps_to g) (filter (near (dx g) (tpoints g)) [(x, y)]) ks /\
       _kdtree_query (Scalar x) (Scalar y) g =
       (Ok (map fst (map (cell_of g) ks), map snd (map (cell_of g) ks)), g) /\
       grid_points (Scalar x) (Scalar y) g = (Ok (map (cell_of g) ks), g)) /\
  (forall k pk,
     nth_error (tpoints g) k = Some pk ->
     get2 (tx g) (fst (cell_of g k)) (snd (cell_of g k)) = Some (fst pk) /\
     (shape (ty g) = shape (tx g) ->
      get2 (ty g) (fst (cell_of g k)) (snd (cell_of g k)) = Some (snd pk))).
Proof.
  intros Hc. split; [|split].
  - intros xs ys Hlen Hne.
    apply grid_points_value; auto using as_points_seq.
    destruct xs, ys; simpl in *; congruence.
  - intros x y. apply grid_points_value; [exact Hc|reflexivity|discriminate].
  - intros k pk Hk. exact (tpoints_cell g k pk Hc Hk).
Qed.

(** Witness of C1: four points on the 4 x 4 grid, the second too far away. *)
Lemma nearest_lookup_filters_witness :
  exists ks,
    Forall2 (snaps_to scenario_gridder)
      (filter (near (dx scenario_gridder) (tpoints scenario_gridder))
              (combine [6; 100; 16; 35]%Q [6; 100; 25; 35]%Q)) ks /\
    _kdtree_query (Seq [6; 100; 16; 35]%Q) (Seq [6; 100; 25; 35]%Q) scenario_gridder =
    (Ok (map fst (map (cell_of scenario_gridder) ks),
         map snd (map (cell_of scenario_gridder) ks)), scenario_gridder) /\
    grid_points (Seq [6; 100; 16; 35]%Q) (Seq [6; 100; 25; 35]%Q) scenario_gridder
    = (Ok (map (cell_of scenario_gridder) ks), scenario_gridder).
Proof.
  apply (proj1 (nearest_lookup_filters scenario_gridder constructed_scenario)
           [6; 100; 16; 35]%Q [6; 100; 25; 35]%Q).
  - reflexivity.
  - discriminate.
Defined.

(** C1 as stated fails on the empty batch: the tree refuses an empty array
    of query points, so the lookup raises instead of returning no cells. *)
Lemma nearest_lookup_empty_batch :
  grid_points (Seq []) (Seq []) scenario_gridder = (Raise ValueError, scenario_gridder).
Proof. reflexivity. Qed.

(** ** C10: returned cells are inside the grid *)

Lemma unravel1_bounds (shp : nat * nat) (i : nat) (rc : nat * nat) :
  unravel1 shp i = Ok rc -> fst rc < fst shp /\ snd rc < snd shp.
Proof.
  unfold unravel1. destruct (i <? fst shp * snd shp) eqn:E; [|discriminate].
  apply Nat.ltb_lt in E. intros H; injection H as <-. simpl.
  assert (Hc : snd shp <> 0) by (intros Hz; rewrite Hz in E; lia).
  split.
  - apply Nat.Div0.div_lt_upper_bound. lia.
  - apply Nat.mod_upper_bound. exact Hc.
Qed.

Lemma get2_np_zeros {T : Type} (zero : T) (shp : nat * nat) (i j : nat) :
  i < fst shp -> j < snd shp -> get2 (np_zeros zero shp) i j = Some zero.
Proof.
  intros Hi Hj. unfold get2, np_zeros.
  rewrite nth_error_repeat by exact Hi.
  apply nth_error_repeat. exact Hj.
Qed.

(** C10. Every (row, col) that [grid_points] returns is an index into the
    shape of the grid, [row < rows] and [col < cols] (indices are naturals,
    so they are not negative), and the array that [make_empty_grid] returns
    has an entry at each of them.  The flat indices that reach
    [unravel_index] are below [rows * cols], because those not below the
    number of indexed points have been deleted. *)
Theorem returned_cells_in_bounds (g g' : Gridder) (x y : coords)
    (cells : list (nat * nat)) :
  grid_points x y g = (Ok cells, g') ->
  Forall (fun rc => fst rc < fst (shape (tx g)) /\ snd rc < snd (shape (tx g))) cells /\
  (forall (T : Type) (zero : T),
    exists grid, make_empty_grid zero g' = (Ok grid, g') /\
                 Forall (fun rc => get2 grid (fst rc) (snd rc) = Some zero) cells) /\
  (constructed g ->
   forall inds : list nat,
     Forall (fun i => i < fst (shape (tx g)) * snd (shape (tx g)))
            (np_delete inds (np_where (fun i => length (tpoints g) <=? i) inds))).
Proof.
  intros H. apply and_assoc. split.
  2:{ intros Hc inds. destruct (constructed_wf g Hc) as (_ & _ & <-).
      rewrite np_delete_where. apply Forall_forall. intros i Hi.
      apply filter_In in Hi as [_ Hi].
      apply negb_true_iff, Nat.leb_gt in Hi. exact Hi. }
  revert H.
  unfold grid_points, bind. rewrite kdtree_query_run.
  destruct (rbind (as_points x y) _) as [[rs cs]|e] eqn:E; [|discriminate].
  unfold lift. cbn [fst snd]. intros H. injection H as Hz <-.
  apply zip_strict_ok in Hz as [_ ->].
  apply rbind_ok in E as (points & _ & E).
  apply rbind_ok in E as (di & _ & E).
  unfold unravel_index in E. apply rbind_ok in E as (rc & Hrc & E).
  injection E as <- <-. rewrite combine_fst_snd.
  assert (Hb : Forall (fun rc => fst rc < fst (shape (tx g)) /\
                                 snd rc < snd (shape (tx g))) rc).
  { apply rmapM_ok in Hrc. induction Hrc as [|i c l r Hi _ IH]; constructor; auto.
    exact (unravel1_bounds _ _ _ Hi). }
  split; [exact Hb|].
  intros T zero. exists (np_zeros zero (shape (tx g))). split; [reflexivity|].
  eapply Forall_impl; [|exact Hb]. intros c [Hr Hc].
  apply get2_np_zeros; assumption.
Qed.

(** Witness of C10 on the 4 x 4 grid. *)
Lemma returned_cells_in_bounds_witness :
  Forall (fun rc => fst rc < fst (shape (tx scenario_gridder)) /\
                    snd rc < snd (shape (tx scenario_gridder)))
         [(0, 0); (2, 1); (3, 3)] /\
  (forall (T : Type) (zero : T),
    exists grid, make_empty_grid zero scenario_gridder = (Ok grid, scenario_gridder) /\
                 Forall (fun rc => get2 grid (fst rc) (snd rc) = Some zero)
                        [(0, 0); (2, 1); (3, 3)]) /\
  (constructed scenario_gridder ->
   forall inds : list nat,
     Forall (fun i => i < fst (shape (tx scenario_gridder)) *
                          snd (shape (tx scenario_gridder)))
            (np_delete inds
               (np_where (fun i => length (tpoints scenario_gridder) <=? i) inds))).
Proof.
  apply (returned_cells_in_bounds scenario_gridder scenario_gridder
           (Seq [6; 100; 16; 35]%Q) (Seq [6; 100; 25; 35]%Q)).
  reflexivity.
Defined.

(** ** C3: round trip on a centred grid *)

Lemma nth_error_ravel {F : Type} (a : array2 F) (c i j : nat) (v : F) :
  Forall (fun r => length r = c) a ->
  get2 a i j = Some v -> nth_error (ravel a) (i * c + j) = Some v.
Proof.
  unfold ravel, get2. intros Ha. revert i.
  induction Ha as [|r a Hr _ IH]; intros [|i] H; simpl in *; try discriminate.
  - rewrite nth_error_app1; [exact H|]. apply nth_error_Some. congruence.
  - rewrite nth_error_app2 by lia.
    replace (c + i * c + j - length r) with (i * c + j) by lia.
    apply IH. exact H.
Qed.

(** C3 (as amended). On a [Gridder] constructed with [centered = True] from
    [tx] and [ty] of one shape, with [dx > 0] and no two cells at the same
    coordinates, querying the exact coordinates [(tx[i,j], ty[i,j])] of any
    cell returns that cell [(i, j)] alone; the indexed point it snaps to is
    the cell's own, at distance zero. *)
Theorem round_trip (tx0 ty0 : array2 Q) (dx0 : bound) (g : Gridder)
    (i j : nat) (a b : Q) :
  Gridder_init tx0 ty0 dx0 true = Ok g ->
  shape tx0 = shape ty0 ->
  within dx0 0%Q = true ->
  (forall k k' p p', nth_error (tpoints g) k = Some p ->
                     nth_error (tpoints g) k' = Some p' ->
                     same_point p p' -> k = k') ->
  get2 tx0 i j = Some a -> get2 ty0 i j = Some b ->
  _kdtree_query (Scalar a) (Scalar b) g = (Ok ([i], [j]), g) /\
  grid_points (Scalar a) (Scalar b) g = (Ok [(i, j)], g) /\
  snaps_to g (a, b) (i * snd (shape tx0) + j) /\
  nth_error (tpoints g) (i * snd (shape tx0) + j) = Some (a, b) /\
  (sqdist (a, b) (a, b) == 0)%Q.
Proof.
  intros Hinit Hshape Hdx Hdistinct Ha Hb.
  assert (Hc : constructed g) by (exists tx0, ty0, dx0, true; exact Hinit).
  apply Gridder_init_ok in Hinit as (Rx & Ry & [Htx Hty] & _ & Htp & _ & _ & Hdxg).
  set (c := snd (shape tx0)) in *.
  assert (Hk0 : nth_error (tpoints g) (i * c + j) = Some (a, b)).
  { rewrite Htp, Htx, Hty. apply nth_error_combine_some.
    - apply nth_error_ravel; [exact (rectangular_Forall tx0 Rx)|exact Ha].
    - apply nth_error_ravel; [|exact Hb].
      unfold c. rewrite Hshape. exact (rectangular_Forall ty0 Ry). }
  assert (Hz : (sqdist (a, b) (a, b) == 0)%Q)
    by (apply sqdist_zero; split; reflexivity).
  assert (Hw : within (dx g) (sqdist (a, b) (a, b)) = true).
  { rewrite Hdxg. apply (@within_mono dx0 0%Q); [lra|exact Hdx]. }
  assert (Hnear : near (dx g) (tpoints g) (a, b) = true).
  { apply existsb_exists. exists (a, b). split; [|exact Hw].
    eapply nth_error_In; eauto. }
  assert (Hj : j < c).
  { apply get2_some in Ha as (row & Hi & Hj).
    unfold c. rewrite <- (rectangular_row tx0 i Rx Hi).
    apply nth_error_Some. congruence. }
  destruct (grid_points_value g (Scalar a) (Scalar b) [(a, b)] Hc eq_refl)
    as (ks & Hs & Hq & Hg); [discriminate|].
  simpl in Hs. rewrite Hnear in Hs.
  destruct ks as [|k ks]; [inversion Hs|].
  apply Forall2_cons_iff in Hs as [Hsnap Hnil].
  destruct ks as [|k' ks]; [|inversion Hnil].
  assert (Hk : k = i * c + j).
  { destruct Hsnap as (pk & Hpk & Hmin & _).
    apply (Hdistinct k (i * c + j) pk (a, b) Hpk Hk0).
    apply sqdist_zero.
    assert (H1 : (sqdist pk (a, b) <= sqdist (a, b) (a, b))%Q).
    { apply Hmin. eapply nth_error_In; eauto. }
    pose proof (sqdist_nonneg pk (a, b)). lra. }
  assert (Hcell : cell_of g k = (i, j)).
  { unfold cell_of. rewrite Htx. fold c. rewrite Hk.
    rewrite Nat.div_add_l, Nat.div_small, Nat.add_0_r by lia.
    rewrite Nat.add_comm, Nat.Div0.mod_add, Nat.mod_small by lia. reflexivity. }
  cbn [map] in Hq, Hg. rewrite Hcell in Hq, Hg. cbn [fst snd] in Hq.
  repeat split; auto.
  exists (a, b). repeat split; auto.
  intros p _. rewrite Hz. apply sqdist_nonneg.
Qed.

(** Witness of C3: cell (2, 1) of the 4 x 4 grid taken as a centred grid. *)
Lemma round_trip_witness :
  _kdtree_query (Scalar 10) (Scalar 20) scenario_centered
    = (Ok ([2], [1]), scenario_centered) /\
  grid_points (Scalar 10) (Scalar 20) scenario_centered
    = (Ok [(2, 1)], scenario_centered) /\
  snaps_to scenario_centered (10, 20)%Q (2 * snd (shape scenario_tx) + 1) /\
  nth_error (tpoints scenario_centered) (2 * snd (shape scenario_tx) + 1)
    = Some (10, 20)%Q /\
  (sqdist (10, 20) (10, 20) == 0)%Q.
Proof.
  apply (round_trip scenario_tx scenario_ty (Finite 5) scenario_centered 2 1 10 20).
  - reflexivity.
  - reflexivity.
  - reflexivity.
  - intros k k' p p' Hk Hk' [H1 H2].
    assert (Hlt : k < length (tpoints scenario_centered))
      by (apply nth_error_Some; congruence).
    assert (Hlt' : k' < length (tpoints scenario_centered))
      by (apply nth_error_Some; congruence).
    change (k < 16) in Hlt. change (k' < 16) in Hlt'.
    do 16 (destruct k as [|k]; [
      do 16 (destruct k' as [|k']; [
        first [ reflexivity
              | exfalso; injection Hk as <-; injection Hk' as <-;
                unfold Qeq in H1, H2; simpl in H1, H2;
                first [ discriminate H1 | discriminate H2 ] ] |]); lia |]).
    lia.
  - reflexivity.
  - reflexivity.
Defined.

(** C3 as stated fails when several cells share their coordinates: on the
    2 x 2 grid with every cell at the origin, the coordinates of cell (1, 1)
    are answered with cell (0, 0).  Whatever the tie-breaking of the search,
    one query returns one cell, so three of the four cells fail. *)
Lemma round_trip_coincident_cells :
  Gridder_init flat_tx flat_tx Infinity true = Ok flat_gridder /\
  get2 flat_tx 1 1 = Some 0%Q /\
  grid_points (Scalar 0) (Scalar 0) flat_gridder = (Ok [(0, 0)], flat_gridder).
Proof. repeat split. Qed.

(** ** C8: line tracing *)

Lemma line_loop_length (n : nat) (steep : bool) (sr sc dr dc r c d : Z) :
  length (line_loop n steep sr sc dr dc r c d) = n.
Proof.
  revert r c d; induction n as [|n IH]; intros r c d; simpl; [reflexivity|].
  rewrite IH. reflexivity.
Qed.

(** The cells come in the order of the major axis: the [k]-th cell drawn by
    the loop is [k] steps from the start along it. *)
Lemma line_loop_major (n : nat) (steep : bool) (sr sc dr dc r c d : Z)
    (k : nat) (x : cell) :
  nth_error (line_loop n steep sr sc dr dc r c d) k = Some x ->
  (if steep then fst x else snd x) = (c + Z.of_nat k * sc)%Z.
Proof.
  revert r c d k; induction n as [|n IH]; intros r c d k H.
  - destruct k; discriminate.
  - destruct k as [|k]; simpl in H.
    + injection H as <-. destruct steep; simpl; lia.
    + apply IH in H. rewrite H. lia.
Qed.

Lemma traceLine_length (r0 c0 r1 c1 : Z) :
  length (traceLine r0 c0 r1 c1)
  = S (Z.to_nat (Z.max (Z.abs (r1 - r0)) (Z.abs (c1 - c0)))).
Proof.
  unfold traceLine. rewrite length_app. simpl.
  destruct (Z.ltb_spec (Z.abs (c1 - c0)) (Z.abs (r1 - r0)));
    rewrite line_loop_length; lia.
Qed.

Lemma traceLine_first (r0 c0 r1 c1 : Z) :
  hd_error (traceLine r0 c0 r1 c1) = Some (r0, c0).
Proof.
  unfold traceLine.
  destruct (Z.ltb_spec (Z.abs (c1 - c0)) (Z.abs (r1 - r0))) as [H|H].
  - destruct (Z.to_nat (Z.abs (r1 - r0))) as [|n] eqn:E; [lia|]. reflexivity.
  - destruct (Z.to_nat (Z.abs (c1 - c0))) as [|n] eqn:E; [|reflexivity].
    simpl. f_equal. f_equal; lia.
Qed.

Lemma traceLine_last (r0 c0 r1 c1 : Z) (d : cell) :
  last (traceLine r0 c0 r1 c1) d = (r1, c1).
Proof. unfold traceLine. apply last_last. Qed.

(** C8. Between a cell and itself [traceLine] returns that single cell.
    Between two distinct cells it returns a sequence that begins with the
    start cell and ends with the end cell, holds both, and has one cell per
    step along the longer axis, in order from start to end. *)
Theorem line_endpoints (r0 c0 r1 c1 : Z) :
  traceLine r0 c0 r0 c0 = [(r0, c0)] /\
  ((r0, c0) <> (r1, c1) ->
   hd_error (traceLine r0 c0 r1 c1) = Some (r0, c0) /\
   last (traceLine r0 c0 r1 c1) (r0, c0) = (r1, c1) /\
   In (r0, c0) (traceLine r0 c0 r1 c1) /\
   In (r1, c1) (traceLine r0 c0 r1 c1) /\
   2 <= length (traceLine r0 c0 r1 c1) /\
   forall k x, nth_error (traceLine r0 c0 r1 c1) k = Some x ->
     if (Z.abs (c1 - c0) <? Z.abs (r1 - r0))%Z
     then fst x = (r0 + Z.of_nat k * Z.sgn (r1 - r0))%Z
     else snd x = (c0 + Z.of_nat k * Z.sgn (c1 - c0))%Z).
Proof.
  split.
  - unfold traceLine. rewrite !Z.sub_diag. reflexivity.
  - intros Hne.
    assert (Hpos : (0 < Z.max (Z.abs (r1 - r0)) (Z.abs (c1 - c0)))%Z).
    { destruct (Z.eq_dec r0 r1) as [->|Hr]; [|lia].
      destruct (Z.eq_dec c0 c1) as [->|Hc]; [congruence|lia]. }
    pose proof (traceLine_first r0 c0 r1 c1) as Hf.
    pose proof (traceLine_last r0 c0 r1 c1 (r0, c0)) as Hl.
    pose proof (traceLine_length r0 c0 r1 c1) as Hlen.
    repeat split; auto.
    + destruct (traceLine r0 c0 r1 c1) as [|x l]; [discriminate|].
      injection Hf as ->. left. reflexivity.
    + unfold traceLine. apply in_or_app. right. left. reflexivity.
    + lia.
    + intros k x Hk. unfold traceLine in Hk.
      destruct (Z.ltb_spec (Z.abs (c1 - c0)) (Z.abs (r1 - r0))) as [H|H].
      * destruct (Nat.lt_ge_cases k (Z.to_nat (Z.abs (r1 - r0)))) as [Hlt|Hge].
        -- rewrite nth_error_app1 in Hk by (rewrite line_loop_length; exact Hlt).
           apply line_loop_major in Hk. simpl in Hk. rewrite Hk.
           destruct (Z.ltb_spec 0 (r1 - r0)); lia.
        -- rewrite nth_error_app2 in Hk by (rewrite line_loop_length; exact Hge).
           rewrite line_loop_length in Hk.
           destruct (k - Z.to_nat (Z.abs (r1 - r0))) as [|m] eqn:E;
             [|destruct m; discriminate].
           injection Hk as <-. simpl. lia.
      * destruct (Nat.lt_ge_cases k (Z.to_nat (Z.abs (c1 - c0)))) as [Hlt|Hge].
        -- rewrite nth_error_app1 in Hk by (rewrite line_loop_length; exact Hlt).
           apply line_loop_major in Hk. simpl in Hk. rewrite Hk.
           destruct (Z.ltb_spec 0 (c1 - c0)); lia.
        -- rewrite nth_error_app2 in Hk by (rewrite line_loop_length; exact Hge).
           rewrite line_loop_length in Hk.
           destruct (k - Z.to_nat (Z.abs (c1 - c0))) as [|m] eqn:E;
             [|destruct m; discriminate].
           injection Hk as <-. simpl. lia.
Qed.

(** Witness of C8: the line from (5, 2) to (0, 0). *)
Lemma line_endpoints_witness :
  hd_error (traceLine 5 2 0 0) = Some (5, 2)%Z /\
  last (traceLine 5 2 0 0) (5, 2)%Z = (0, 0)%Z /\
  In (5, 2)%Z (traceLine 5 2 0 0) /\
  In (0, 0)%Z (traceLine 5 2 0 0) /\
  2 <= length (traceLine 5 2 0 0) /\
  forall k x, nth_error (traceLine 5 2 0 0) k = Some x ->
    if (Z.abs (0 - 2) <? Z.abs (0 - 5))%Z
    then fst x = (5 + Z.of_nat k * Z.sgn (0 - 5))%Z
    else snd x = (2 + Z.of_nat k * Z.sgn (0 - 2))%Z.
Proof.
  apply (proj2 (line_endpoints 5 2 0 0)). discriminate.
Defined.

(** ** C9: queries leave the object alone *)

Lemma query_polygons_frame (xs ys : list coords) (xinds yinds : list (list nat))
    (g : Gridder) :
  snd (query_polygons xs ys xinds yinds g) = g.
Proof.
  revert ys xinds yinds; induction xs as [|x xs IH]; intros [|y ys] xinds yinds;
    simpl; try reflexivity.
  unfold bind. rewrite kdtree_query_run.
  destruct (rbind (as_points x y) _) as [xy|e]; [apply IH|reflexivity].
Qed.

(** C9. None of the public operations changes the object: after
    [grid_points], [grid_lines], [grid_polygons] and [make_empty_grid] (and
    the lookup [_kdtree_query] they share), whatever the arguments and
    whether the call returns or raises, [tx], [ty], [dx], [tpoints] and the
    tree are what they were. *)
Theorem queries_do_not_mutate (g : Gridder) :
  (forall x y, snd (_kdtree_query x y g) = g) /\
  (forall xs ys, snd (grid_points xs ys g) = g) /\
  (forall sxs sys exs eys, snd (grid_lines sxs sys exs eys g) = g) /\
  (forall xs ys fill, snd (grid_polygons xs ys fill g) = g) /\
  (forall (T : Type) (zero : T), snd (make_empty_grid zero g) = g).
Proof.
  assert (Hq : forall x y, snd (_kdtree_query x y g) = g)
    by (intros; rewrite kdtree_query_run; reflexivity).
  split; [exact Hq|]. split; [|split; [|split]].
  - intros xs ys. unfold grid_points, bind.
    specialize (Hq xs ys).
    destruct (_kdtree_query xs ys g) as [[xy|e] g']; simpl in *; exact Hq.
  - intros sxs sys exs eys. unfold grid_lines, bind.
    rewrite !kdtree_query_run.
    destruct (rbind (as_points sxs sys) _) as [s|e]; [|reflexivity].
    destruct (rbind (as_points exs eys) _) as [e'|e]; [|reflexivity].
    unfold lift. destruct (zip4_strict _ _ _ _); reflexivity.
  - intros xs ys fill. unfold grid_polygons, grid_polygons_with, bind.
    pose proof (query_polygons_frame xs ys [] [] g) as Hp.
    destruct (query_polygons xs ys [] [] g) as [[inds|e] g']; simpl in Hp;
      subst g'; [|reflexivity].
    unfold lift. destruct (zip_strict (fst inds) (snd inds)); [|reflexivity].
    destruct fill; reflexivity.
  - intros T zero. reflexivity.
Qed.

(** ** Mismatched sequences in the queries *)

Lemma kdtree_query_mismatch (g : Gridder) (xs ys : list Q) :
  length xs <> length ys ->
  _kdtree_query (Seq xs) (Seq ys) g = (Raise ValueError, g).
Proof.
  intros H. rewrite kdtree_query_run. unfold as_points, zip_coords.
  rewrite (zip_strict_mismatch xs ys H). reflexivity.
Qed.

Lemma query_polygons_count_mismatch (g : Gridder) (xs ys : list coords)
    (xinds yinds : list (list nat)) :
  length xs <> length ys ->
  exists e, fst (query_polygons xs ys xinds yinds g) = Raise e.
Proof.
  revert ys xinds yinds; induction xs as [|x xs IH]; intros [|y ys] xinds yinds H;
    simpl in *; try congruence; try (exists ValueError; reflexivity).
  unfold bind. rewrite kdtree_query_run.
  destruct (rbind (as_points x y) _) as [xy|e].
  - apply IH. congruence.
  - exists e. reflexivity.
Qed.

Lemma query_polygons_vertex_mismatch (g : Gridder) (xs ys : list coords)
    (xinds yinds : list (list nat)) (i : nat) (xl yl : list Q) :
  nth_error xs i = Some (Seq xl) -> nth_error ys i = Some (Seq yl) ->
  length xl <> length yl ->
  exists e, fst (query_polygons xs ys xinds yinds g) = Raise e.
Proof.
  revert ys xinds yinds i; induction xs as [|x xs IH];
    intros [|y ys] xinds yinds [|i] Hx Hy H; simpl in *; try discriminate.
  - injection Hx as ->. injection Hy as ->.
    unfold bind. rewrite (kdtree_query_mismatch g xl yl H).
    exists ValueError. reflexivity.
  - unfold bind. rewrite kdtree_query_run.
    destruct (rbind (as_points x y) _) as [xy|e].
    + apply (IH ys _ _ i Hx Hy H).
    + exists e. reflexivity.
Qed.

(** ** C4: pairing of line ends *)

Lemma kdtree_query_snap (g : Gridder) (xs ys : list Q) :
  constructed g -> length xs = length ys -> xs <> [] ->
  _kdtree_query (Seq xs) (Seq ys) g =
  (Ok (map fst (snap g (combine xs ys)), map snd (snap g (combine xs ys))), g).
Proof.
  intros Hc Hlen Hne.
  destruct (constructed_wf g Hc) as (Hkd & _ & Hn).
  rewrite kdtree_query_run, (as_points_seq xs ys Hlen). simpl.
  destruct (combine xs ys) as [|q0 points] eqn:E.
  { destruct xs, ys; simpl in *; congruence. }
  unfold KDTree_query. cbn [rbind snd].
  destruct (surviving_indices g (q0 :: points) Hkd) as [Hf Hs]. rewrite Hf.
  rewrite unravel_index_ok; [reflexivity|].
  apply Forall_forall. intros k Hk. apply in_map_iff in Hk as (q & <- & Hq).
  rewrite Forall_forall in Hs. destruct (Hs q Hq) as (pk & Hk & _).
  rewrite <- Hn. apply nth_error_Some. congruence.
Qed.

Lemma zip4_strict_pairs (S E : list (nat * nat)) :
  zip4_strict (map fst S) (map snd S) (map fst E) (map snd E) =
  if length S =? length E
  then Ok (map2 (fun s e => (fst s, snd s, fst e, snd e)) S E)
  else Raise ValueError.
Proof.
  revert E; induction S as [|s S IH]; intros [|e E]; simpl; try reflexivity.
  rewrite IH. destruct (length S =? length E); reflexivity.
Qed.

Lemma map_map2 {A B C D : Type} (f : C -> D) (h : A -> B -> C) (a : list A) (b : list B) :
  map f (map2 h a b) = map2 (fun x y => f (h x y)) a b.
Proof.
  revert b; induction a as [|x a IH]; intros [|y b]; simpl; try reflexivity.
  rewrite IH. reflexivity.
Qed.

(** C4 (as amended). [grid_lines] snaps the start and the end coordinates in
    two independent lookups and pairs the surviving start and end cells by
    their position in the two filtered outputs, which need not be the
    position in the input.  When as many starts as ends survive, the [k]-th
    line runs from the [k]-th surviving start to the [k]-th surviving end;
    when the numbers differ, [zip(..., strict=True)] raises [ValueError]. *)
Theorem grid_lines_pairing (g : Gridder) (sxs sys exs eys : list Q) :
  constructed g ->
  length sxs = length sys -> sxs <> [] ->
  length exs = length eys -> exs <> [] ->
  grid_lines (Seq sxs) (Seq sys) (Seq exs) (Seq eys) g =
  (if length (snap g (combine sxs sys)) =? length (snap g (combine exs eys))
   then Ok (map2 line_between (snap g (combine sxs sys)) (snap g (combine exs eys)))
   else Raise ValueError, g).
Proof.
  intros Hc Hs Hsn He Hen. unfold grid_lines, bind.
  rewrite (kdtree_query_snap g sxs sys Hc Hs Hsn).
  rewrite (kdtree_query_snap g exs eys Hc He Hen).
  unfold lift. cbn [fst snd]. rewrite zip4_strict_pairs.
  destruct (_ =? _); [|reflexivity].
  unfold ret. rewrite map_map2. reflexivity.
Qed.

(** Witness of C4: the first start and the second end survive, and the one
    line drawn joins them. *)
Lemma grid_lines_pairing_witness :
  grid_lines (Seq [6; 100]%Q) (Seq [6; 100]%Q) (Seq [100; 35]%Q) (Seq [100; 35]%Q)
             scenario_gridder
  = (Ok [[(0, 0); (1, 1); (2, 2); (3, 3)]%Z], scenario_gridder).
Proof.
  rewrite (grid_lines_pairing scenario_gridder [6; 100]%Q [6; 100]%Q
             [100; 35]%Q [100; 35]%Q constructed_scenario eq_refl);
    [reflexivity|discriminate|reflexivity|discriminate].
Defined.

(** C4 as stated fails: a line whose start is dropped while its end is kept
    is not absorbed, the call raises. *)
Lemma grid_lines_dropped_start_raises :
  snap scenario_gridder [(100, 100)%Q] = [] /\
  snap scenario_gridder [(6, 6)%Q] = [(0, 0)] /\
  grid_lines (Seq [100]%Q) (Seq [100]%Q) (Seq [6]%Q) (Seq [6]%Q) scenario_gridder
  = (Raise ValueError, scenario_gridder).
Proof. repeat split. Qed.

(** *** [grid_lines] on well-formed input; the default threshold *)

Lemma near_infinity (data : list point) (q : point) :
  data <> [] -> near Infinity data q = true.
Proof. destruct data; [congruence|reflexivity]. Qed.

Lemma filter_all {A : Type} (f : A -> bool) (l : list A) :
  (forall a, In a l -> f a = true) -> filter f l = l.
Proof.
  induction l as [|a l IH]; simpl; intros H; [reflexivity|].
  rewrite (H a) by auto. rewrite IH by auto. reflexivity.
Qed.

Lemma filter_no_longer {A : Type} (f : A -> bool) (l : list A) :
  length (filter f l) <= length l.
Proof.
  induction l as [|a l IH]; simpl; [lia|]. destruct (f a); simpl; lia.
Qed.

Lemma near_all_infinity (g : Gridder) (points : list point) :
  constructed g -> dx g = Infinity ->
  filter (near (dx g) (tpoints g)) points = points.
Proof.
  intros Hc Hdx. destruct (constructed_wf g Hc) as (_ & Hne & _).
  apply filter_all. intros q _. rewrite Hdx. apply near_infinity. exact Hne.
Qed.

Lemma grid_lines_run (g : Gridder) (sxs sys exs eys : list Q) :
  constructed g ->
  length sxs = length sys -> sxs <> [] ->
  length exs = length eys -> exs <> [] ->
  grid_lines (Seq sxs) (Seq sys) (Seq exs) (Seq eys) g =
  (if length (snap g (combine sxs sys)) =? length (snap g (combine exs eys))
   then Ok (map2 line_between (snap g (combine sxs sys)) (snap g (combine exs eys)))
   else Raise ValueError, g).
Proof.
  intros Hc Hs Hsn He Hen. unfold grid_lines, bind.
  rewrite (kdtree_query_snap g sxs sys Hc Hs Hsn).
  rewrite (kdtree_query_snap g exs eys Hc He Hen).
  unfold lift. cbn [fst snd]. rewrite zip4_strict_pairs.
  destruct (_ =? _); [|reflexivity].
  unfold ret. rewrite map_map2. reflexivity.
Qed.

Lemma snap_all (g : Gridder) (points : list point) :
  constructed g -> dx g = Infinity ->
  exists ks, snap g points = map (cell_of g) ks /\ Forall2 (snaps_to g) points ks.
Proof.
  intros Hc Hdx. destruct (constructed_wf g Hc) as (Hkd & _ & _).
  destruct (surviving_indices g points Hkd) as [_ Hs].
  unfold snap. rewrite (near_all_infinity g points Hc Hdx) in *.
  eexists. split; [reflexivity|].
  induction Hs; simpl; constructor; auto.
Qed.

(** ** C5: mismatched inputs *)

Lemma size_like_rect (a : array_like) :
  rectangular_like a = true ->
  size_like a = fst (shape_like a) * snd (shape_like a).
Proof. destruct a as [z|v]; simpl; apply length_ravel_rect. Qed.

(** Lines 36-46 keep the number of entries. *)
Lemma centered_grids_size (tx0 ty0 x y : array_like) (centered : bool) :
  centered_grids tx0 ty0 centered = Ok (x, y) ->
  size_like x = size_like tx0 /\ size_like y = size_like ty0.
Proof.
  intros H.
  destruct (centered_grids_shape _ _ _ _ _ H) as (Rx' & Ry' & Sx & Sy).
  destruct (centered_grids_ok _ _ _ _ _ H) as (Rx & Ry & _).
  rewrite !size_like_rect by assumption. rewrite Sx, Sy. auto.
Qed.

Lemma snap_length_infinity (g : Gridder) (points : list point) :
  constructed g -> dx g = Infinity -> length (snap g points) = length points.
Proof.
  intros Hc Hdx. unfold snap. rewrite (near_all_infinity g points Hc Hdx).
  rewrite !length_map. reflexivity.
Qed.

(** C5 (as amended). Constructing a [Gridder] from [tx] and [ty] with
    different numbers of entries raises an exception: the [ValueError] of
    the strict [zip] of line 52, unless the centering transform of
    [centered=False] has raised before.  Shapes are not compared: grids
    with equally many entries, at least one and all finite, are accepted
    whenever lines 36-46 go through, which they do with [centered=True]
    and, with [centered=False], for float arrays of at least two columns
    ([tx]) and two rows ([ty]).  Every query given x and y sequences of
    different lengths raises an exception and returns nothing truncated:
    the lookup and [grid_points] ([ValueError], the object unchanged),
    [grid_lines] for the start or the end coordinates, and [grid_polygons]
    for the two lists of polygons or the vertices of one polygon.  The
    start points and the end points of [grid_lines] are compared only
    after snapping: the call raises [ValueError] exactly when the numbers
    of snapped starts and snapped ends differ, hence for every pair of
    different lengths under the default threshold. *)
Theorem mismatch_raises :
  (forall tx0 ty0 dx0 centered,
     size_like tx0 <> size_like ty0 ->
     exists e, __init__ tx0 ty0 dx0 centered = Raise e /\
               (centered = true -> e = ValueError) /\
               (forall x y, centered_grids tx0 ty0 centered = Ok (x, y) ->
                  e = ValueError)) /\
  (forall tx0 ty0 dx0 centered,
     rectangular_like tx0 = true -> rectangular_like ty0 = true ->
     size_like tx0 = size_like ty0 -> size_like tx0 <> 0 ->
     centered = true \/
     (exists a b, tx0 = FloatArray a /\ ty0 = FloatArray b /\
                  2 <= snd (shape a) /\ 2 <= fst (shape b)) ->
     exists x y,
       centered_grids tx0 ty0 centered = Ok (x, y) /\
       forall kx ky,
         finite_values (as_float64 x) = Ok kx ->
         finite_values (as_float64 y) = Ok ky ->
         exists g, __init__ tx0 ty0 dx0 centered = Ok g) /\
  (forall g xs ys, length xs <> length ys ->
     _kdtree_query (Seq xs) (Seq ys) g = (Raise ValueError, g) /\
     grid_points (Seq xs) (Seq ys) g = (Raise ValueError, g)) /\
  (forall g sxs sys exs eys,
     length sxs <> length sys \/ length exs <> length eys ->
     exists e, fst (grid_lines (Seq sxs) (Seq sys) (Seq exs) (Seq eys) g) = Raise e) /\
  (forall g xs ys fill,
     length xs <> length ys \/
     (exists i xl yl, nth_error xs i = Some (Seq xl) /\
                      nth_error ys i = Some (Seq yl) /\ length xl <> length yl) ->
     exists e, fst (grid_polygons xs ys fill g) = Raise e) /\
  (forall g sxs sys exs eys,
     constructed g ->
     length sxs = length sys -> sxs <> [] ->
     length exs = length eys -> exs <> [] ->
     (grid_lines (Seq sxs) (Seq sys) (Seq exs) (Seq eys) g = (Raise ValueError, g) <->
      length (snap g (combine sxs sys)) <> length (snap g (combine exs eys))) /\
     (length (snap g (combine sxs sys)) = length (snap g (combine exs eys)) ->
      exists lines,
        grid_lines (Seq sxs) (Seq sys) (Seq exs) (Seq eys) g = (Ok lines, g)) /\
     (dx g = Infinity -> length sxs <> length exs ->
      grid_lines (Seq sxs) (Seq sys) (Seq exs) (Seq eys) g = (Raise ValueError, g))).
Proof.
  split; [|split; [|split; [|split; [|split]]]].
  - intros tx0 ty0 dx0 centered H.
    destruct (__init__ tx0 ty0 dx0 centered) as [g|e] eqn:E.
    + exfalso.
      destruct (init_ok _ _ _ _ _ E) as (x & y & kx & ky & Hxy & _ & _ & _ & _ & Hs & _).
      destruct (centered_grids_size _ _ _ _ _ Hxy) as [Hx Hy]. congruence.
    + exists e. split; [reflexivity|]. split.
      * intros ->.
        destruct (centered_grids tx0 ty0 true) as [[x y]|e'] eqn:Exy.
        -- exact (init_error_late _ _ _ _ _ _ _ Exy E).
        -- unfold __init__ in E. rewrite Exy in E. simpl in E.
           injection E as <-. exact (centered_grids_error _ _ _ Exy).
      * intros x y Hxy. exact (init_error_late _ _ _ _ _ _ _ Hxy E).
  - intros tx0 ty0 dx0 centered Rx Ry Hs Hne Hc.
    destruct (centered_grids_total tx0 ty0 centered Rx Ry Hc) as (x & y & Hxy).
    exists x, y. split; [exact Hxy|]. intros kx ky Hkx Hky.
    destruct (centered_grids_size _ _ _ _ _ Hxy) as [Hx Hy].
    destruct (init_accepts tx0 ty0 x y dx0 centered kx ky Hxy Hkx Hky)
      as (g & Hg & _); [congruence|congruence|].
    exists g. exact Hg.
  - intros g xs ys H. split; [exact (kdtree_query_mismatch g xs ys H)|].
    unfold grid_points, bind. rewrite (kdtree_query_mismatch g xs ys H).
    reflexivity.
  - intros g sxs sys exs eys H. unfold grid_lines, bind.
    destruct H as [H|H].
    + rewrite (kdtree_query_mismatch g sxs sys H). exists ValueError. reflexivity.
    + rewrite (kdtree_query_run (Seq sxs)).
      destruct (rbind (as_points (Seq sxs) (Seq sys)) _) as [s|e];
        [|exists e; reflexivity].
      rewrite (kdtree_query_mismatch g exs eys H). exists ValueError. reflexivity.
  - intros g xs ys fill H. unfold grid_polygons, grid_polygons_with, bind.
    assert (Hq : exists e, fst (query_polygons xs ys [] [] g) = Raise e).
    { destruct H as [H|(i & xl & yl & Hx & Hy & H)].
      - exact (query_polygons_count_mismatch g xs ys [] [] H).
      - exact (query_polygons_vertex_mismatch g xs ys [] [] i xl yl Hx Hy H). }
    destruct Hq as [e Hq].
    destruct (query_polygons xs ys [] [] g) as [[inds|e'] g']; simpl in Hq;
      [discriminate|].
    exists e'. reflexivity.
  - intros g sxs sys exs eys Hc Hs Hsn He Hen.
    rewrite (grid_lines_run g sxs sys exs eys Hc Hs Hsn He Hen).
    destruct (Nat.eqb_spec (length (snap g (combine sxs sys)))
                           (length (snap g (combine exs eys)))) as [Heq|Hneq].
    + split; [split; [discriminate|congruence]|].
      split; [eauto|]. intros Hdx Hl. exfalso.
      rewrite !(snap_length_infinity g _ Hc Hdx) in Heq.
      unfold point in Heq. rewrite !length_combine in Heq.
      lia.
    + split; [split; auto|]. split; [congruence|]. reflexivity.
Qed.

(** Witness of C5. *)
Lemma mismatch_raises_witness :
  (exists e, __init__ (FloatArray wide_corners) (FloatArray tenth_ty) Infinity true
             = Raise e /\ e = ValueError) /\
  grid_points (Seq [1; 2]%Q) (Seq [1]%Q) scenario_gridder
  = (Raise ValueError, scenario_gridder) /\
  grid_lines (Seq [6; 6]%Q) (Seq [6; 6]%Q) (Seq [6]%Q) (Seq [6]%Q) default_gridder
  = (Raise ValueError, default_gridder).
Proof.
  destruct mismatch_raises as (Hinit & _ & Hquery & _ & _ & Hlines). split; [|split].
  - destruct (Hinit (FloatArray wide_corners) (FloatArray tenth_ty) Infinity true)
      as (e & He & Hv & _); [discriminate|].
    exists e. split; [exact He|exact (Hv eq_refl)].
  - apply (Hquery scenario_gridder [1; 2]%Q [1]%Q). discriminate.
  - apply (Hlines default_gridder [6; 6]%Q [6; 6]%Q [6]%Q [6]%Q);
      first [reflexivity | discriminate | exact constructed_default].
Defined.

(** C5 as stated fails in three ways.  Grids of different shapes but
    equally many entries, here (2, 3) and (3, 2), are accepted with either
    value of [centered].  Start and end coordinates of different lengths
    are accepted by [grid_lines] when dropped points make up for the
    difference: one start, and two ends of which the first is too far from
    the grid.  And the error for a mismatch need not be about the mismatch:
    with [centered=False], grids of shapes (2, 1) and (3, 1) raise the
    [IndexError] of the centering transform, as the matching shapes (2, 1)
    and (2, 1) do, and integer grids raise its [TypeError]. *)
Lemma mismatch_not_always_reported :
  (shape wide_corners <> shape tall_rows /\
   (exists g, __init__ (FloatArray wide_corners) (FloatArray tall_rows) Infinity true
              = Ok g) /\
   (exists g, __init__ (FloatArray wide_corners) (FloatArray tall_rows) Infinity false
              = Ok g)) /\
  (length [6]%Q <> length [100; 35]%Q /\
   exists lines,
     grid_lines (Seq [6]%Q) (Seq [6]%Q) (Seq [100; 35]%Q) (Seq [100; 35]%Q)
                scenario_gridder
     = (Ok lines, scenario_gridder) /\ length lines = 1) /\
  (__init__ (FloatArray [[0]; [1]]%float) (FloatArray [[0]; [1]; [2]]%float)
            Infinity false = Raise IndexError /\
   __init__ (FloatArray [[0]; [1]]%float) (FloatArray [[0]; [1]]%float)
            Infinity false = Raise IndexError /\
   __init__ (IntArray [[0; 1]; [0; 1]]%Z) (IntArray [[0; 0; 0]; [1; 1; 1]; [2; 2; 2]]%Z)
            Infinity false = Raise TypeError).
Proof.
  split; [|split].
  - split; [discriminate|]. split; eexists; vm_compute; reflexivity.
  - split; [discriminate|]. eexists. split; vm_compute; reflexivity.
  - repeat split; vm_compute; reflexivity.
Qed.

(** ** The cells of a traced line stay between its ends *)

Lemma minor_steps_spec (fuel : nat) (sr dc r d : Z) :
  exists m, (0 <= m)%Z /\
    minor_steps fuel sr dc r d = ((r + m * sr)%Z, (d - 2 * dc * m)%Z) /\
    (m = 0%Z \/ (0 <= d - 2 * dc * (m - 1))%Z).
Proof.
  revert r d; induction fuel as [|f IH]; intros r d; cbn [minor_steps].
  - exists 0%Z. repeat split; [lia|f_equal; lia|auto].
  - destruct (Z.leb_spec 0 d) as [Hd|Hd].
    + destruct (IH (r + sr)%Z (d - 2 * dc)%Z) as (m & Hm & E & Hc).
      exists (m + 1)%Z. repeat split; [lia|rewrite E; f_equal; lia|].
      right. destruct Hc as [->|Hc]; lia.
    + exists 0%Z. repeat split; [lia|f_equal; lia|auto].
Qed.

(** The fuel given by [line_loop] is enough: when the major extent [dc] is
    positive the inner loop stops because its condition fails. *)
Lemma minor_steps_exit (fuel : nat) (sr dc r d : Z) :
  (1 <= dc)%Z -> (d < Z.of_nat fuel)%Z ->
  (snd (minor_steps fuel sr dc r d) < 0)%Z.
Proof.
  intros Hdc. revert r d; induction fuel as [|f IH]; intros r d Hd;
    cbn [minor_steps].
  - simpl. lia.
  - destruct (Z.leb_spec 0 d) as [H0|H0].
    + apply IH. lia.
    + simpl. exact H0.
Qed.

Lemma line_loop_cells (n : nat) (steep : bool) (sr sc dr dc r0 c0 : Z) :
  (0 <= dr)%Z ->
  forall (r c d i k : Z) (x : cell),
    (0 <= k)%Z -> (0 <= i)%Z -> (i + Z.of_nat n <= dc)%Z ->
    r = (r0 + k * sr)%Z -> c = (c0 + i * sc)%Z ->
    d = (2 * dr * (i + 1) - dc * (2 * k + 1))%Z ->
    (k = 0%Z \/ (dc * (2 * k - 1) <= 2 * dr * i)%Z) ->
    In x (line_loop n steep sr sc dr dc r c d) ->
    exists i' k', (0 <= k' <= dr)%Z /\ (0 <= i' < dc)%Z /\
      x = if steep then ((c0 + i' * sc)%Z, (r0 + k' * sr)%Z)
          else ((r0 + k' * sr)%Z, (c0 + i' * sc)%Z).
Proof.
  intros Hdr. induction n as [|n IH]; intros r c d i k x Hk Hi Hn Hr Hc Hd Hinv Hin.
  - contradiction.
  - cbn [line_loop In] in Hin. destruct Hin as [Hx|Hin].
    + exists i, k. split; [|split].
      * split; [exact Hk|]. destruct Hinv as [->|Hinv]; [lia|]. nia.
      * lia.
      * subst r c. destruct steep; auto.
    + destruct (minor_steps_spec (Z.to_nat (d + 1)) sr dc r d) as (m & Hm & E & Hm').
      rewrite E in Hin. cbn [fst snd] in Hin.
      apply (IH _ _ _ (i + 1)%Z (k + m)%Z x) in Hin; auto; try lia;
        try (subst; ring).
Qed.

Lemma traceLine_between (r0 c0 r1 c1 : Z) (x : cell) :
  In x (traceLine r0 c0 r1 c1) ->
  (Z.min r0 r1 <= fst x <= Z.max r0 r1)%Z /\
  (Z.min c0 c1 <= snd x <= Z.max c0 c1)%Z.
Proof.
  unfold traceLine. intros H. apply in_app_or in H as [H|[<-|[]]];
    [|simpl; lia].
  destruct (Z.ltb_spec (Z.abs (c1 - c0)) (Z.abs (r1 - r0))) as [Hs|Hs].
  - apply (line_loop_cells _ true _ _ _ _ c0 r0 (Z.abs_nonneg _) _ _ _ 0%Z 0%Z)
      in H; auto; try lia.
    destruct H as (i & k & Hk & Hi & ->). simpl.
    destruct (Z.ltb_spec 0 (c1 - c0)); destruct (Z.ltb_spec 0 (r1 - r0)); lia.
  - apply (line_loop_cells _ false _ _ _ _ r0 c0 (Z.abs_nonneg _) _ _ _ 0%Z 0%Z)
      in H; auto; try lia.
    destruct H as (i & k & Hk & Hi & ->). simpl.
    destruct (Z.ltb_spec 0 (c1 - c0)); destruct (Z.ltb_spec 0 (r1 - r0)); lia.
Qed.

(** ** Polygons *)

Lemma in_zrange (lo hi z : Z) : In z (zrange lo hi) <-> (lo <= z <= hi)%Z.
Proof.
  unfold zrange. rewrite in_map_iff. split.
  - intros (k & <- & Hk). apply in_seq in Hk. lia.
  - intros H. exists (Z.to_nat (z - lo)). split; [lia|].
    apply in_seq. lia.
Qed.

Lemma zmin_le (l : list Z) (z : Z) : In z l -> (zmin l <= z)%Z.
Proof.
  unfold zmin. generalize (hd 0%Z l). intros d.
  induction l as [|a l IH]; simpl; [contradiction|].
  intros [->|H]; [lia|]. specialize (IH H). lia.
Qed.

Lemma zmax_ge (l : list Z) (z : Z) : In z l -> (z <= zmax l)%Z.
Proof.
  unfold zmax. generalize (hd 0%Z l). intros d.
  induction l as [|a l IH]; simpl; [contradiction|].
  intros [->|H]; [lia|]. specialize (IH H). lia.
Qed.

Lemma edges_ends (vs : list cell) (a b : cell) :
  In (a, b) (edges vs) -> In a vs /\ In b vs.
Proof.
  unfold edges. destruct vs as [|v0 vs']; [contradiction|].
  intros H. split.
  - exact (in_combine_l _ _ _ _ H).
  - apply in_combine_r in H. apply in_app_or in H as [H|[<-|[]]].
    + right. exact H.
    + left. reflexivity.
Qed.

Lemma edges_from (vs : list cell) (a : cell) :
  In a vs -> exists b, In (a, b) (edges vs).
Proof.
  unfold edges. destruct vs as [|v0 vs']; [contradiction|].
  intros H. apply In_nth_error in H as [i Hi].
  assert (Hlt : i < length (tl (v0 :: vs') ++ [v0])).
  { rewrite length_app. simpl.
    assert (i < length (v0 :: vs')) by (apply nth_error_Some; congruence).
    simpl in *. lia. }
  destruct (nth_error (tl (v0 :: vs') ++ [v0]) i) as [b|] eqn:Eb;
    [|apply nth_error_None in Eb; lia].
  exists b. eapply nth_error_In. apply nth_error_combine_some; eauto.
Qed.

Lemma on_segment_start (a b : cell) : on_segment a (a, b) = true.
Proof.
  unfold on_segment, cross. simpl.
  rewrite !andb_true_iff. repeat split;
    first [apply Z.eqb_eq; lia | apply Z.leb_le; lia].
Qed.

Lemma vertex_on_boundary (vs : list cell) (v : cell) :
  In v vs -> on_or_inside vs v = true.
Proof.
  intros H. unfold on_or_inside. apply orb_true_iff. left.
  apply existsb_exists. destruct (edges_from vs v H) as [b Hb].
  exists (v, b). split; [exact Hb|apply on_segment_start].
Qed.

Lemma map_fst_combine {A B : Type} (a : list A) (b : list B) :
  length a = length b -> map fst (combine a b) = a /\ map snd (combine a b) = b.
Proof.
  revert b; induction a as [|x a IH]; intros [|y b] H; simpl in *;
    try discriminate; auto.
  destruct (IH b) as [-> ->]; [congruence|auto].
Qed.

(** The filled cells are the cells of the bounding box on or inside the
    polygon. *)
Lemma in_fillPolygon (rs cs : list Z) (f : list cell) (x : cell) :
  3 <= length (combine rs cs) -> fillPolygon rs cs = Ok f ->
  (In x f <->
   on_or_inside (combine rs cs) x = true /\
   (zmin rs <= fst x <= zmax rs)%Z /\ (zmin cs <= snd x <= zmax cs)%Z).
Proof.
  intros H3 H. unfold fillPolygon in H.
  destruct (Nat.ltb_spec (length (combine rs cs)) 3) as [Hlt|_]; [lia|].
  injection H as <-. rewrite filter_In, in_flat_map. split.
  - intros [(r & Hr & Hx) Ho]. apply in_map_iff in Hx as (c & <- & Hc).
    apply in_zrange in Hr, Hc. auto.
  - intros (Ho & Hr & Hc). split; [|exact Ho].
    exists (fst x). split; [apply in_zrange; exact Hr|].
    apply in_map_iff. exists (snd x). split; [destruct x; reflexivity|].
    apply in_zrange. exact Hc.
Qed.

Lemma in_tracePerimeter (rs cs : list Z) (p : list cell) (x : cell) :
  3 <= length (combine rs cs) -> tracePerimeter rs cs = Ok p ->
  (In x p <->
   exists a b, In (a, b) (edges (combine rs cs)) /\
               In x (traceLine (fst a) (snd a) (fst b) (snd b))).
Proof.
  intros H3 H. unfold tracePerimeter in H.
  destruct (Nat.ltb_spec (length (combine rs cs)) 3) as [Hlt|_]; [lia|].
  injection H as <-.
  rewrite in_flat_map. split.
  - intros ([a b] & He & Hx). exists a, b. auto.
  - intros (a & b & He & Hx). exists (a, b). auto.
Qed.

(** Fill against perimeter for one polygon of at least three vertices. *)
Lemma fill_perimeter_cells (rs cs : list Z) (f p : list cell) :
  length rs = length cs -> 3 <= length rs ->
  fillPolygon rs cs = Ok f -> tracePerimeter rs cs = Ok p ->
  (forall v, In v (combine rs cs) -> In v p /\ In v f) /\
  (forall x, In x p -> (In x f <-> on_or_inside (combine rs cs) x = true)).
Proof.
  intros Hlen H3 Hf Hp.
  assert (H3' : 3 <= length (combine rs cs))
    by (rewrite length_combine; lia).
  destruct (map_fst_combine rs cs Hlen) as [Hrs Hcs].
  assert (Hbox : forall v, In v (combine rs cs) ->
            (zmin rs <= fst v <= zmax rs)%Z /\ (zmin cs <= snd v <= zmax cs)%Z).
  { intros v Hv.
    assert (In (fst v) rs) by (rewrite <- Hrs; apply in_map; exact Hv).
    assert (In (snd v) cs) by (rewrite <- Hcs; apply in_map; exact Hv).
    repeat split; auto using zmin_le, zmax_ge. }
  split.
  - intros v Hv. split.
    + apply (in_tracePerimeter rs cs p v H3' Hp).
      destruct (edges_from _ v Hv) as [b Hb]. exists v, b. split; [exact Hb|].
      pose proof (traceLine_first (fst v) (snd v) (fst b) (snd b)) as Hh.
      destruct (traceLine _ _ _ _) as [|y l]; [discriminate|].
      injection Hh as ->. left. destruct v; reflexivity.
    + apply (in_fillPolygon rs cs f v H3' Hf). split.
      * apply vertex_on_boundary. exact Hv.
      * apply Hbox. exact Hv.
  - intros x Hx. rewrite (in_fillPolygon rs cs f x H3' Hf). split; [tauto|].
    intros Ho. split; [exact Ho|].
    apply (in_tracePerimeter rs cs p x H3' Hp) in Hx as (a & b & He & Hx).
    apply edges_ends in He as [Ha Hb].
    apply traceLine_between in Hx.
    apply Hbox in Ha, Hb. lia.
Qed.

(** *** Running [grid_polygons] *)

Lemma combine_map2 {A B C D : Type} (f : A -> B -> C) (h : A -> B -> D)
    (a : list A) (b : list B) :
  combine (map2 f a b) (map2 h a b) = map2 (fun x y => (f x y, h x y)) a b.
Proof.
  revert b; induction a as [|x a IH]; intros [|y b]; simpl; try reflexivity.
  rewrite IH. reflexivity.
Qed.

Lemma query_polygons_value (g : Gridder) (xss yss : list (list Q))
    (xinds yinds : list (list nat)) :
  constructed g -> Forall2 well_formed_polygon xss yss ->
  query_polygons (map Seq xss) (map Seq yss) xinds yinds g =
  (Ok (xinds ++ map2 (fun xl yl => map fst (snap g (combine xl yl))) xss yss,
       yinds ++ map2 (fun xl yl => map snd (snap g (combine xl yl))) xss yss), g).
Proof.
  intros Hc H. revert xinds yinds.
  induction H as [|xl yl xss yss [Hlen Hne] _ IH]; intros xinds yinds; simpl.
  - unfold ret. rewrite !app_nil_r. reflexivity.
  - unfold bind. rewrite (kdtree_query_snap g xl yl Hc Hlen Hne).
    cbn [fst snd]. rewrite IH, <- !app_assoc. reflexivity.
Qed.

Lemma draw_polygons_total (draw : list Z -> list Z -> result (list cell))
    (l : list (list nat * list nat)) (polys : list (list cell)) :
  (forall rs cs, exists c, draw rs cs = Ok c) ->
  exists out,
    draw_polygons draw l polys = Ok (polys ++ out) /\
    Forall2 (fun xy c => draw (map Z.of_nat (fst xy)) (map Z.of_nat (snd xy)) = Ok c)
            l out.
Proof.
  intros Hd. revert polys; induction l as [|xy l IH]; intros polys; simpl.
  - exists []. rewrite app_nil_r. split; [reflexivity|constructor].
  - destruct (Hd (map Z.of_nat (fst xy)) (map Z.of_nat (snd xy))) as [c Hc].
    rewrite Hc. destruct (IH (polys ++ [c])) as (out & E & Hf).
    exists (c :: out). rewrite E, <- app_assoc. split; [reflexivity|].
    constructor; assumption.
Qed.

Lemma fillPolygon_total (rs cs : list Z) : exists c, fillPolygon rs cs = Ok c.
Proof. unfold fillPolygon. destruct (_ <? 3); eexists; reflexivity. Qed.

Lemma tracePerimeter_total (rs cs : list Z) : exists c, tracePerimeter rs cs = Ok c.
Proof. unfold tracePerimeter. destruct (_ <? 3); eexists; reflexivity. Qed.

Lemma Forall2_map2_l {A B C D : Type} (h : A -> B -> C) (P : C -> D -> Prop)
    (a : list A) (b : list B) (out : list D) :
  length a = length b ->
  Forall2 P (map2 h a b) out ->
  Forall2 (fun xy c => P (h (fst xy) (snd xy)) c) (combine a b) out.
Proof.
  revert b out; induction a as [|x a IH]; intros [|y b] out Hlen H; simpl in *;
    try discriminate.
  - inversion H. constructor.
  - inversion H as [|u c l out' Hu Hl]; subst. constructor; [exact Hu|].
    apply IH; [congruence|exact Hl].
Qed.

Lemma snapped_vertices_combine (g : Gridder) (xl yl : list Q) :
  combine (map Z.of_nat (map fst (snap g (combine xl yl))))
          (map Z.of_nat (map snd (snap g (combine xl yl))))
  = snapped_vertices g xl yl.
Proof.
  unfold snapped_vertices. induction (snap g (combine xl yl)) as [|rc l IH];
    simpl; [reflexivity|]. rewrite IH. reflexivity.
Qed.

Lemma draw_polygons_skip (draw : list Z -> list Z -> result (list cell))
    (l : list (list nat * list nat)) (polys : list (list cell)) :
  (forall xy e, In xy l ->
     draw (map Z.of_nat (fst xy)) (map Z.of_nat (snd xy)) = Raise e ->
     e = ValueError) ->
  draw_polygons draw l polys =
  Ok (polys ++ flat_map (fun xy =>
                 match draw (map Z.of_nat (fst xy)) (map Z.of_nat (snd xy)) with
                 | Ok p => [p]
                 | Raise _ => []
                 end) l).
Proof.
  revert polys; induction l as [|xy l IH]; intros polys H; simpl.
  - rewrite app_nil_r. reflexivity.
  - destruct (draw (map Z.of_nat (fst xy)) (map Z.of_nat (snd xy))) as [p|e] eqn:E.
    + rewrite IH by (intros; eapply H; eauto; right; assumption).
      rewrite <- app_assoc. reflexivity.
    + rewrite (H xy e (or_introl eq_refl) E).
      rewrite IH by (intros; eapply H; eauto; right; assumption).
      reflexivity.
Qed.

Lemma draw_polygons_propagate (draw : list Z -> list Z -> result (list cell))
    (l1 l2 : list (list nat * list nat)) (xy : list nat * list nat) (e : exn)
    (polys : list (list cell)) :
  (forall xy' e', In xy' l1 ->
     draw (map Z.of_nat (fst xy')) (map Z.of_nat (snd xy')) = Raise e' ->
     e' = ValueError) ->
  draw (map Z.of_nat (fst xy)) (map Z.of_nat (snd xy)) = Raise e ->
  e <> ValueError ->
  draw_polygons draw (l1 ++ xy :: l2) polys = Raise e.
Proof.
  intros H1 He Hne. revert polys.
  induction l1 as [|xy1 l1 IH]; intros polys; simpl.
  - rewrite He. destruct e; congruence.
  - destruct (draw (map Z.of_nat (fst xy1)) (map Z.of_nat (snd xy1))) as [p|e1] eqn:E.
    + apply IH. intros; eapply H1; eauto; right; assumption.
    + rewrite (H1 xy1 e1 (or_introl eq_refl) E).
      apply IH. intros; eapply H1; eauto; right; assumption.
Qed.

(** [grid_polygons] on well-formed polygons: one cell list per polygon, the
    drawing of its snapped vertices. *)
Lemma grid_polygons_value (g : Gridder) (xss yss : list (list Q)) (fill : bool) :
  constructed g -> Forall2 well_formed_polygon xss yss ->
  exists out,
    grid_polygons (map Seq xss) (map Seq yss) fill g = (Ok out, g) /\
    Forall2 (fun xy c =>
               (if fill then fillPolygon else tracePerimeter)
                 (map Z.of_nat (map fst (snap g (combine (fst xy) (snd xy)))))
                 (map Z.of_nat (map snd (snap g (combine (fst xy) (snd xy)))))
               = Ok c)
            (combine xss yss) out.
Proof.
  intros Hc H. unfold grid_polygons, grid_polygons_with, bind.
  rewrite (query_polygons_value g xss yss [] [] Hc H). cbn [app fst snd].
  unfold lift at 1.
  rewrite zip_strict_same_length
    by (rewrite !length_map2; reflexivity).
  rewrite combine_map2.
  pose proof (Forall2_length_eq H) as Hlen.
  destruct (draw_polygons_total (if fill then fillPolygon else tracePerimeter)
              (map2 (fun xl yl => (map fst (snap g (combine xl yl)),
                                   map snd (snap g (combine xl yl)))) xss yss) [])
    as (out & E & Hf).
  { destruct fill; [exact fillPolygon_total|exact tracePerimeter_total]. }
  exists out. split.
  - destruct fill; unfold lift; rewrite E; reflexivity.
  - apply (Forall2_map2_l _ _ xss yss out Hlen) in Hf. exact Hf.
Qed.

(** ** C6: polygons with too few snapped vertices *)

Lemma flat_map_map2 {A B C D : Type} (f : C -> list D) (h : A -> B -> C)
    (a : list A) (b : list B) :
  flat_map f (map2 h a b) = flat_map (fun xy => f (h (fst xy) (snd xy))) (combine a b).
Proof.
  revert b; induction a as [|x a IH]; intros [|y b]; simpl; try reflexivity.
  rewrite IH. reflexivity.
Qed.

(** [grid_polygons] with any pair of drawing routines that raise nothing
    but [ValueError]: the polygons are drawn in order, those refused are
    left out. *)
Lemma grid_polygons_with_value
    (draw_fill draw_perimeter : list Z -> list Z -> result (list cell))
    (g : Gridder) (xss yss : list (list Q)) (fill : bool) :
  constructed g -> Forall2 well_formed_polygon xss yss ->
  (forall rs cs e,
     (if fill then draw_fill else draw_perimeter) rs cs = Raise e -> e = ValueError) ->
  grid_polygons_with draw_fill draw_perimeter (map Seq xss) (map Seq yss) fill g =
  (Ok (flat_map (drawn (if fill then draw_fill else draw_perimeter) g)
                (combine xss yss)), g).
Proof.
  intros Hc H Hd. unfold grid_polygons_with, bind.
  rewrite (query_polygons_value g xss yss [] [] Hc H). cbn [app fst snd].
  unfold lift at 1.
  rewrite zip_strict_same_length by (rewrite !length_map2; reflexivity).
  rewrite combine_map2.
  assert (E : forall draw, (forall rs cs e, draw rs cs = Raise e -> e = ValueError) ->
            draw_polygons draw
              (map2 (fun xl yl => (map fst (snap g (combine xl yl)),
                                   map snd (snap g (combine xl yl)))) xss yss) []
            = Ok (flat_map (drawn draw g) (combine xss yss))).
  { intros draw Hdraw. rewrite draw_polygons_skip by (intros; eapply Hdraw; eauto).
    cbn [app]. rewrite flat_map_map2. reflexivity. }
  destruct fill; unfold lift; rewrite (E _ Hd); reflexivity.
Qed.

Lemma snapped_vertices_length (g : Gridder) (xl yl : list Q) :
  length (combine (map Z.of_nat (map fst (snap g (combine xl yl))))
                  (map Z.of_nat (map snd (snap g (combine xl yl)))))
  = length (snapped_vertices g xl yl).
Proof. rewrite snapped_vertices_combine. reflexivity. Qed.

(** C6 (as amended). For polygons each given with at least one vertex (two
    non-empty coordinate sequences of one length), [grid_polygons] raises
    nothing, and a polygon left with fewer than three vertices after
    snapping contributes no cells: it is skipped, not reported.  This holds
    with any drawing routine that raises nothing but [ValueError] and
    returns no cells for fewer than three vertices, whether it refuses such
    a polygon with [ValueError], which [grid_polygons] catches, or returns
    an empty cell list; it holds for the two routines modelled here, with
    [fill] and without, which return the empty list. *)
Theorem degenerate_polygons_skipped (g : Gridder) (xss yss : list (list Q))
    (fill : bool) :
  constructed g -> Forall2 well_formed_polygon xss yss ->
  (forall draw_fill draw_perimeter : list Z -> list Z -> result (list cell),
     (forall rs cs e,
        (if fill then draw_fill else draw_perimeter) rs cs = Raise e ->
        e = ValueError) ->
     (forall rs cs p,
        length (combine rs cs) < 3 ->
        (if fill then draw_fill else draw_perimeter) rs cs = Ok p -> p = []) ->
     grid_polygons_with draw_fill draw_perimeter (map Seq xss) (map Seq yss) fill g =
     (Ok (flat_map (drawn (if fill then draw_fill else draw_perimeter) g)
                   (combine xss yss)), g) /\
     forall xy, In xy (combine xss yss) ->
       length (snapped_vertices g (fst xy) (snd xy)) < 3 ->
       concat (drawn (if fill then draw_fill else draw_perimeter) g xy) = []) /\
  (grid_polygons (map Seq xss) (map Seq yss) fill g =
   (Ok (flat_map (drawn (if fill then fillPolygon else tracePerimeter) g)
                 (combine xss yss)), g) /\
   forall xy, In xy (combine xss yss) ->
     length (snapped_vertices g (fst xy) (snd xy)) < 3 ->
     drawn (if fill then fillPolygon else tracePerimeter) g xy = [[]]).
Proof.
  intros Hc H. split.
  - intros draw_fill draw_perimeter Hraise Hdeg. split.
    + exact (grid_polygons_with_value draw_fill draw_perimeter g xss yss fill
               Hc H Hraise).
    + intros xy _ Hlt. unfold drawn.
      destruct ((if fill then draw_fill else draw_perimeter) _ _) as [p|e] eqn:E;
        [|reflexivity].
      assert (Hp : p = []).
      { eapply Hdeg; [|exact E]. rewrite snapped_vertices_length. exact Hlt. }
      rewrite Hp. reflexivity.
  - split.
    + apply (grid_polygons_with_value fillPolygon tracePerimeter g xss yss fill Hc H).
      intros rs cs e He.
      destruct fill; [destruct (fillPolygon_total rs cs) as [c E]
                     |destruct (tracePerimeter_total rs cs) as [c E]];
        congruence.
    + intros xy _ Hlt. unfold drawn.
      assert (E3 : (length (combine
                      (map Z.of_nat (map fst (snap g (combine (fst xy) (snd xy)))))
                      (map Z.of_nat (map snd (snap g (combine (fst xy) (snd xy))))))
                    <? 3) = true).
      { apply Nat.ltb_lt. rewrite snapped_vertices_length. exact Hlt. }
      destruct fill; [unfold fillPolygon|unfold tracePerimeter];
        cbv zeta; rewrite E3; reflexivity.
Qed.

Lemma strict_perimeter_raises (rs cs : list Z) (e : exn) :
  strict_perimeter rs cs = Raise e -> e = ValueError.
Proof.
  unfold strict_perimeter. destruct (length rs <? 3); [congruence|].
  destruct (tracePerimeter_total rs cs) as [c E]. congruence.
Qed.

Lemma strict_perimeter_degenerate (rs cs : list Z) (p : list cell) :
  length (combine rs cs) < 3 -> strict_perimeter rs cs = Ok p -> p = [].
Proof.
  intros H. unfold strict_perimeter. destruct (length rs <? 3); [discriminate|].
  unfold tracePerimeter. apply Nat.ltb_lt in H. rewrite H. congruence.
Qed.

(** Witness of C6, without fill: the second vertex of the first polygon is
    too far from the grid and two vertices remain, the second polygon is a
    triangle.  With a perimeter routine that refuses the two vertices with
    [ValueError] the result holds the triangle alone; with the routine
    modelled here it holds an empty cell list and the triangle. *)
Lemma degenerate_polygons_skipped_witness :
  map (fun xy => length (snapped_vertices scenario_gridder (fst xy) (snd xy)))
      (combine [[5; 100; 35]; [5; 35; 35]]%Q [[5; 100; 5]; [5; 15; 5]]%Q)
  = [2; 3] /\
  grid_polygons_with fillPolygon strict_perimeter
    (map Seq [[5; 100; 35]; [5; 35; 35]]%Q)
    (map Seq [[5; 100; 5]; [5; 15; 5]]%Q) false scenario_gridder
  = (Ok [[(0, 0); (0, 1); (1, 2); (1, 3); (1, 3); (0, 3); (0, 3); (0, 2);
          (0, 1); (0, 0)]%Z], scenario_gridder) /\
  grid_polygons (map Seq [[5; 100; 35]; [5; 35; 35]]%Q)
                (map Seq [[5; 100; 5]; [5; 15; 5]]%Q) false scenario_gridder
  = (Ok [[]; [(0, 0); (0, 1); (1, 2); (1, 3); (1, 3); (0, 3); (0, 3); (0, 2);
              (0, 1); (0, 0)]%Z], scenario_gridder).
Proof.
  split; [reflexivity|].
  destruct (degenerate_polygons_skipped scenario_gridder
              [[5; 100; 35]; [5; 35; 35]]%Q [[5; 100; 5]; [5; 15; 5]]%Q false
              constructed_scenario) as [Hany [Hrun _]].
  { repeat constructor; discriminate. }
  split.
  - rewrite (proj1 (Hany fillPolygon strict_perimeter
                      strict_perimeter_raises strict_perimeter_degenerate)).
    reflexivity.
  - rewrite Hrun. reflexivity.
Defined.

(** C6 as stated fails for a polygon given with no vertex at all: it has
    fewer than three snapped vertices, and the lookup, which runs outside
    the [try], raises on the empty batch, with [fill] and without. *)
Lemma polygon_without_vertices_not_skipped :
  length (snapped_vertices scenario_gridder [] []) = 0 /\
  fst (grid_polygons [Seq []] [Seq []] true scenario_gridder) = Raise ValueError /\
  fst (grid_polygons [Seq []] [Seq []] false scenario_gridder) = Raise ValueError.
Proof. repeat split. Qed.

(** ** C7: fill against perimeter *)

(** C7 (as amended). For polygons each given by two non-empty coordinate
    sequences of one length, [grid_polygons] returns one cell list per
    polygon with [fill = True] and with [fill = False]; for a polygon with
    at least three snapped vertices, every snapped vertex is both a
    perimeter cell and a filled cell, and a perimeter cell is a filled cell
    exactly when it lies on or inside the polygon. *)
Theorem fill_contains_perimeter_on_polygon (g : Gridder) (xss yss : list (list Q)) :
  constructed g -> Forall2 well_formed_polygon xss yss ->
  exists outf outp,
    grid_polygons (map Seq xss) (map Seq yss) true g = (Ok outf, g) /\
    grid_polygons (map Seq xss) (map Seq yss) false g = (Ok outp, g) /\
    length outf = length xss /\ length outp = length xss /\
    forall i xl yl f p,
      nth_error xss i = Some xl -> nth_error yss i = Some yl ->
      nth_error outf i = Some f -> nth_error outp i = Some p ->
      3 <= length (snapped_vertices g xl yl) ->
      (forall v, In v (snapped_vertices g xl yl) -> In v p /\ In v f) /\
      (forall x, In x p ->
         (In x f <-> on_or_inside (snapped_vertices g xl yl) x = true)).
Proof.
  intros Hc H.
  destruct (grid_polygons_value g xss yss true Hc H) as (outf & Ef & Hf).
  destruct (grid_polygons_value g xss yss false Hc H) as (outp & Ep & Hp).
  pose proof (Forall2_length_eq H) as Hlen.
  pose proof (Forall2_length_eq Hf) as Hlf.
  pose proof (Forall2_length_eq Hp) as Hlp.
  rewrite length_combine, <- Hlen, Nat.min_id in Hlf, Hlp.
  exists outf, outp.
  split; [exact Ef|]. split; [exact Ep|]. split; [auto|]. split; [auto|].
  intros i xl yl f p Hxl Hyl Hfi Hpi H3.
  assert (Hxy : nth_error (combine xss yss) i = Some (xl, yl))
    by (apply nth_error_combine_some; assumption).
  destruct (Forall2_nth_error Hf i Hxy) as (f' & Hf' & Hfill).
  destruct (Forall2_nth_error Hp i Hxy) as (p' & Hp' & Hper).
  assert (f' = f) by congruence. assert (p' = p) by congruence. subst f' p'.
  cbn [fst snd] in Hfill, Hper.
  rewrite <- snapped_vertices_combine.
  apply fill_perimeter_cells; auto.
  - rewrite !length_map. reflexivity.
  - unfold snapped_vertices in H3. rewrite length_map in H3.
    rewrite !length_map. exact H3.
Qed.

(** Witness of C7: the triangle with snapped vertices (0,0), (1,3), (0,3). *)
Lemma fill_contains_perimeter_on_polygon_witness :
  exists outf outp,
    grid_polygons (map Seq [[5; 35; 35]%Q]) (map Seq [[5; 15; 5]%Q]) true
                  scenario_gridder = (Ok outf, scenario_gridder) /\
    grid_polygons (map Seq [[5; 35; 35]%Q]) (map Seq [[5; 15; 5]%Q]) false
                  scenario_gridder = (Ok outp, scenario_gridder) /\
    length outf = length [[5; 35; 35]%Q] /\ length outp = length [[5; 35; 35]%Q] /\
    forall i xl yl f p,
      nth_error [[5; 35; 35]%Q] i = Some xl -> nth_error [[5; 15; 5]%Q] i = Some yl ->
      nth_error outf i = Some f -> nth_error outp i = Some p ->
      3 <= length (snapped_vertices scenario_gridder xl yl) ->
      (forall v, In v (snapped_vertices scenario_gridder xl yl) -> In v p /\ In v f) /\
      (forall x, In x p ->
         (In x f <-> on_or_inside (snapped_vertices scenario_gridder xl yl) x = true)).
Proof.
  apply (fill_contains_perimeter_on_polygon scenario_gridder
           [[5; 35; 35]%Q] [[5; 15; 5]%Q] constructed_scenario).
  repeat constructor. discriminate.
Defined.

(** C7 as stated fails: the traced edge from (0,0) to (1,3) passes through
    cell (1,2), whose centre lies outside the triangle (0,0), (1,3), (0,3);
    the perimeter holds that cell and the fill does not. *)
Lemma perimeter_cell_outside_fill :
  snapped_vertices scenario_gridder [5; 35; 35]%Q [5; 15; 5]%Q
    = [(0, 0); (1, 3); (0, 3)]%Z /\
  grid_polygons [Seq [5; 35; 35]%Q] [Seq [5; 15; 5]%Q] true scenario_gridder
    = (Ok [[(0, 0); (0, 1); (0, 2); (0, 3); (1, 3)]%Z], scenario_gridder) /\
  grid_polygons [Seq [5; 35; 35]%Q] [Seq [5; 15; 5]%Q] false scenario_gridder
    = (Ok [[(0, 0); (0, 1); (1, 2); (1, 3); (1, 3); (0, 3);
            (0, 3); (0, 2); (0, 1); (0, 0)]%Z], scenario_gridder) /\
  In (1, 2)%Z [(0, 0); (0, 1); (1, 2); (1, 3); (1, 3); (0, 3);
               (0, 3); (0, 2); (0, 1); (0, 0)]%Z /\
  ~ In (1, 2)%Z [(0, 0); (0, 1); (0, 2); (0, 3); (1, 3)]%Z.
Proof.
  repeat split.
  - simpl. tauto.
  - simpl. intros H. repeat destruct H as [H|H]; try discriminate H. exact H.
Qed.

(** * Further properties of the code *)

(** ** The lookup: failures, scalars, batches *)

Lemma grid_points_snap (g : Gridder) (xs ys : list Q) :
  constructed g -> length xs = length ys -> xs <> [] ->
  grid_points (Seq xs) (Seq ys) g = (Ok (snap g (combine xs ys)), g).
Proof.
  intros Hc Hlen Hne. unfold grid_points, bind.
  rewrite (kdtree_query_snap g xs ys Hc Hlen Hne). unfold lift. cbn [fst snd].
  rewrite zip_strict_same_length by (rewrite !length_map; reflexivity).
  rewrite combine_fst_snd. reflexivity.
Qed.

Lemma unravel_index_lengths (inds : list nat) (shp : nat * nat) (rs cs : list nat) :
  unravel_index inds shp = Ok (rs, cs) -> length rs = length cs.
Proof.
  unfold unravel_index. intros H. apply rbind_ok in H as (rc & _ & H).
  injection H as <- <-. rewrite !length_map. reflexivity.
Qed.

(** X1. [grid_points] fails exactly when the lookup fails, with the same
    exception: the two index arrays the lookup returns have one length, so
    the [zip(xinds, yinds, strict=True)] of [grid_points] never raises, and
    its result pairs them up in order. *)
Theorem grid_points_fails_only_in_lookup (g : Gridder) (x y : coords) :
  (forall e, fst (grid_points x y g) = Raise e <-> fst (_kdtree_query x y g) = Raise e) /\
  (forall rs cs, fst (_kdtree_query x y g) = Ok (rs, cs) ->
     length rs = length cs /\ fst (grid_points x y g) = Ok (combine rs cs)).
Proof.
  unfold grid_points, bind. rewrite kdtree_query_run.
  destruct (rbind (as_points x y) _) as [[rs cs]|e0] eqn:E; cbn [fst snd].
  - assert (Hl : length rs = length cs).
    { apply rbind_ok in E as (pts & _ & E). apply rbind_ok in E as (di & _ & E).
      exact (unravel_index_lengths _ _ rs cs E). }
    unfold lift. cbn [fst]. rewrite (zip_strict_same_length rs cs Hl). split.
    + intros e. split; discriminate.
    + intros rs' cs' H. injection H as <- <-. auto.
  - split.
    + intros e. split; intros H; injection H as ->; reflexivity.
    + intros rs cs H. discriminate.
Qed.

(** X2. On a constructed [Gridder] the lookup over two coordinate sequences
    raises exactly when the sequences differ in length or are empty, and
    what it raises is [ValueError]. *)
Theorem lookup_raises_iff (g : Gridder) (xs ys : list Q) :
  constructed g ->
  (fst (_kdtree_query (Seq xs) (Seq ys) g) = Raise ValueError <->
   length xs <> length ys \/ xs = []) /\
  (forall e, fst (_kdtree_query (Seq xs) (Seq ys) g) = Raise e -> e = ValueError).
Proof.
  intros Hc.
  destruct (Nat.eq_dec (length xs) (length ys)) as [Hlen|Hlen].
  - destruct xs as [|x xs].
    + destruct ys; [|discriminate].
      rewrite kdtree_query_run. cbn. split; [|intros e H; congruence].
      split; auto.
    + rewrite (kdtree_query_snap g (x :: xs) ys Hc Hlen) by discriminate.
      cbn [fst]. split; [|intros e H; discriminate].
      split; [discriminate|]. intros [H|H]; [contradiction|discriminate].
  - rewrite (kdtree_query_mismatch g xs ys Hlen). cbn [fst].
    split; [|intros e H; congruence]. split; auto.
Qed.

(** Witness of X2. *)
Lemma lookup_raises_iff_witness :
  (fst (_kdtree_query (Seq [1; 2]%Q) (Seq [1]%Q) scenario_gridder) = Raise ValueError <->
   length [1; 2]%Q <> length [1]%Q \/ [1; 2]%Q = []) /\
  (forall e, fst (_kdtree_query (Seq [1; 2]%Q) (Seq [1]%Q) scenario_gridder) = Raise e ->
             e = ValueError).
Proof.
  exact (lookup_raises_iff scenario_gridder [1; 2]%Q [1]%Q constructed_scenario).
Defined.

(** X3. A scalar pair is looked up as the batch of that one point: with
    scalars [zip] raises [TypeError] and the fallback wraps both in lists,
    so every operation answers as for the one-element sequences. *)
Theorem scalar_is_singleton_batch (g : Gridder) (x y ex ey : Q) :
  _kdtree_query (Scalar x) (Scalar y) g = _kdtree_query (Seq [x]) (Seq [y]) g /\
  grid_points (Scalar x) (Scalar y) g = grid_points (Seq [x]) (Seq [y]) g /\
  grid_lines (Scalar x) (Scalar y) (Scalar ex) (Scalar ey) g
  = grid_lines (Seq [x]) (Seq [y]) (Seq [ex]) (Seq [ey]) g /\
  (forall fill, grid_polygons [Scalar x] [Scalar y] fill g
                = grid_polygons [Seq [x]] [Seq [y]] fill g).
Proof.
  assert (Hq : forall a b, _kdtree_query (Scalar a) (Scalar b) g
                           = _kdtree_query (Seq [a]) (Seq [b]) g)
    by (intros; rewrite !kdtree_query_run; reflexivity).
  split; [apply Hq|]. split; [|split].
  - unfold grid_points, bind. rewrite Hq. reflexivity.
  - unfold grid_lines, bind. rewrite !Hq. reflexivity.
  - intros fill. unfold grid_polygons, grid_polygons_with, bind. cbn [query_polygons].
    unfold bind. rewrite Hq. reflexivity.
Qed.

Lemma combine_app_same {A B : Type} (a1 a2 : list A) (b1 b2 : list B) :
  length a1 = length b1 ->
  combine (a1 ++ a2) (b1 ++ b2) = combine a1 b1 ++ combine a2 b2.
Proof.
  revert b1; induction a1 as [|x a1 IH]; intros [|y b1] H; simpl in *;
    try discriminate; [reflexivity|].
  rewrite IH by congruence. reflexivity.
Qed.

Lemma snap_app (g : Gridder) (p1 p2 : list point) :
  snap g (p1 ++ p2) = snap g p1 ++ snap g p2.
Proof. unfold snap. rewrite filter_app, !map_app. reflexivity. Qed.

(** X4. Points are snapped one by one: on a constructed [Gridder] the cells
    of two batches looked up together are the cells of the first batch
    followed by the cells of the second. *)
Theorem grid_points_of_joined_batches (g : Gridder) (xs1 ys1 xs2 ys2 : list Q) :
  constructed g ->
  length xs1 = length ys1 -> xs1 <> [] ->
  length xs2 = length ys2 -> xs2 <> [] ->
  exists c1 c2,
    grid_points (Seq xs1) (Seq ys1) g = (Ok c1, g) /\
    grid_points (Seq xs2) (Seq ys2) g = (Ok c2, g) /\
    grid_points (Seq (xs1 ++ xs2)) (Seq (ys1 ++ ys2)) g = (Ok (c1 ++ c2), g).
Proof.
  intros Hc H1 N1 H2 N2.
  exists (snap g (combine xs1 ys1)), (snap g (combine xs2 ys2)).
  split; [exact (grid_points_snap g xs1 ys1 Hc H1 N1)|].
  split; [exact (grid_points_snap g xs2 ys2 Hc H2 N2)|].
  rewrite grid_points_snap; auto.
  - rewrite (combine_app_same xs1 xs2 ys1 ys2 H1), snap_app. reflexivity.
  - rewrite !length_app. congruence.
  - destruct xs1; [congruence|discriminate].
Qed.

(** Witness of X4. *)
Lemma grid_points_of_joined_batches_witness :
  exists c1 c2,
    grid_points (Seq [6; 100]%Q) (Seq [6; 100]%Q) scenario_gridder
      = (Ok c1, scenario_gridder) /\
    grid_points (Seq [16]%Q) (Seq [25]%Q) scenario_gridder
      = (Ok c2, scenario_gridder) /\
    grid_points (Seq ([6; 100] ++ [16])%Q) (Seq ([6; 100] ++ [25])%Q) scenario_gridder
      = (Ok (c1 ++ c2), scenario_gridder).
Proof.
  apply (grid_points_of_joined_batches scenario_gridder
           [6; 100]%Q [6; 100]%Q [16]%Q [25]%Q constructed_scenario);
    first [reflexivity | discriminate].
Defined.

(** ** The default threshold *)

(** X5. [grid_points] never returns more cells than it was given points,
    and with the default [dx = np.inf] it drops none: the [k]-th cell of
    the result is a cell nearest to the [k]-th input point. *)
Theorem default_threshold_keeps_every_point (g : Gridder) (xs ys : list Q) :
  constructed g -> length xs = length ys -> xs <> [] ->
  exists ks,
    grid_points (Seq xs) (Seq ys) g = (Ok (map (cell_of g) ks), g) /\
    length ks <= length xs /\
    (dx g = Infinity ->
     length ks = length xs /\ Forall2 (snaps_to g) (combine xs ys) ks).
Proof.
  intros Hc Hlen Hne.
  destruct (grid_points_value g (Seq xs) (Seq ys) (combine xs ys) Hc
              (as_points_seq xs ys Hlen)) as (ks & Hs & _ & Hg).
  { destruct xs, ys; simpl in *; congruence. }
  assert (Hl : length (combine xs ys) = length xs)
    by (rewrite length_combine; lia).
  exists ks. split; [exact Hg|]. split.
  - rewrite <- (Forall2_length_eq Hs), <- Hl. apply filter_no_longer.
  - intros Hdx. rewrite (near_all_infinity g _ Hc Hdx) in Hs.
    split; [|exact Hs]. rewrite <- (Forall2_length_eq Hs). exact Hl.
Qed.

(** Witness of X5 on the 4 x 4 grid built with the default threshold. *)
Lemma default_threshold_keeps_every_point_witness :
  exists ks,
    grid_points (Seq [7; -3]%Q) (Seq [1; 90]%Q) default_gridder
      = (Ok (map (cell_of default_gridder) ks), default_gridder) /\
    length ks <= length [7; -3]%Q /\
    (dx default_gridder = Infinity ->
     length ks = length [7; -3]%Q /\
     Forall2 (snaps_to default_gridder) (combine [7; -3]%Q [1; 90]%Q) ks).
Proof.
  apply (default_threshold_keeps_every_point default_gridder [7; -3]%Q [1; 90]%Q).
  - exists scenario_tx, scenario_ty, Infinity, false. reflexivity.
  - reflexivity.
  - discriminate.
Defined.

(** X6. With the default [dx = np.inf] nothing is dropped, so [grid_lines]
    given as many start as end points raises nothing and keeps the lines
    aligned: the [k]-th line runs from a cell nearest to the [k]-th start
    to a cell nearest to the [k]-th end. *)
Theorem grid_lines_aligned_by_default (g : Gridder) (sxs sys exs eys : list Q) :
  constructed g -> dx g = Infinity ->
  length sxs = length sys -> length exs = length eys ->
  length sxs = length exs -> sxs <> [] ->
  exists ss es,
    Forall2 (snaps_to g) (combine sxs sys) ss /\
    Forall2 (snaps_to g) (combine exs eys) es /\
    length ss = length sxs /\ length es = length sxs /\
    grid_lines (Seq sxs) (Seq sys) (Seq exs) (Seq eys) g =
    (Ok (map2 line_between (map (cell_of g) ss) (map (cell_of g) es)), g).
Proof.
  intros Hc Hdx Hs He Hse Hne.
  assert (Hen : exs <> []) by (destruct sxs, exs; simpl in *; congruence).
  destruct (snap_all g (combine sxs sys) Hc Hdx) as (ss & Ess & Hss).
  destruct (snap_all g (combine exs eys) Hc Hdx) as (es & Ees & Hes).
  pose proof (Forall2_length_eq Hss) as Ls.
  pose proof (Forall2_length_eq Hes) as Le.
  unfold point in Ls, Le. rewrite length_combine in Ls, Le.
  exists ss, es. repeat split; auto; try lia.
  rewrite (grid_lines_run g sxs sys exs eys Hc Hs Hne He Hen), Ess, Ees.
  rewrite !length_map.
  replace (length ss =? length es) with true
    by (symmetry; apply Nat.eqb_eq; lia).
  reflexivity.
Qed.

(** Witness of X6. *)
Lemma grid_lines_aligned_by_default_witness :
  exists ss es,
    Forall2 (snaps_to default_gridder) (combine [7; -3]%Q [1; 90]%Q) ss /\
    Forall2 (snaps_to default_gridder) (combine [100; 24]%Q [2; 22]%Q) es /\
    length ss = length [7; -3]%Q /\ length es = length [7; -3]%Q /\
    grid_lines (Seq [7; -3]%Q) (Seq [1; 90]%Q) (Seq [100; 24]%Q) (Seq [2; 22]%Q)
               default_gridder =
    (Ok (map2 line_between (map (cell_of default_gridder) ss)
                           (map (cell_of default_gridder) es)), default_gridder).
Proof.
  apply (grid_lines_aligned_by_default default_gridder
           [7; -3]%Q [1; 90]%Q [100; 24]%Q [2; 22]%Q);
    first [reflexivity | discriminate
          | exists scenario_tx, scenario_ty, Infinity, false; reflexivity].
Defined.

(** ** The loops of [grid_polygons] *)

(** X7. The drawing loop of [grid_polygons] with any drawing routine in
    place of the library's: a polygon on which the routine raises
    [ValueError] is skipped, the cell lists of the others are returned in
    the order of the polygons; the first exception of another kind ends the
    call and is raised to the caller. *)
Theorem drawing_skips_value_errors
    (draw : list Z -> list Z -> result (list cell))
    (l : list (list nat * list nat)) :
  ((forall xy e, In xy l ->
      draw (map Z.of_nat (fst xy)) (map Z.of_nat (snd xy)) = Raise e ->
      e = ValueError) ->
   draw_polygons draw l [] =
   Ok (flat_map (fun xy =>
                   match draw (map Z.of_nat (fst xy)) (map Z.of_nat (snd xy)) with
                   | Ok p => [p]
                   | Raise _ => []
                   end) l)) /\
  (forall l1 xy l2 e,
     l = l1 ++ xy :: l2 ->
     (forall xy' e', In xy' l1 ->
        draw (map Z.of_nat (fst xy')) (map Z.of_nat (snd xy')) = Raise e' ->
        e' = ValueError) ->
     draw (map Z.of_nat (fst xy)) (map Z.of_nat (snd xy)) = Raise e ->
     e <> ValueError ->
     draw_polygons draw l [] = Raise e).
Proof.
  split.
  - intros H. exact (draw_polygons_skip draw l [] H).
  - intros l1 xy l2 e -> H1 He Hne.
    exact (draw_polygons_propagate draw l1 l2 xy e [] H1 He Hne).
Qed.

(** Witness of X7: a routine that refuses fewer than three vertices. *)
Lemma drawing_skips_value_errors_witness :
  draw_polygons strict_perimeter [([0; 1], [0; 1]); ([0; 1; 0], [0; 3; 3])] [] =
  Ok [[(0, 0); (0, 1); (1, 2); (1, 3); (1, 3); (0, 3);
       (0, 3); (0, 2); (0, 1); (0, 0)]%Z].
Proof.
  rewrite (proj1 (drawing_skips_value_errors strict_perimeter
                    [([0; 1], [0; 1]); ([0; 1; 0], [0; 3; 3])])).
  - reflexivity.
  - intros xy e [<-|[<-|[]]] H; vm_compute in H; congruence.
Defined.

Lemma kdtree_query_empty (g : Gridder) :
  _kdtree_query (Seq []) (Seq []) g = (Raise ValueError, g).
Proof. rewrite kdtree_query_run. reflexivity. Qed.

(** X8. The lookups of [grid_polygons] run before, and outside, the [try]
    that guards the drawing: a polygon given with no vertices at all is not
    skipped, it makes the whole call raise, for either value of [fill]. *)
Theorem polygon_without_vertices_raises (g : Gridder) (xs ys : list coords)
    (fill : bool) (i : nat) :
  nth_error xs i = Some (Seq []) -> nth_error ys i = Some (Seq []) ->
  exists e, fst (grid_polygons xs ys fill g) = Raise e.
Proof.
  intros Hx Hy. unfold grid_polygons, grid_polygons_with, bind.
  assert (Hq : forall xinds yinds,
            exists e, fst (query_polygons xs ys xinds yinds g) = Raise e).
  { revert ys i Hx Hy. induction xs as [|x xs IH];
      intros [|y ys] [|i] Hx Hy xinds yinds; simpl in *; try discriminate.
    - injection Hx as ->. injection Hy as ->.
      unfold bind. rewrite kdtree_query_empty. exists ValueError. reflexivity.
    - unfold bind. rewrite kdtree_query_run.
      destruct (rbind (as_points x y) _) as [xy|e].
      + exact (IH ys i Hx Hy _ _).
      + exists e. reflexivity. }
  destruct (Hq [] []) as [e He].
  destruct (query_polygons xs ys [] [] g) as [[inds|e'] g']; simpl in He;
    [discriminate|].
  exists e'. reflexivity.
Qed.

(** Witness of X8: a triangle followed by a polygon without vertices. *)
Lemma polygon_without_vertices_raises_witness :
  exists e,
    fst (grid_polygons [Seq [5; 35; 35]%Q; Seq []] [Seq [5; 15; 5]%Q; Seq []]
                       true scenario_gridder) = Raise e.
Proof.
  apply (polygon_without_vertices_raises scenario_gridder
           [Seq [5; 35; 35]%Q; Seq []] [Seq [5; 15; 5]%Q; Seq []] true 1);
    reflexivity.
Defined.

(** ** The constructor: when it succeeds and how it fails *)

Lemma init_raises (tx0 ty0 : array_like) (dx0 : bound) (centered : bool) (e : exn) :
  centered_grids tx0 ty0 centered = Raise e ->
  __init__ tx0 ty0 dx0 centered = Raise e.
Proof. intros H. unfold __init__. rewrite H. reflexivity. Qed.

(** X9. Given [tx] and [ty] of one shape with at least two rows and two
    columns, float arrays if [centered=False] and arrays of either element
    type if [centered=True], lines 36-46 of the constructor go through and
    keep the shape.  The constructor then succeeds exactly when every entry
    of the two grids is finite as a float64: the stored grids have that
    shape, [dx] is stored as given and the tree indexes one point per cell,
    the float64 values of the grids; with an entry that is not finite the
    tree refuses the points and the constructor raises [ValueError]. *)
Theorem init_succeeds (tx0 ty0 : array_like) (dx0 : bound) (centered : bool)
    (r c : nat) :
  rectangular_like tx0 = true -> rectangular_like ty0 = true ->
  shape_like tx0 = (r, c) -> shape_like ty0 = (r, c) -> 2 <= r -> 2 <= c ->
  (centered = false -> exists a b, tx0 = FloatArray a /\ ty0 = FloatArray b) ->
  exists x y,
    centered_grids tx0 ty0 centered = Ok (x, y) /\
    shape_like x = (r, c) /\ shape_like y = (r, c) /\
    (forall kx ky,
       finite_values (as_float64 x) = Ok kx ->
       finite_values (as_float64 y) = Ok ky ->
       exists g,
         __init__ tx0 ty0 dx0 centered = Ok g /\
         shape (tx g) = (r, c) /\ shape (ty g) = (r, c) /\
         dx g = dx0 /\
         length (tpoints g) = r * c /\
         kd_data (tree g) = combine (ravel kx) (ravel ky) /\
         length (kd_data (tree g)) = r * c) /\
    ((forall kx, finite_values (as_float64 x) <> Ok kx) \/
     (forall ky, finite_values (as_float64 y) <> Ok ky) ->
     __init__ tx0 ty0 dx0 centered = Raise ValueError).
Proof.
  intros Rx Ry Sx Sy Hr Hc Hfloat.
  destruct (centered_grids_total tx0 ty0 centered Rx Ry) as (x & y & Hxy).
  { destruct centered; [left; reflexivity|right].
    destruct (Hfloat eq_refl) as (a & b & -> & ->).
    cbn [shape_like] in Sx, Sy.
    exists a, b. rewrite Sx, Sy. cbn [fst snd]. auto. }
  destruct (centered_grids_shape _ _ _ _ _ Hxy) as (Rx' & Ry' & Sx' & Sy').
  destruct (centered_grids_size _ _ _ _ _ Hxy) as [Zx Zy].
  assert (Nx : size_like tx0 = r * c)
    by (rewrite (size_like_rect tx0 Rx), Sx; reflexivity).
  assert (Ny : size_like ty0 = r * c)
    by (rewrite (size_like_rect ty0 Ry), Sy; reflexivity).
  exists x, y. split; [exact Hxy|]. split; [congruence|]. split; [congruence|].
  split.
  - intros kx ky Hkx Hky.
    destruct (init_accepts tx0 ty0 x y dx0 centered kx ky Hxy Hkx Hky)
      as (g & Hg & Hkd); [congruence|rewrite Zx, Nx; nia|].
    exists g. split; [exact Hg|].
    destruct (init_ok _ _ _ _ _ Hg) as
      (x1 & y1 & kx1 & ky1 & Hxy1 & Hx & Hy & _ & _ & _ & _ & _ & Htp & Hdx).
    rewrite Hxy in Hxy1. injection Hxy1 as <- <-.
    destruct (exact_values_shape x (tx g) Hx) as [Ex _].
    destruct (exact_values_shape y (ty g) Hy) as [Ey _].
    assert (Lk : length (kd_data (tree g)) = r * c).
    { rewrite Hkd. unfold point. rewrite length_combine.
      rewrite (finite_values_size _ kx Hkx), (finite_values_size _ ky Hky).
      rewrite !size_as_float64. lia. }
    split; [congruence|]. split; [congruence|]. split; [exact Hdx|].
    split; [|split; [exact Hkd|exact Lk]].
    rewrite Htp. unfold tpoints_of.
    destruct x as [zx|vx]; destruct y as [zy|vy]; try exact Lk.
    simpl in Zx, Zy. unfold point. rewrite length_combine, !length_map. lia.
  - intros Hbad.
    destruct (__init__ tx0 ty0 dx0 centered) as [g|e] eqn:E.
    + exfalso.
      destruct (init_ok _ _ _ _ _ E) as
        (x1 & y1 & kx & ky & Hxy1 & _ & _ & Hkx & Hky & _).
      rewrite Hxy in Hxy1. injection Hxy1 as <- <-.
      destruct Hbad as [Hbad|Hbad]; [exact (Hbad kx Hkx)|exact (Hbad ky Hky)].
    + rewrite (init_error_late _ _ _ _ _ _ _ Hxy E). reflexivity.
Qed.

(** Witness of X9: the float grid with corners 2^53, 2^53 + 2, 2^53 + 4 is
    accepted with [centered=False]. *)
Lemma init_succeeds_witness :
  exists g,
    __init__ (FloatArray wide_corners) (FloatArray wide_rows) (Finite 5) false
    = Ok g /\
    shape (tx g) = (2, 3) /\ shape (ty g) = (2, 3) /\
    dx g = Finite 5 /\
    length (tpoints g) = 2 * 3 /\
    length (kd_data (tree g)) = 2 * 3.
Proof.
  destruct (init_succeeds (FloatArray wide_corners) (FloatArray wide_rows)
              (Finite 5) false 2 3) as (x & y & Hxy & _ & _ & Hok & _);
    try reflexivity; try lia.
  { intros _. exists wide_corners, wide_rows. split; reflexivity. }
  vm_compute in Hxy. injection Hxy as <- <-.
  edestruct Hok as (g & Hg & Hsx & Hsy & Hdx & Htp & _ & Hkd);
    [vm_compute; reflexivity|vm_compute; reflexivity|].
  exists g. auto 6.
Defined.

Lemma col_neg_total {F : Type} (k : nat) (a : array2 F) :
  rectangular a = true -> 1 <= k -> k <= snd (shape a) ->
  exists v, col_neg k a = Ok v.
Proof.
  intros R H1 Hk. unfold col_neg.
  apply Nat.leb_le in Hk as E. rewrite E.
  apply rmapM_exists. eapply Forall_impl; [|exact (rectangular_rows_ge a k R Hk)].
  intros row Hrow. cbv beta in Hrow. apply item_neg_total; assumption.
Qed.

Lemma col_neg_small {F : Type} (k : nat) (a : array2 F) :
  snd (shape a) < k -> col_neg k a = Raise IndexError.
Proof.
  intros H. unfold col_neg. apply Nat.leb_gt in H. rewrite H. reflexivity.
Qed.

Lemma item_neg_small {A : Type} (k : nat) (l : list A) :
  length l < k -> item_neg k l = Raise IndexError.
Proof.
  intros H. unfold item_neg. apply Nat.leb_gt in H. rewrite H.
  rewrite andb_false_r. reflexivity.
Qed.

(** The centering of [tx] by element type and number of columns. *)
Lemma center_x_typed_cases (tx0 : array_like) :
  rectangular_like tx0 = true ->
  (snd (shape_like tx0) < 2 -> center_x_typed tx0 = Raise IndexError) /\
  (2 <= snd (shape_like tx0) ->
   match tx0 with
   | IntArray _ => center_x_typed tx0 = Raise TypeError
   | FloatArray _ => exists x, center_x_typed tx0 = Ok (FloatArray x)
   end).
Proof.
  intros R. destruct tx0 as [z|a];
    cbn [shape_like rectangular_like center_x_typed] in *; split; intros H.
  - unfold center_x_int.
    destruct (Nat.eq_dec (snd (shape z)) 0) as [H0|H0].
    + rewrite (col_neg_small 1 z) by lia. reflexivity.
    + destruct (col_neg_total 1 z R) as [v ->]; [lia|lia|]. cbn [rbind].
      rewrite (col_neg_small 2 z) by lia. reflexivity.
  - unfold center_x_int.
    destruct (col_neg_total 1 z R) as [v ->]; [lia|lia|].
    destruct (col_neg_total 2 z R) as [w ->]; [lia|lia|]. reflexivity.
  - destruct (center_x PrimFloat.add PrimFloat.sub float_half a) as [x|e] eqn:E.
    + destruct (centered_entry_x _ _ _ _ a x E R) as (H2 & _). lia.
    + rewrite (center_x_error _ _ _ _ _ E). reflexivity.
  - destruct (center_x_total PrimFloat.add PrimFloat.sub float_half a) as [x ->].
    + exact (shape_nonempty a 2 ltac:(lia) H).
    + exact (rectangular_rows_ge a 2 R H).
    + simpl. eauto.
Qed.

(** The centering of [ty] by element type and number of rows. *)
Lemma center_y_typed_cases (ty0 : array_like) :
  (fst (shape_like ty0) < 2 -> center_y_typed ty0 = Raise IndexError) /\
  (2 <= fst (shape_like ty0) ->
   match ty0 with
   | IntArray _ => center_y_typed ty0 = Raise TypeError
   | FloatArray _ => exists y, center_y_typed ty0 = Ok (FloatArray y)
   end).
Proof.
  destruct ty0 as [z|b]; cbn [shape_like center_y_typed]; split; intros H;
    unfold shape in H; cbn [fst] in H.
  - unfold center_y_int, row_neg.
    destruct (Nat.eq_dec (length z) 0) as [H0|H0].
    + rewrite (item_neg_small 1 z) by lia. reflexivity.
    + destruct (item_neg_total 1 z) as [v ->]; [lia|lia|]. cbn [rbind].
      rewrite (item_neg_small 2 z) by lia. reflexivity.
  - unfold center_y_int, row_neg.
    destruct (item_neg_total 1 z) as [v ->]; [lia|lia|].
    destruct (item_neg_total 2 z) as [w ->]; [lia|lia|]. reflexivity.
  - destruct (center_y PrimFloat.add PrimFloat.sub float_half b) as [y|e] eqn:E.
    + destruct (centered_entry_y _ _ _ _ b y E) as (H2 & _).
      unfold shape in H2. cbn [fst] in H2. lia.
    + rewrite (center_y_error _ _ _ _ _ E). reflexivity.
  - destruct (center_y_total PrimFloat.add PrimFloat.sub float_half b H) as [y ->].
    simpl. eauto.
Qed.

(** X10. With [centered = False] the transform reads the second-to-last
    column of [tx] and the second-to-last row of [ty], and it adds float
    arrays in place.  A [tx] of fewer than two columns makes the constructor
    raise [IndexError]; an integer [tx] of two columns or more makes it
    raise [TypeError]; after a float [tx] of two columns or more, a [ty] of
    fewer than two rows makes it raise [IndexError] and an integer [ty] of
    two rows or more [TypeError]. *)
Theorem init_uncentered_needs_two (tx0 ty0 : array_like) (dx0 : bound) :
  rectangular_like tx0 = true -> rectangular_like ty0 = true ->
  (snd (shape_like tx0) < 2 -> __init__ tx0 ty0 dx0 false = Raise IndexError) /\
  (2 <= snd (shape_like tx0) ->
   (forall z, tx0 = IntArray z -> __init__ tx0 ty0 dx0 false = Raise TypeError) /\
   (forall a, tx0 = FloatArray a ->
      (fst (shape_like ty0) < 2 -> __init__ tx0 ty0 dx0 false = Raise IndexError) /\
      (2 <= fst (shape_like ty0) ->
       forall z, ty0 = IntArray z -> __init__ tx0 ty0 dx0 false = Raise TypeError))).
Proof.
  intros Rx Ry.
  destruct (center_x_typed_cases tx0 Rx) as [Hx1 Hx2].
  destruct (center_y_typed_cases ty0) as [Hy1 Hy2].
  assert (Hrun : centered_grids tx0 ty0 false =
                 rbind (center_x_typed tx0) (fun x =>
                 rbind (center_y_typed ty0) (fun y => Ok (x, y)))).
  { unfold centered_grids.
    rewrite (np_array_like_total tx0 Rx), (np_array_like_total ty0 Ry).
    reflexivity. }
  split.
  - intros H. apply init_raises. rewrite Hrun, (Hx1 H). reflexivity.
  - intros H. specialize (Hx2 H). split.
    + intros z ->. apply init_raises. rewrite Hrun, Hx2. reflexivity.
    + intros a ->. destruct Hx2 as [x Hx]. split.
      * intros Hr. apply init_raises. rewrite Hrun, Hx, (Hy1 Hr). reflexivity.
      * intros Hr z ->. apply init_raises.
        rewrite Hrun, Hx, (Hy2 Hr). reflexivity.
Qed.

(** Witness of X10: integer corners 0, 10 in two rows. *)
Lemma init_uncentered_needs_two_witness :
  __init__ (IntArray [[0; 10]; [0; 10]]%Z) (IntArray [[0; 0]; [10; 10]]%Z)
           Infinity false = Raise TypeError.
Proof.
  refine (proj1 (proj2 (init_uncentered_needs_two
            (IntArray [[0; 10]; [0; 10]]%Z) (IntArray [[0; 0]; [10; 10]]%Z)
            Infinity eq_refl eq_refl) _) _ eq_refl).
  simpl. lia.
Defined.

(** ** The empty grid and the flat index *)

Lemma nth_error_repeat_out {A : Type} (a : A) (n i : nat) :
  n <= i -> nth_error (repeat a n) i = None.
Proof. intros H. apply nth_error_None. rewrite repeat_length. exact H. Qed.

(** X11. [make_empty_grid] on a constructed [Gridder] returns an array of
    the shape of the [tx] given to the constructor, whether or not the grid
    was centred: the entry at (i, j) is zero when [i < rows] and [j < cols],
    and there is no entry elsewhere. *)
Theorem empty_grid_has_input_shape (tx0 ty0 : array2 Q) (dx0 : bound)
    (centered : bool) (g : Gridder) (T : Type) (zero : T) :
  Gridder_init tx0 ty0 dx0 centered = Ok g ->
  exists grid,
    make_empty_grid zero g = (Ok grid, g) /\
    shape grid = shape tx0 /\
    forall i j,
      get2 grid i j =
      if (i <? fst (shape tx0)) && (j <? snd (shape tx0)) then Some zero else None.
Proof.
  intros H. destruct (init_keeps_shape tx0 ty0 dx0 centered g H) as [Hs _].
  exists (np_zeros zero (shape tx0)). split; [|split].
  - unfold make_empty_grid, bind, attr, ret. rewrite Hs. reflexivity.
  - destruct tx0 as [|r0 t]; [reflexivity|].
    unfold np_zeros, shape. cbn [fst snd length repeat hd].
    rewrite !repeat_length. reflexivity.
  - intros i j.
    destruct (Nat.ltb_spec i (fst (shape tx0))) as [Hi|Hi];
      destruct (Nat.ltb_spec j (snd (shape tx0))) as [Hj|Hj]; cbn [andb].
    + apply get2_np_zeros; assumption.
    + unfold get2, np_zeros. rewrite nth_error_repeat by exact Hi.
      apply nth_error_repeat_out. exact Hj.
    + unfold get2, np_zeros. rewrite nth_error_repeat_out by exact Hi. reflexivity.
    + unfold get2, np_zeros. rewrite nth_error_repeat_out by exact Hi. reflexivity.
Qed.

(** Witness of X11: the centred copy of the 4 x 4 grid. *)
Lemma empty_grid_has_input_shape_witness :
  exists grid,
    make_empty_grid 0%Z scenario_gridder = (Ok grid, scenario_gridder) /\
    shape grid = shape scenario_tx /\
    forall i j,
      get2 grid i j =
      if (i <? fst (shape scenario_tx)) && (j <? snd (shape scenario_tx))
      then Some 0%Z else None.
Proof.
  apply (empty_grid_has_input_shape scenario_tx scenario_ty (Finite 5) false).
  reflexivity.
Defined.

Lemma rect_entry {F : Type} (a : array2 F) (i j : nat) :
  rectangular a = true -> i < fst (shape a) -> j < snd (shape a) ->
  exists v, get2 a i j = Some v.
Proof.
  intros R Hi Hj. unfold get2.
  destruct (nth_error a i) as [row|] eqn:Er;
    [|apply nth_error_None in Er; simpl in Hi; lia].
  pose proof (rectangular_row a i R Er) as Hl.
  destruct (nth_error row j) as [v|] eqn:Ev; [eauto|].
  apply nth_error_None in Ev. lia.
Qed.

Lemma cell_of_flat (g : Gridder) (i j : nat) :
  j < snd (shape (tx g)) ->
  cell_of g (i * snd (shape (tx g)) + j) = (i, j).
Proof.
  intros Hj. unfold cell_of.
  rewrite Nat.div_add_l, Nat.div_small, Nat.add_0_r by lia.
  rewrite Nat.add_comm, Nat.Div0.mod_add, Nat.mod_small by lia. reflexivity.
Qed.

(** X12. The flat index of the tree and the (row, col) of a cell determine
    each other, as [ravel] and [np.unravel_index] agree on row-major order:
    on a constructed [Gridder] whose [ty] has the shape of [tx], the point
    indexed at [i * cols + j] is [(tx[i,j], ty[i,j])] and
    [np.unravel_index] sends that index to [(i, j)]; and every flat index
    [k] below the number of indexed points is sent by [np.unravel_index] to
    a cell [(r, c)] inside the grid with [r * cols + c = k], whose
    coordinates [(tx[r,c], ty[r,c])] are the point indexed at [k]. *)
Theorem flat_index_round_trip (g : Gridder) :
  constructed g -> shape (ty g) = shape (tx g) ->
  (forall i j, i < fst (shape (tx g)) -> j < snd (shape (tx g)) ->
     unravel_index [i * snd (shape (tx g)) + j] (shape (tx g)) = Ok ([i], [j]) /\
     exists a b, get2 (tx g) i j = Some a /\ get2 (ty g) i j = Some b /\
                 nth_error (tpoints g) (i * snd (shape (tx g)) + j) = Some (a, b)) /\
  (forall k, k < length (tpoints g) ->
     exists r c a b,
       unravel_index [k] (shape (tx g)) = Ok ([r], [c]) /\
       r < fst (shape (tx g)) /\ c < snd (shape (tx g)) /\
       r * snd (shape (tx g)) + c = k /\
       nth_error (tpoints g) k = Some (a, b) /\
       get2 (tx g) r c = Some a /\ get2 (ty g) r c = Some b).
Proof.
  intros Hc Hs. destruct (constructed_rect g Hc) as [Rx Ry].
  destruct (constructed_wf g Hc) as (_ & _ & Hlen).
  split.
  - intros i j Hi Hj. split.
    + rewrite unravel_index_ok by (repeat constructor; nia).
      cbn [map]. rewrite (cell_of_flat g i j Hj). reflexivity.
    + destruct (rect_entry (tx g) i j Rx Hi Hj) as [a Ha].
      destruct (rect_entry (ty g) i j Ry) as [b Hb]; [rewrite Hs; auto..|].
      exists a, b. split; [exact Ha|]. split; [exact Hb|].
      destruct Hc as (tx0 & ty0 & dx0 & c & H).
      apply Gridder_init_ok in H as (_ & _ & _ & _ & Htp & _).
      rewrite Htp. apply nth_error_combine_some.
      * apply nth_error_ravel; [exact (rectangular_Forall (tx g) Rx)|exact Ha].
      * apply nth_error_ravel; [|exact Hb].
        rewrite <- Hs. exact (rectangular_Forall (ty g) Ry).
  - intros k Hk.
    destruct (nth_error (tpoints g) k) as [[a b]|] eqn:Ek;
      [|apply nth_error_None in Ek; lia].
    destruct (tpoints_cell g k (a, b) Hc Ek) as [Ha Hb]. specialize (Hb Hs).
    rewrite Hlen in Hk.
    assert (Hcols : snd (shape (tx g)) <> 0) by (intros Hz; rewrite Hz in Hk; lia).
    exists (fst (cell_of g k)), (snd (cell_of g k)), a, b.
    split; [|split; [|split; [|split; [|split; [|split]]]]].
    + rewrite unravel_index_ok by (repeat constructor; exact Hk). reflexivity.
    + unfold cell_of. cbn [fst snd]. apply Nat.Div0.div_lt_upper_bound. lia.
    + unfold cell_of. cbn [fst snd]. apply Nat.mod_upper_bound. exact Hcols.
    + unfold cell_of. cbn [fst snd].
      pose proof (Nat.div_mod_eq k (snd (shape (tx g)))). lia.
    + reflexivity.
    + exact Ha.
    + exact Hb.
Qed.

(** Witness of X12. *)
Lemma flat_index_round_trip_witness :
  (forall i j, i < fst (shape (tx scenario_gridder)) ->
               j < snd (shape (tx scenario_gridder)) ->
     unravel_index [i * snd (shape (tx scenario_gridder)) + j]
                   (shape (tx scenario_gridder)) = Ok ([i], [j]) /\
     exists a b, get2 (tx scenario_gridder) i j = Some a /\
                 get2 (ty scenario_gridder) i j = Some b /\
                 nth_error (tpoints scenario_gridder)
                           (i * snd (shape (tx scenario_gridder)) + j) = Some (a, b)) /\
  (forall k, k < length (tpoints scenario_gridder) ->
     exists r c a b,
       unravel_index [k] (shape (tx scenario_gridder)) = Ok ([r], [c]) /\
       r < fst (shape (tx scenario_gridder)) /\
       c < snd (shape (tx scenario_gridder)) /\
       r * snd (shape (tx scenario_gridder)) + c = k /\
       nth_error (tpoints scenario_gridder) k = Some (a, b) /\
       get2 (tx scenario_gridder) r c = Some a /\
       get2 (ty scenario_gridder) r c = Some b).
Proof.
  apply (flat_index_round_trip scenario_gridder constructed_scenario).
  reflexivity.
Defined.

(** ** Hit counts of the test loop *)

Lemma wrap64_small (z : Z) :
  (- 2 ^ 63 <= z < 2 ^ 63)%Z -> wrap64 z = z.
Proof.
  intros H. unfold wrap64. rewrite Z.mod_small by lia. lia.
Qed.

Lemma nth_error_set_nth {A : Type} (i j : nat) (v : A) (l : list A) :
  i < length l ->
  nth_error (set_nth i v l) j = if j =? i then Some v else nth_error l j.
Proof.
  revert i j; induction l as [|x l IH]; intros i j Hi; simpl in Hi; [lia|].
  destruct i as [|i]; destruct j as [|j]; simpl; try reflexivity.
  apply IH. lia.
Qed.

Lemma iadd_item_ok (grid : array2 Z) (r c : nat) (v d : Z) :
  get2 grid r c = Some v ->
  exists grid',
    iadd_item grid (r, c) d = Ok grid' /\
    forall i j,
      get2 grid' i j =
      if (i =? r) && (j =? c) then Some (wrap64 (v + d)) else get2 grid i j.
Proof.
  intros Hv. apply get2_some in Hv as (row & Hr & Hc).
  unfold iadd_item. cbn [fst snd]. rewrite Hr, Hc.
  eexists. split; [reflexivity|]. intros i j. unfold get2.
  assert (Lr : r < length grid) by (apply nth_error_Some; congruence).
  assert (Lc : c < length row) by (apply nth_error_Some; congruence).
  rewrite (nth_error_set_nth r i _ grid Lr).
  destruct (Nat.eqb_spec i r) as [->|Hne]; cbn [andb].
  - rewrite (nth_error_set_nth c j _ row Lc), Hr.
    destruct (j =? c); reflexivity.
  - reflexivity.
Qed.

(** The loop on a grid whose counters cannot overflow: every cell goes up by
    the number of times it occurs among the points. *)
Lemma accumulate_points_counts (points : list (nat * nat)) (grid : array2 Z) :
  (forall rc, In rc points -> get2 grid (fst rc) (snd rc) <> None) ->
  (forall i j v, get2 grid i j = Some v ->
     (0 <= v /\ v + Z.of_nat (length points) < 2 ^ 63)%Z) ->
  exists grid',
    accumulate_points grid points = Ok grid' /\
    forall i j,
      get2 grid' i j =
      option_map (fun v =>
        Z.add v (Z.of_nat (length (filter (fun rc => (fst rc =? i) && (snd rc =? j))
                                          points))))
        (get2 grid i j).
Proof.
  revert grid; induction points as [|[r c] points IH]; intros grid Hin Hb.
  - exists grid. split; [reflexivity|]. intros i j. simpl.
    destruct (get2 grid i j) as [v|]; simpl; [f_equal; lia|reflexivity].
  - destruct (get2 grid r c) as [v|] eqn:Ev;
      [|exfalso; exact (Hin (r, c) (or_introl eq_refl) Ev)].
    destruct (iadd_item_ok grid r c v 1 Ev) as (g1 & E1 & H1).
    destruct (Hb r c v Ev) as [Hv0 Hv1].
    assert (Hw : wrap64 (v + 1) = (v + 1)%Z).
    { apply wrap64_small. simpl length in Hv1. lia. }
    destruct (IH g1) as (g2 & E2 & H2).
    + intros rc Hrc. rewrite H1.
      destruct ((fst rc =? r) && (snd rc =? c)); [discriminate|].
      apply Hin. right. exact Hrc.
    + intros i j w. rewrite H1.
      destruct ((i =? r) && (j =? c)) eqn:Eij.
      * intros H. injection H as <-. rewrite Hw. simpl length in Hv1. lia.
      * intros H. specialize (Hb i j w H). simpl length in Hb. lia.
    + exists g2. split; [cbn [accumulate_points]; rewrite E1; exact E2|].
      intros i j. rewrite H2, H1. cbn [filter fst snd].
      rewrite (Nat.eqb_sym r i), (Nat.eqb_sym c j).
      destruct ((i =? r) && (j =? c)) eqn:Eij.
      * apply andb_true_iff in Eij as [Ei Ej].
        apply Nat.eqb_eq in Ei, Ej. subst i j. rewrite Ev, Hw.
        cbn [option_map length]. f_equal. lia.
      * reflexivity.
Qed.

Lemma snap_in_bounds (g : Gridder) (points : list point) (rc : nat * nat) :
  constructed g -> In rc (snap g points) ->
  fst rc < fst (shape (tx g)) /\ snd rc < snd (shape (tx g)).
Proof.
  intros Hc Hin. destruct (constructed_wf g Hc) as (Hkd & _ & Hlen).
  destruct (surviving_indices g points Hkd) as [_ Hs].
  unfold snap in Hin. apply in_map_iff in Hin as (k & <- & Hk).
  apply in_map_iff in Hk as (q & <- & Hq).
  rewrite Forall_forall in Hs. destruct (Hs q Hq) as (pk & Hpk & _).
  assert (Hlt : snd (query1 (tree g) (dx g) q) < length (tpoints g))
    by (apply nth_error_Some; congruence).
  rewrite Hlen in Hlt.
  apply (unravel1_bounds (shape (tx g)) (snd (query1 (tree g) (dx g) q))).
  unfold unravel1. apply Nat.ltb_lt in Hlt. rewrite Hlt. reflexivity.
Qed.

(** X13. The counting loop of [test_points] on a constructed [Gridder] and
    a non-empty batch of fewer than 2^63 points raises nothing (no index
    is out of range, no counter overflows) and leaves in every cell of the
    grid the number of returned points that were mapped to that cell. *)
Theorem test_points_counts_hits (g : Gridder) (xs ys : list Q) :
  constructed g -> length xs = length ys -> xs <> [] ->
  (Z.of_nat (length xs) < 2 ^ 63)%Z ->
  exists cells grid,
    grid_points (Seq xs) (Seq ys) g = (Ok cells, g) /\
    test_points_grid (Seq xs) (Seq ys) g = (Ok grid, g) /\
    forall i j, i < fst (shape (tx g)) -> j < snd (shape (tx g)) ->
      get2 grid i j =
      Some (Z.of_nat (length (filter (fun rc => (fst rc =? i) && (snd rc =? j))
                                     cells))).
Proof.
  intros Hc Hlen Hne Hsmall.
  pose proof (grid_points_snap g xs ys Hc Hlen Hne) as Hg.
  set (cells := snap g (combine xs ys)) in *.
  assert (Hcl : length cells <= length xs).
  { unfold cells, snap. rewrite !length_map.
    etransitivity; [apply filter_no_longer|].
    unfold point. rewrite length_combine. lia. }
  destruct (accumulate_points_counts cells (np_zeros 0%Z (shape (tx g))))
    as (grid & Eg & Hgrid).
  - intros rc Hrc. destruct (snap_in_bounds g _ rc Hc Hrc) as [Hr Hcc].
    rewrite (get2_np_zeros 0%Z (shape (tx g)) _ _ Hr Hcc). discriminate.
  - intros i j v Hv.
    assert (v = 0%Z).
    { unfold get2, np_zeros in Hv.
      destruct (nth_error (repeat _ _) i) as [row|] eqn:Er; [|discriminate].
      apply nth_error_In, repeat_spec in Er. subst row.
      apply nth_error_In, repeat_spec in Hv. exact Hv. }
    subst v. lia.
  - exists cells, grid. split; [exact Hg|]. split.
    + unfold test_points_grid, bind.
      change (make_empty_grid 0%Z g) with (Ok (np_zeros 0%Z (shape (tx g))), g).
      cbv beta iota. rewrite Hg. unfold lift. rewrite Eg. reflexivity.
    + intros i j Hi Hj. rewrite Hgrid, (get2_np_zeros 0%Z _ _ _ Hi Hj).
      reflexivity.
Qed.

(** Witness of X13: four points, two of them in cell (0, 0), one too far. *)
Lemma test_points_counts_hits_witness :
  exists cells grid,
    grid_points (Seq [6; 100; 16; 4]%Q) (Seq [6; 100; 25; 7]%Q) scenario_gridder
      = (Ok cells, scenario_gridder) /\
    test_points_grid (Seq [6; 100; 16; 4]%Q) (Seq [6; 100; 25; 7]%Q) scenario_gridder
      = (Ok grid, scenario_gridder) /\
    forall i j, i < fst (shape (tx scenario_gridder)) ->
                j < snd (shape (tx scenario_gridder)) ->
      get2 grid i j =
      Some (Z.of_nat (length (filter (fun rc => (fst rc =? i) && (snd rc =? j))
                                     cells))).
Proof.
  apply (test_points_counts_hits scenario_gridder
           [6; 100; 16; 4]%Q [6; 100; 25; 7]%Q constructed_scenario);
    first [reflexivity | discriminate].
Defined.

Example test_points_scenario :
  fst (test_points_grid (Seq [6; 100; 16; 4]%Q) (Seq [6; 100; 25; 7]%Q)
                        scenario_gridder)
  = Ok [[2; 0; 0; 0]; [0; 0; 0; 0]; [0; 1; 0; 0]; [0; 0; 0; 0]]%Z.
Proof. reflexivity. Qed.
